(** * Verification of the viewer5 [Model] mesh builder (src/examples/viewer5/model.cpp)

    The development embeds the CPU side of [Model]: the vertex/index build
    of [loadFromFile], material resolution, [standardize], [computeNormals],
    [computeTangents] and the texture loaders.  C++ [float] is IEEE-754
    binary32, modelled with the parameterised specification floats of the
    standard library at precision 24 and maximal exponent 128, so that
    every definition below evaluates.  Every operation is rounded on its
    own, to nearest even (no fused multiply-add); NaN payloads are not
    represented (the specification floats have a single NaN). *)

From Stdlib Require Import ZArith List Bool Lia.
From Stdlib Require Import Floats.SpecFloat.
From stdpp Require Import base tactics option list strings.

Open Scope Z_scope.

(** ** binary32 arithmetic *)

Module F32.

Definition prec : Z := 24.
Definition emax : Z := 128.

Definition float : Type := spec_float.

Definition add : float → float → float := SFadd prec emax.
Definition sub : float → float → float := SFsub prec emax.
Definition mul : float → float → float := SFmul prec emax.
Definition div : float → float → float := SFdiv prec emax.
Definition sqrt : float → float := SFsqrt prec emax.
Definition neg : float → float := SFopp.
(** C++ [a < b] on floats: false whenever an operand is NaN. *)
Definition ltb : float → float → bool := SFltb.

Definition of_Z (n : Z) : float := binary_normalize prec emax n 0 false.

Definition zero : float := S754_zero false.
Definition nan : float := S754_nan.
Definition one : float := S754_finite false 8388608 (-23).
Definition minus_one : float := S754_finite true 8388608 (-23).
Definition two : float := S754_finite false 8388608 (-22).

(** [std::numeric_limits<float>::max()] and [lowest()]. *)
Definition max_float : float := S754_finite false 16777215 104.
Definition lowest : float := S754_finite true 16777215 104.

(** [std::max(a, b)] is [(a < b) ? b : a]; [std::min(a, b)] is
    [(b < a) ? b : a]. *)
Definition max (a b : float) : float := if ltb a b then b else a.
Definition min (a b : float) : float := if ltb b a then b else a.

(** Bit identity of two floats (sign of zero distinguished). *)
Definition bits_eqb (a b : float) : bool :=
  match a, b with
  | S754_zero s1, S754_zero s2 => Bool.eqb s1 s2
  | S754_infinity s1, S754_infinity s2 => Bool.eqb s1 s2
  | S754_nan, S754_nan => true
  | S754_finite s1 m1 e1, S754_finite s2 m2 e2 =>
      Bool.eqb s1 s2 && Pos.eqb m1 m2 && Z.eqb e1 e2
  | _, _ => false
  end.

End F32.

Abbreviation float := F32.float.

Declare Scope f32_scope.
Delimit Scope f32_scope with f32.
Infix "+" := F32.add : f32_scope.
Infix "-" := F32.sub : f32_scope.
Infix "*" := F32.mul : f32_scope.
Infix "/" := F32.div : f32_scope.
Notation "- x" := (F32.neg x) : f32_scope.
Infix "<?" := F32.ltb : f32_scope.

(** ** The glm vector types and the functions of glm the model uses *)

Record vec2 := Vec2 { s2 : float; t2 : float }.
Record vec3 := Vec3 { x3 : float; y3 : float; z3 : float }.
Record vec4 := Vec4 { x4 : float; y4 : float; z4 : float; w4 : float }.

Module glm.
Local Open Scope f32_scope.

Definition zero3 : vec3 := Vec3 F32.zero F32.zero F32.zero.
Definition zero4 : vec4 := Vec4 F32.zero F32.zero F32.zero F32.zero.
Definition zero2 : vec2 := Vec2 F32.zero F32.zero.

Definition add3 (a b : vec3) : vec3 :=
  Vec3 (x3 a + x3 b) (y3 a + y3 b) (z3 a + z3 b).
Definition sub3 (a b : vec3) : vec3 :=
  Vec3 (x3 a - x3 b) (y3 a - y3 b) (z3 a - z3 b).
Definition scale3 (a : vec3) (k : float) : vec3 :=
  Vec3 (x3 a * k) (y3 a * k) (z3 a * k).
Definition div3 (a : vec3) (k : float) : vec3 :=
  Vec3 (x3 a / k) (y3 a / k) (z3 a / k).
Definition sub2 (a b : vec2) : vec2 :=
  Vec2 (s2 a - s2 b) (t2 a - t2 b).
Definition add4 (a b : vec4) : vec4 :=
  Vec4 (x4 a + x4 b) (y4 a + y4 b) (z4 a + z4 b) (w4 a + w4 b).

(** [glm::vec3(v)] for a [vec4] [v], and [glm::vec4(v, w)]. *)
Definition xyz (a : vec4) : vec3 := Vec3 (x4 a) (y4 a) (z4 a).
Definition vec4_of (a : vec3) (w : float) : vec4 :=
  Vec4 (x3 a) (y3 a) (z3 a) w.

Definition dot (a b : vec3) : float :=
  (x3 a * x3 b + y3 a * y3 b) + z3 a * z3 b.

Definition cross (a b : vec3) : vec3 :=
  Vec3 (y3 a * z3 b - y3 b * z3 a)
       (z3 a * x3 b - z3 b * x3 a)
       (x3 a * y3 b - x3 b * y3 a).

Definition length (a : vec3) : float := F32.sqrt (dot a a).

Definition inversesqrt (k : float) : float := F32.one / F32.sqrt k.

Definition normalize (a : vec3) : vec3 := scale3 a (inversesqrt (dot a a)).

End glm.

(** ** Vertex

    The field order is the one [setupVAO] assumes for its attribute
    offsets: position, normal, texCoord, tangent. *)

Record Vertex := mkVertex {
  position : vec3;
  normal : vec3;
  texCoord : vec2;
  tangent : vec4
}.

Definition set_position (v : Vertex) (p : vec3) : Vertex :=
  mkVertex p (normal v) (texCoord v) (tangent v).
Definition set_normal (v : Vertex) (n : vec3) : Vertex :=
  mkVertex (position v) n (texCoord v) (tangent v).
Definition set_tangent (v : Vertex) (t : vec4) : Vertex :=
  mkVertex (position v) (normal v) (texCoord v) t.

Definition vec2_eqb (a b : vec2) : bool :=
  F32.bits_eqb (s2 a) (s2 b) && F32.bits_eqb (t2 a) (t2 b).
Definition vec3_eqb (a b : vec3) : bool :=
  F32.bits_eqb (x3 a) (x3 b) && F32.bits_eqb (y3 a) (y3 b)
  && F32.bits_eqb (z3 a) (z3 b).

(** Modelled from the spec: [Vertex::operator==] is declared in model.hpp,
    which is missing.  Equality is defined over position, normal and
    texture coordinate only (the tangent is excluded); two vertices are
    duplicates iff all three components compare bit-identical. *)
Definition Vertex_eqb (a b : Vertex) : bool :=
  vec3_eqb (position a) (position b)
  && vec3_eqb (normal a) (normal b)
  && vec2_eqb (texCoord a) (texCoord b).

(** ** Exceptions

    [at()] on a [std::vector] throws [std::out_of_range]; a failed parse
    and a failed texture decode throw [abcg::Exception::Runtime];
    [std::filesystem::exists] throws [std::filesystem::filesystem_error]
    when the status of the path cannot be determined. *)

Inductive exception :=
| Runtime (msg : string)
| out_of_range
| filesystem_error (msg : string).

Inductive result (A : Type) :=
| Ok (a : A)
| Throw (e : exception).
Arguments Ok {A} a.
Arguments Throw {A} e.

#[export] Instance result_ret : MRet result := λ A a, Ok a.
#[export] Instance result_bind : MBind result :=
  λ A B f r, match r with Ok a => f a | Throw e => Throw e end.

Definition is_Ok {A} (r : result A) : Prop := ∃ a, r = Ok a.

(** [v.at(i)] for an index computed as a [size_t]: a negative [int]
    converts to a value no vector can hold, so it is out of range too. *)
Definition at_ {A} (v : list A) (i : Z) : result A :=
  if i <? 0 then Throw out_of_range
  else match v !! Z.to_nat i with
       | Some a => Ok a
       | None => Throw out_of_range
       end.

(** Monadic left fold: a range-[for] whose body may throw. *)
Fixpoint foldM {A B} (f : B → A → result B) (l : list A) (b : B) : result B :=
  match l with
  | [] => Ok b
  | a :: l' => b' ← f b a; foldM f l' b'
  end.

(** ** 32-bit integers *)

Abbreviation GLuint := Z (only parsing).

Definition GLuint_of_size (n : nat) : GLuint := Z.of_nat n mod 2 ^ 32.

(** Conversion of a [size_t] to [int] (two's complement wrap). *)
Definition int_of_size (n : nat) : Z :=
  (Z.of_nat n + 2 ^ 31) mod 2 ^ 32 - 2 ^ 31.

(** [int] arithmetic and the conversion of an [int] to [size_t].  Signed
    overflow is undefined in C++; the compiled code wraps in two's
    complement, and that is what [int_mul] does.  [size_t] has 64 bits. *)
Definition int_wrap (z : Z) : Z := (z + 2 ^ 31) mod 2 ^ 32 - 2 ^ 31.

Definition int_mul (a b : Z) : Z := int_wrap (a * b).

Definition size_of_int (i : Z) : Z := i mod 2 ^ 64.

Definition size_add (a b : Z) : Z := (a + b) mod 2 ^ 64.

(** [iter::range<int>(start, stop, 3)] for a positive step: the values
    [start, start + 3, ...] below [stop]. *)
Definition range3 (stop : Z) : list Z :=
  map (λ k : nat, 3 * Z.of_nat k) (seq 0 (Z.to_nat ((stop + 2) / 3))).

(** ** What tinyobj hands over *)

Record index_t := mkIndex {
  vertex_index : Z;
  normal_index : Z;
  texcoord_index : Z
}.

Record attrib_t := mkAttrib {
  vertices : list float;
  normals : list float;
  texcoords : list float
}.

Record mesh_t := mkMesh { indices : list index_t }.
Record shape_t := mkShape { mesh : mesh_t }.

(** A [real_t[3]] colour. *)
Record real3 := Real3 { c0 : float; c1 : float; c2 : float }.

Record material_t := mkMaterial {
  ambient : real3;
  diffuse : real3;
  specular : real3;
  shininess : float;
  diffuse_texname : string;
  normal_texname : string;
  bump_texname : string
}.

(** State of a [tinyobj::ObjReader] after [ParseFromFile]. *)
Record ObjReader := mkReader {
  Valid : bool;
  Error : string;
  Warning : string;
  GetAttrib : attrib_t;
  GetShapes : list shape_t;
  GetMaterials : list material_t
}.

(** ** The model object

    The OpenGL buffer and vertex-array handles are not represented: they
    are written only by calls into the graphics API. *)

Record Model := mkModel {
  m_vertices : list Vertex;
  m_indices : list GLuint;
  m_hasNormals : bool;
  m_hasTexCoords : bool;
  m_Ka : vec4;
  m_Kd : vec4;
  m_Ks : vec4;
  m_shininess : float;
  m_diffuseTexture : GLuint;
  m_normalTexture : GLuint
}.

Definition with_vertices (vs : list Vertex) (m : Model) : Model :=
  mkModel vs (m_indices m) (m_hasNormals m) (m_hasTexCoords m)
          (m_Ka m) (m_Kd m) (m_Ks m) (m_shininess m)
          (m_diffuseTexture m) (m_normalTexture m).
Definition with_indices (ixs : list GLuint) (m : Model) : Model :=
  mkModel (m_vertices m) ixs (m_hasNormals m) (m_hasTexCoords m)
          (m_Ka m) (m_Kd m) (m_Ks m) (m_shininess m)
          (m_diffuseTexture m) (m_normalTexture m).
Definition with_hasNormals (b : bool) (m : Model) : Model :=
  mkModel (m_vertices m) (m_indices m) b (m_hasTexCoords m)
          (m_Ka m) (m_Kd m) (m_Ks m) (m_shininess m)
          (m_diffuseTexture m) (m_normalTexture m).
Definition with_hasTexCoords (b : bool) (m : Model) : Model :=
  mkModel (m_vertices m) (m_indices m) (m_hasNormals m) b
          (m_Ka m) (m_Kd m) (m_Ks m) (m_shininess m)
          (m_diffuseTexture m) (m_normalTexture m).
Definition with_material (ka kd ks : vec4) (sh : float) (m : Model) : Model :=
  mkModel (m_vertices m) (m_indices m) (m_hasNormals m) (m_hasTexCoords m)
          ka kd ks sh (m_diffuseTexture m) (m_normalTexture m).
Definition with_diffuseTexture (t : GLuint) (m : Model) : Model :=
  mkModel (m_vertices m) (m_indices m) (m_hasNormals m) (m_hasTexCoords m)
          (m_Ka m) (m_Kd m) (m_Ks m) (m_shininess m) t (m_normalTexture m).
Definition with_normalTexture (t : GLuint) (m : Model) : Model :=
  mkModel (m_vertices m) (m_indices m) (m_hasNormals m) (m_hasTexCoords m)
          (m_Ka m) (m_Kd m) (m_Ks m) (m_shininess m) (m_diffuseTexture m) t.

(** ** External collaborators: parser, file system, texture decoder *)

Record World := mkWorld {
  (** [std::filesystem::path{p}.parent_path().string()] *)
  parent_path : string → string;
  (** [reader.ParseFromFile(path, config)] with the given search path *)
  ParseFromFile : string → string → ObjReader;
  (** [std::filesystem::exists], which throws when the status of the
      path cannot be determined *)
  fs_exists : string → result bool;
  (** [abcg::opengl::loadTexture], which throws when decoding fails *)
  loadTexture : string → result GLuint
}.

(** ** [std::hash] and its specialisation for [Vertex] (lines 11-22)

    The hashes of [glm::vec3] and [glm::vec2] come from glm/gtx/hash.hpp
    and are left open: any instances will do. *)

Class Hash (A : Type) := hash : A → Z.

#[export] Instance hash_Vertex `{H3 : Hash vec3} `{H2 : Hash vec2}
  : Hash Vertex :=
  λ vertex,
    let h1 := hash (position vertex) in
    let h2 := hash (normal vertex) in
    let h3 := hash (texCoord vertex) in
    Z.lxor (Z.lxor h1 h2) h3.

(** ** [std::unordered_map]: a table of chained buckets

    A key lives in the bucket selected by its hash; inside a bucket keys
    are compared with the key equality.  The number of buckets is fixed
    when the table is created. *)

Module unordered_map.
Section defs.
Context {K V : Type} `{Hash K} (eqb : K → K → bool) (dflt : V).

Local Abbreviation t := (list (list (K * V))).

Definition create (bucket_count : positive) : t :=
  replicate (Pos.to_nat bucket_count) [].

Definition bucket (m : t) (k : K) : nat :=
  Z.to_nat (hash k mod Z.of_nat (length m)).

Fixpoint chain_find (k : K) (c : list (K * V)) : option V :=
  match c with
  | [] => None
  | (k', v) :: c' => if eqb k' k then Some v else chain_find k c'
  end.

Fixpoint chain_put (k : K) (v : V) (c : list (K * V)) : list (K * V) :=
  match c with
  | [] => [(k, v)]
  | (k', v') :: c' =>
      if eqb k' k then (k', v) :: c' else (k', v') :: chain_put k v c'
  end.

Definition find (m : t) (k : K) : option V :=
  chain_find k (default [] (m !! bucket m k)).

(** [m.count(k)] *)
Definition count (m : t) (k : K) : Z :=
  match find m k with Some _ => 1 | None => 0 end.

(** [m[k] = v] *)
Definition assign (m : t) (k : K) (v : V) : t :=
  alter (chain_put k v) (bucket m k) m.

(** [m[k]] read: a missing key is first inserted with a
    value-initialised mapped value. *)
Definition index (m : t) (k : K) : V * t :=
  match find m k with
  | Some v => (v, m)
  | None => (dflt, assign m k dflt)
  end.
End defs.
End unordered_map.

Abbreviation table := (list (list (Vertex * GLuint))).

(** ** Vertex/index build of [loadFromFile] (lines 186-245) *)

Section build.
Context `{H3 : Hash vec3} `{H2 : Hash vec2}.

(** Lines 202-233: the candidate vertex of one corner.  Each product
    is an [int] product, converted to the [size_t] [startIndex]; the
    offsets are added in [size_t]. *)
Definition assemble (attrib : attrib_t) (index : index_t) : result Vertex :=
  let startIndex := size_of_int (int_mul 3 (vertex_index index)) in
  vx ← at_ (vertices attrib) (size_add startIndex 0);
  vy ← at_ (vertices attrib) (size_add startIndex 1);
  vz ← at_ (vertices attrib) (size_add startIndex 2);
  n ← (if 0 <=? normal_index index then
         let startIndex := size_of_int (int_mul 3 (normal_index index)) in
         nx ← at_ (normals attrib) (size_add startIndex 0);
         ny ← at_ (normals attrib) (size_add startIndex 1);
         nz ← at_ (normals attrib) (size_add startIndex 2);
         Ok (Vec3 nx ny nz)
       else Ok glm.zero3);
  t ← (if 0 <=? texcoord_index index then
         let startIndex :=
           size_of_int (int_mul 2 (texcoord_index index)) in
         tu ← at_ (texcoords attrib) (size_add startIndex 0);
         tv ← at_ (texcoords attrib) (size_add startIndex 1);
         Ok (Vec2 tu tv)
       else Ok glm.zero2);
  Ok (mkVertex (Vec3 vx vy vz) n t glm.zero4).

(** Lines 235-243: look the vertex up, append it when it is new, and
    push its index. *)
Definition push_corner (st : Model * table) (vertex : Vertex)
  : Model * table :=
  let '(m, h) := st in
  let '(m, h) :=
    if unordered_map.count Vertex_eqb h vertex =? 0 then
      (with_vertices (m_vertices m ++ [vertex]) m,
       unordered_map.assign Vertex_eqb h vertex
         (GLuint_of_size (length (m_vertices m))))
    else (m, h) in
  let '(i, h) := unordered_map.index Vertex_eqb 0 h vertex in
  (with_indices (m_indices m ++ [i]) m, h).

(** One iteration of the inner loop.  The two flags are raised inside
    the branches of lines 212 and 223; a throw discards the object, so
    raising them after the lookups is the same. *)
Definition add_corner (attrib : attrib_t) (st : Model * table)
    (index : index_t) : result (Model * table) :=
  vertex ← assemble attrib index;
  let '(m, h) := st in
  let m := if 0 <=? normal_index index then with_hasNormals true m else m in
  let m :=
    if 0 <=? texcoord_index index then with_hasTexCoords true m else m in
  Ok (push_corner (m, h) vertex).

Definition add_shape (attrib : attrib_t) (st : Model * table)
    (shape : shape_t) : result (Model * table) :=
  foldM (add_corner attrib) (indices (mesh shape)) st.

(** Lines 186-245, for a table created with [bucket_count] buckets. *)
Definition buildVertexIndex (bucket_count : positive)
    (attrib : attrib_t) (shapes : list shape_t) (m : Model) : result Model :=
  let m := with_vertices [] m in
  let m := with_indices [] m in
  let m := with_hasNormals false m in
  let m := with_hasTexCoords false m in
  st ← foldM (add_shape attrib) shapes (m, unordered_map.create bucket_count);
  Ok (fst st).
End build.

(** ** [computeNormals] (lines 32-62) *)

Definition add_normal (i : GLuint) (n : vec3) (vs : list Vertex)
  : list Vertex :=
  alter (λ v, set_normal v (glm.add3 (normal v) n)) (Z.to_nat i) vs.

(** Lines 46-48. *)
Definition face_normal (a b c : Vertex) : vec3 :=
  let edge1 := glm.sub3 (position b) (position a) in
  let edge2 := glm.sub3 (position c) (position b) in
  glm.cross edge1 edge2.

(** One face: [a], [b], [c] are references into the vertex array, so the
    three accumulations act on the array in sequence. *)
Definition normals_face (ixs : list GLuint) (vs : list Vertex) (offset : Z)
  : result (list Vertex) :=
  ia ← at_ ixs (offset + 0); a ← at_ vs ia;
  ib ← at_ ixs (offset + 1); b ← at_ vs ib;
  ic ← at_ ixs (offset + 2); c ← at_ vs ic;
  let normal := face_normal a b c in
  Ok (add_normal ic normal (add_normal ib normal (add_normal ia normal vs))).

Definition computeNormals (m : Model) : result Model :=
  let vs := map (λ vertex, set_normal vertex glm.zero3) (m_vertices m) in
  vs ← foldM (normals_face (m_indices m))
         (range3 (int_of_size (length (m_indices m)))) vs;
  let vs := map (λ vertex, set_normal vertex (glm.normalize (normal vertex))) vs in
  Ok (with_hasNormals true (with_vertices vs m)).

(** ** [computeTangents] (lines 64-125) *)

Definition add_tangent (i : GLuint) (t : vec4) (vs : list Vertex)
  : list Vertex :=
  alter (λ v, set_tangent v (glm.add4 (tangent v) t)) (Z.to_nat i) vs.

(** [bitangents.at(i) += b] *)
Definition add_bitangent (i : GLuint) (b : vec3) (bs : list vec3)
  : result (list vec3) :=
  old ← at_ bs i;
  Ok (<[Z.to_nat i := glm.add3 old b]> bs).

(** Lines 80-99: tangent and bitangent of one face. *)
Definition face_basis (v1 v2 v3 : Vertex) : vec4 * vec3 :=
  let e1 := glm.sub3 (position v2) (position v1) in
  let e2 := glm.sub3 (position v3) (position v1) in
  let delta1 := glm.sub2 (texCoord v2) (texCoord v1) in
  let delta2 := glm.sub2 (texCoord v3) (texCoord v1) in
  let k := (F32.one / (s2 delta1 * t2 delta2 - s2 delta2 * t2 delta1))%f32 in
  let M00 := (t2 delta2 * k)%f32 in
  let M01 := (- t2 delta1 * k)%f32 in
  let M10 := (- s2 delta2 * k)%f32 in
  let M11 := (s2 delta1 * k)%f32 in
  (Vec4 (M00 * x3 e1 + M01 * x3 e2)%f32
        (M00 * y3 e1 + M01 * y3 e2)%f32
        (M00 * z3 e1 + M01 * z3 e2)%f32 F32.zero,
   Vec3 (M10 * x3 e1 + M11 * x3 e2)%f32
        (M10 * y3 e1 + M11 * y3 e2)%f32
        (M10 * z3 e1 + M11 * z3 e2)%f32).

Definition tangents_face (ixs : list GLuint)
    (st : list Vertex * list vec3) (offset : Z)
  : result (list Vertex * list vec3) :=
  let '(vs, bitangents) := st in
  i1 ← at_ ixs (offset + 0);
  i2 ← at_ ixs (offset + 1);
  i3 ← at_ ixs (offset + 2);
  v1 ← at_ vs i1;
  v2 ← at_ vs i2;
  v3 ← at_ vs i3;
  let '(tangent, bitangent) := face_basis v1 v2 v3 in
  let vs := add_tangent i3 tangent (add_tangent i2 tangent
              (add_tangent i1 tangent vs)) in
  bitangents ← add_bitangent i1 bitangent bitangents;
  bitangents ← add_bitangent i2 bitangent bitangents;
  bitangents ← add_bitangent i3 bitangent bitangents;
  Ok (vs, bitangents).

(** Body of the closing loop (lines 113-123) for one vertex and its
    accumulated bitangent. *)
Definition orthogonalize (vertex : Vertex) (bitangent : vec3) : Vertex :=
  let n := normal vertex in
  let t := glm.xyz (tangent vertex) in
  let tangent := glm.sub3 t (glm.scale3 n (glm.dot n t)) in
  let xyz := glm.normalize tangent in
  let b := glm.cross n t in
  let handedness := glm.dot b bitangent in
  set_tangent vertex
    (glm.vec4_of xyz
       (if (handedness <? F32.zero)%f32 then F32.minus_one else F32.one)).

Fixpoint orthogonalize_from (i : nat) (bitangents : list vec3)
    (vs : list Vertex) : result (list Vertex) :=
  match vs with
  | [] => Ok []
  | vertex :: vs' =>
      b ← at_ bitangents (Z.of_nat i);
      rest ← orthogonalize_from (S i) bitangents vs';
      Ok (orthogonalize vertex b :: rest)
  end.

Definition computeTangents (m : Model) : result Model :=
  let bitangents := replicate (length (m_vertices m)) glm.zero3 in
  st ← foldM (tangents_face (m_indices m))
         (range3 (int_of_size (length (m_indices m))))
         (m_vertices m, bitangents);
  vs ← orthogonalize_from 0 (snd st) (fst st);
  Ok (with_vertices vs m).

(** ** [standardize] (lines 359-380) *)

Definition grow_bounds (bounds : vec3 * vec3) (vertex : Vertex)
  : vec3 * vec3 :=
  let '(max, min) := bounds in
  let p := position vertex in
  (Vec3 (F32.max (x3 max) (x3 p)) (F32.max (y3 max) (y3 p))
        (F32.max (z3 max) (z3 p)),
   Vec3 (F32.min (x3 min) (x3 p)) (F32.min (y3 min) (y3 p))
        (F32.min (z3 min) (z3 p))).

Definition get_bounds (vs : list Vertex) : vec3 * vec3 :=
  fold_left grow_bounds vs
    (Vec3 F32.lowest F32.lowest F32.lowest,
     Vec3 F32.max_float F32.max_float F32.max_float).

Definition standardize (m : Model) : Model :=
  let '(max, min) := get_bounds (m_vertices m) in
  let center := glm.div3 (glm.add3 min max) F32.two in
  let scaling := (F32.two / glm.length (glm.sub3 max min))%f32 in
  with_vertices
    (map (λ vertex,
            set_position vertex
              (glm.scale3 (glm.sub3 (position vertex) center) scaling))
         (m_vertices m)) m.

(** ** Texture loaders (lines 147-159) *)

Definition loadDiffuseTexture (w : World) (path : string) (m : Model)
  : result Model :=
  found ← fs_exists w path;
  if negb found then Ok m
  else t ← loadTexture w path; Ok (with_diffuseTexture t m).

Definition loadNormalTexture (w : World) (path : string) (m : Model)
  : result Model :=
  found ← fs_exists w path;
  if negb found then Ok m
  else t ← loadTexture w path; Ok (with_normalTexture t m).

(** ** [loadFromFile] (lines 161-284) *)

Definition empty (s : string) : bool :=
  match s with EmptyString => true | _ => false end.

Module lit.
(** The literals [0.1f], [0.7f] and [25.0f]. *)
Definition f0_1 : float := S754_finite false 13421773 (-27).
Definition f0_7 : float := S754_finite false 11744051 (-24).
Definition f25 : float := S754_finite false 13107200 (-19).
End lit.

(** Lines 247-269. *)
Definition resolveMaterial (w : World) (basePath : string)
    (materials : list material_t) (m : Model) : result Model :=
  match materials with
  | mat :: _ =>
      let Ka := Vec4 (c0 (ambient mat)) (c1 (ambient mat)) (c2 (ambient mat))
                     F32.one in
      let Kd := Vec4 (c0 (diffuse mat)) (c1 (diffuse mat)) (c2 (diffuse mat))
                     F32.one in
      let Ks := Vec4 (c0 (specular mat)) (c1 (specular mat))
                     (c2 (specular mat)) F32.one in
      let m := with_material Ka Kd Ks (shininess mat) m in
      m ← (if negb (empty (diffuse_texname mat)) then
             loadDiffuseTexture w (basePath +:+ diffuse_texname mat) m
           else Ok m);
      if negb (empty (normal_texname mat)) then
        loadNormalTexture w (basePath +:+ normal_texname mat) m
      else if negb (empty (bump_texname mat)) then
        loadNormalTexture w (basePath +:+ bump_texname mat) m
      else Ok m
  | [] =>
      Ok (with_material
            (Vec4 lit.f0_1 lit.f0_1 lit.f0_1 F32.one)
            (Vec4 lit.f0_7 lit.f0_7 lit.f0_7 F32.one)
            (Vec4 F32.one F32.one F32.one F32.one)
            lit.f25 m)
  end.

(** The member functions and code regions [loadFromFile] goes through;
    the log of a load records them in the order they ran. *)
Inductive Step :=
| BuildVertexIndex
| ResolveMaterial
| Standardize
| ComputeNormals
| ComputeTangents
| CreateBuffers.

Definition run (s : Step) (f : Model → result Model)
    (st : Model * list Step) : result (Model * list Step) :=
  m ← f (fst st);
  Ok (m, snd st ++ [s]).

(** Line 162: the directory of the model file, and lines 164-169: the
    reader after parsing with that directory as material search path. *)
Definition load_basePath (w : World) (path : string) : string :=
  parent_path w path +:+ "/".

Definition load_reader (w : World) (path : string) : ObjReader :=
  ParseFromFile w path (load_basePath w path).

Section load.
Context `{H3 : Hash vec3} `{H2 : Hash vec2}.

(** The parser's warning is only printed, and [createBuffers] only
    talks to the graphics API: neither changes the fields modelled. *)
Definition loadFromFile (bucket_count : positive) (w : World)
    (path : string) (standardize_flag : bool) (m : Model)
  : result (Model * list Step) :=
  let basePath := load_basePath w path in
  let reader := load_reader w path in
  if negb (Valid reader) then
    if negb (empty (Error reader)) then
      Throw (Runtime ("Failed to load model " +:+ path +:+ " ("
                      +:+ Error reader +:+ ")"))
    else Throw (Runtime ("Failed to load model " +:+ path))
  else
    st ← run BuildVertexIndex
           (buildVertexIndex bucket_count (GetAttrib reader)
              (GetShapes reader)) (m, []);
    st ← run ResolveMaterial
           (resolveMaterial w basePath (GetMaterials reader)) st;
    st ← (if standardize_flag
          then run Standardize (λ m, Ok (standardize m)) st
          else Ok st);
    st ← (if negb (m_hasNormals (fst st))
          then run ComputeNormals computeNormals st
          else Ok st);
    st ← (if m_hasTexCoords (fst st)
          then run ComputeTangents computeTangents st
          else Ok st);
    run CreateBuffers (λ m, Ok m) st.
End load.

(** ** Vocabulary of the statements *)

(** The corner sequence of a parse: every shape's indices, in order. *)
Definition corners (shapes : list shape_t) : list index_t :=
  concat (map (λ shape, indices (mesh shape)) shapes).

(** Apply a throwing function to every element, left to right. *)
Fixpoint mapR {A B} (f : A → result B) (l : list A) : result (list B) :=
  match l with
  | [] => Ok []
  | a :: l' => b ← f a; bs ← mapR f l'; Ok (b :: bs)
  end.

Definition supplies_normal (index : index_t) : bool :=
  0 <=? normal_index index.
Definition supplies_texcoord (index : index_t) : bool :=
  0 <=? texcoord_index index.

(** Position of the first vertex of [vs] that duplicates [v]. *)
Fixpoint first_index (v : Vertex) (vs : list Vertex) : option nat :=
  match vs with
  | [] => None
  | u :: vs' => if Vertex_eqb u v then Some 0%nat else S <$> first_index v vs'
  end.

(** The vertices of [vs] in first-occurrence order, duplicates dropped. *)
Fixpoint first_occurrences (vs : list Vertex) : list Vertex :=
  match vs with
  | [] => []
  | v :: vs' =>
      v :: filter (λ u, Vertex_eqb v u = false) (first_occurrences vs')
  end.

(** Table-free description of the build: one corner, then all of them. *)
Definition dedup_push (st : list Vertex * list GLuint) (v : Vertex)
  : list Vertex * list GLuint :=
  match first_index v (fst st) with
  | Some i => (fst st, snd st ++ [GLuint_of_size i])
  | None => (fst st ++ [v], snd st ++ [GLuint_of_size (length (fst st))])
  end.

Definition dedup (vs : list Vertex) : list Vertex * list GLuint :=
  fold_left dedup_push vs ([], []).

Definition rebuild (vs : list Vertex) (ixs : list GLuint) (n t : bool)
    (m : Model) : Model :=
  with_hasTexCoords t (with_hasNormals n (with_indices ixs (with_vertices vs m))).

Definition build_model (attrib : attrib_t) (shapes : list shape_t)
    (m : Model) : result Model :=
  vs ← mapR (assemble attrib) (corners shapes);
  Ok (rebuild (fst (dedup vs)) (snd (dedup vs))
        (existsb supplies_normal (corners shapes))
        (existsb supplies_texcoord (corners shapes)) m).

(** No two vertices of [U] are duplicates of each other. *)
Definition unique (U : list Vertex) : Prop :=
  ∀ a u, U !! a = Some u → first_index u U = Some a.

(** What the table holds while the vertex list is [vs]. *)
Definition table_inv (h : table) `{H3 : Hash vec3} `{H2 : Hash vec2}
    (vs : list Vertex) : Prop :=
  (0 < length h)%nat
  ∧ ∀ v, unordered_map.find Vertex_eqb h v
         = GLuint_of_size <$> first_index v vs.

(** The mesh invariant, and what it means for an operation to leave the
    index sequence and the vertex count alone. *)
Definition indices_in_range (m : Model) : Prop :=
  Forall (λ i, 0 ≤ i < Z.of_nat (length (m_vertices m))) (m_indices m).

Definition mesh_inv (m : Model) : Prop :=
  indices_in_range m ∧ (length (m_indices m) mod 3 = 0)%nat.

Definition same_mesh (m m' : Model) : Prop :=
  m_indices m' = m_indices m
  ∧ length (m_vertices m') = length (m_vertices m).

(** The index count fits an [int], as the face loops assume. *)
Definition fits_int (m : Model) : Prop :=
  Z.of_nat (length (m_indices m)) < 2 ^ 31.

(** The consecutive index triplets. *)
Fixpoint triangles (ixs : list GLuint) : list (GLuint * GLuint * GLuint) :=
  match ixs with
  | a :: b :: c :: rest => (a, b, c) :: triangles rest
  | _ => []
  end.

(** [f] applied to the accumulator of vertex [k] when corner [i] is that
    vertex, nothing otherwise. *)
Definition bump {A} (f : A → A) (i : GLuint) (k : nat) (x : A) : A :=
  if decide (Z.to_nat i = k) then f x else x.

(** What vertex [k] has accumulated after the faces [tris], each face
    contributing once per corner that is vertex [k], in face order and,
    within a face, in corner order. *)
Definition accumulate {A} (vs : list Vertex)
    (contrib : Vertex → Vertex → Vertex → A → A)
    (tris : list (GLuint * GLuint * GLuint)) (k : nat) (x0 : A) : A :=
  fold_left
    (λ acc '(i1, i2, i3),
       match vs !! Z.to_nat i1, vs !! Z.to_nat i2, vs !! Z.to_nat i3 with
       | Some v1, Some v2, Some v3 =>
           bump (contrib v1 v2 v3) i3 k
             (bump (contrib v1 v2 v3) i2 k
                (bump (contrib v1 v2 v3) i1 k acc))
       | _, _, _ => acc
       end)
    tris x0.

Definition accumulated_normal (vs : list Vertex) (ixs : list GLuint)
    (k : nat) : vec3 :=
  accumulate vs (λ a b c acc, glm.add3 acc (face_normal a b c))
    (triangles ixs) k glm.zero3.

Definition accumulated_tangent (vs : list Vertex) (ixs : list GLuint)
    (k : nat) (t0 : vec4) : vec4 :=
  accumulate vs (λ v1 v2 v3 acc, glm.add4 acc (fst (face_basis v1 v2 v3)))
    (triangles ixs) k t0.

Definition accumulated_bitangent (vs : list Vertex) (ixs : list GLuint)
    (k : nat) : vec3 :=
  accumulate vs (λ v1 v2 v3 acc, glm.add3 acc (snd (face_basis v1 v2 v3)))
    (triangles ixs) k glm.zero3.

(** The offsets the face loops visit when the index count is [3 * T]. *)
Definition offsets (T : nat) : list Z :=
  map (λ k : nat, 3 * Z.of_nat k) (seq 0 T).

(** Material colours and texture handles are the same in both models. *)
Definition same_surface (m m' : Model) : Prop :=
  m_Ka m' = m_Ka m ∧ m_Kd m' = m_Kd m ∧ m_Ks m' = m_Ks m
  ∧ m_shininess m' = m_shininess m
  ∧ m_diffuseTexture m' = m_diffuseTexture m
  ∧ m_normalTexture m' = m_normalTexture m.

(** Vertices, indices and the two flags are the same in both models. *)
Definition same_geometry (m m' : Model) : Prop :=
  m_vertices m' = m_vertices m ∧ m_indices m' = m_indices m
  ∧ m_hasNormals m' = m_hasNormals m
  ∧ m_hasTexCoords m' = m_hasTexCoords m.

(** [std::filesystem::exists] returned true for the path. *)
Definition file_found (w : World) (p : string) : bool :=
  match fs_exists w p with Ok true => true | _ => false end.

(** The file name [loadFromFile] takes the normal map from: the normal
    map of the material when it names one, its bump map otherwise. *)
Definition normal_map_name (mat : material_t) : string :=
  if negb (empty (normal_texname mat)) then normal_texname mat
  else bump_texname mat.

(** The file is reported missing, or it is reported present and the
    decoder returns a handle for it. *)
Definition texture_loads (w : World) (p : string) : Prop :=
  fs_exists w p = Ok false
  ∨ (fs_exists w p = Ok true ∧ is_Ok (loadTexture w p)).

(** The textures the first material names load: its diffuse texture and
    its normal map, each when named. *)
Definition textures_load (w : World) (basePath : string)
    (materials : list material_t) : Prop :=
  match materials with
  | [] => True
  | mat :: _ =>
      (empty (diffuse_texname mat) = false →
       texture_loads w (basePath +:+ diffuse_texname mat))
      ∧ (empty (normal_map_name mat) = false →
         texture_loads w (basePath +:+ normal_map_name mat))
  end.

(** The log of a load over the corners [cs]. *)
Definition expected_log (standardize_flag : bool) (cs : list index_t)
  : list Step :=
  [BuildVertexIndex; ResolveMaterial]
  ++ (if standardize_flag then [Standardize] else [])
  ++ (if existsb supplies_normal cs then [] else [ComputeNormals])
  ++ (if existsb supplies_texcoord cs then [ComputeTangents] else [])
  ++ [CreateBuffers].


(** Half the extent of the bounding box of [vs] along each axis, and the
    centre of the box, both as [standardize] computes its bounds. *)
Definition half_extents (vs : list Vertex) : vec3 :=
  let '(max, min) := get_bounds vs in
  glm.div3 (glm.sub3 max min) F32.two.

Definition box_center (vs : list Vertex) : vec3 :=
  let '(max, min) := get_bounds vs in
  glm.div3 (glm.add3 min max) F32.two.

(** ** Sample data *)

Module sample.

Definition h3 : Hash vec3 :=
  λ v, match x3 v with S754_finite _ m _ => Z.pos m | _ => 0 end.
Definition h2 : Hash vec2 :=
  λ v, match s2 v with S754_finite _ m _ => Z.pos m | _ => 0 end.

Definition blank : Model :=
  mkModel [] [] false false glm.zero4 glm.zero4 glm.zero4 F32.zero 0 0.

(** A unit quad as two triangles, with texture coordinates and without
    normals. *)
Definition quad_attrib : attrib_t :=
  mkAttrib (F32.of_Z <$> [0; 0; 0; 1; 0; 0; 0; 1; 0; 1; 1; 0]) []
           (F32.of_Z <$> [0; 0; 1; 0; 0; 1; 1; 1]).

Definition quad_shapes : list shape_t :=
  [mkShape (mkMesh [mkIndex 0 (-1) 0; mkIndex 1 (-1) 1; mkIndex 2 (-1) 2;
                    mkIndex 2 (-1) 2; mkIndex 1 (-1) 1; mkIndex 3 (-1) 3])].

Definition quad_corners : list Vertex :=
  match mapR (assemble quad_attrib) (corners quad_shapes) with
  | Ok vs => vs
  | Throw _ => []
  end.

Definition plain : material_t :=
  mkMaterial (Real3 F32.one F32.zero F32.zero)
             (Real3 F32.zero F32.one F32.zero)
             (Real3 F32.zero F32.zero F32.one)
             F32.two "wood.png" "" "".

(** A world whose parser returns the quad with the given materials and
    in which no texture file exists. *)
Definition world (materials : list material_t) : World :=
  mkWorld (λ _, "assets")
          (λ _ _, mkReader true "" "" quad_attrib quad_shapes materials)
          (λ _, Ok false)
          (λ _, Throw (Runtime "no decoder")).

Definition loaded (materials : list material_t) : Model * list Step :=
  match loadFromFile (H3:=h3) (H2:=h2) 3 (world materials)
          "assets/quad.obj" true blank with
  | Ok r => r
  | Throw _ => (blank, [])
  end.

(** A cube: 8 corner positions, 12 triangles, no normals and no
    texture coordinates. *)
Definition cube_attrib : attrib_t :=
  mkAttrib (F32.of_Z <$> [0; 0; 0; 0; 0; 1; 0; 1; 0; 0; 1; 1;
                          1; 0; 0; 1; 0; 1; 1; 1; 0; 1; 1; 1]) [] [].

Definition cube_shapes : list shape_t :=
  [mkShape (mkMesh ((λ i, mkIndex i (-1) (-1)) <$>
     [0; 1; 3; 0; 3; 2; 4; 6; 7; 4; 7; 5; 0; 4; 5; 0; 5; 1;
      2; 3; 7; 2; 7; 6; 0; 2; 6; 0; 6; 4; 1; 5; 7; 1; 7; 3]))].

Definition vertex_at (x y z : Z) : Vertex :=
  mkVertex (Vec3 (F32.of_Z x) (F32.of_Z y) (F32.of_Z z))
           glm.zero3 glm.zero2 glm.zero4.

(** One triangle and a fourth vertex no index refers to. *)
Definition triangle : Model :=
  with_indices [0; 1; 2]
    (with_vertices [vertex_at 0 0 0; vertex_at 1 0 0; vertex_at 0 1 0;
                    vertex_at 5 5 5] blank).

(** Two vertices whose bounding box is 3 by 4 by 0. *)
Definition segment : Model :=
  with_vertices [vertex_at 0 0 0; vertex_at 3 4 0] blank.

End sample.

(** ** Further vocabulary *)

(** The [count] entries from [startIndex] on, each offset added in
    [size_t], exist in an array of [len] entries. *)
Definition entries_exist (len : nat) (startIndex : Z) (count : nat) : bool :=
  forallb (λ k : nat, size_add startIndex (Z.of_nat k) <? Z.of_nat len)
          (seq 0 count).

(** The entries a corner reads exist: three floats of the position
    always, three of the normal and two of the texture coordinate when
    the index is not negative; each from the start index the code
    computes. *)
Definition corner_in_range (attrib : attrib_t) (index : index_t) : bool :=
  entries_exist (length (vertices attrib))
    (size_of_int (int_mul 3 (vertex_index index))) 3
  && ((normal_index index <? 0)
      || entries_exist (length (normals attrib))
           (size_of_int (int_mul 3 (normal_index index))) 3)
  && ((texcoord_index index <? 0)
      || entries_exist (length (texcoords attrib))
           (size_of_int (int_mul 2 (texcoord_index index))) 2).

(** The same without wrap-around: the indices taken as numbers. *)
Definition corner_addresses (attrib : attrib_t) (index : index_t) : bool :=
  (0 <=? vertex_index index)
  && (3 * vertex_index index + 2 <? Z.of_nat (length (vertices attrib)))
  && ((normal_index index <? 0)
      || (3 * normal_index index + 2 <? Z.of_nat (length (normals attrib))))
  && ((texcoord_index index <? 0)
      || (2 * texcoord_index index + 1
          <? Z.of_nat (length (texcoords attrib)))).

(** No product of the corner overflows an [int]. *)
Definition products_fit (index : index_t) : bool :=
  (- 2 ^ 31 <=? 3 * vertex_index index) && (3 * vertex_index index <? 2 ^ 31)
  && (- 2 ^ 31 <=? 3 * normal_index index)
  && (3 * normal_index index <? 2 ^ 31)
  && (- 2 ^ 31 <=? 2 * texcoord_index index)
  && (2 * texcoord_index index <? 2 ^ 31).

(** The attribute arrays have at most 2^63 entries each. *)
Definition attrib_fits (attrib : attrib_t) : Prop :=
  Z.of_nat (length (vertices attrib)) ≤ 2 ^ 63
  ∧ Z.of_nat (length (normals attrib)) ≤ 2 ^ 63
  ∧ Z.of_nat (length (texcoords attrib)) ≤ 2 ^ 63.

(** Two vertices that differ at most in the named field. *)
Definition same_but_normal (v v' : Vertex) : Prop :=
  position v' = position v ∧ texCoord v' = texCoord v
  ∧ tangent v' = tangent v.

Definition same_but_tangent (v v' : Vertex) : Prop :=
  position v' = position v ∧ normal v' = normal v
  ∧ texCoord v' = texCoord v.

Definition same_but_position (v v' : Vertex) : Prop :=
  normal v' = normal v ∧ texCoord v' = texCoord v
  ∧ tangent v' = tangent v.

(** Everything of a model but its vertex array. *)
Definition same_but_vertices (m m' : Model) : Prop :=
  m_indices m' = m_indices m
  ∧ m_hasNormals m' = m_hasNormals m
  ∧ m_hasTexCoords m' = m_hasTexCoords m
  ∧ same_surface m m'.

(** A binary32 number that is a zero or a finite number in canonical
    form; and one that is neither: a NaN or an infinity. *)
Definition float_finite (x : float) : bool :=
  match x with
  | S754_zero _ => true
  | S754_finite _ _ _ => valid_binary F32.prec F32.emax x
  | _ => false
  end.

Definition float_unbounded (x : float) : bool :=
  match x with
  | S754_nan | S754_infinity _ => true
  | _ => false
  end.

Definition vec3_finite (a : vec3) : bool :=
  float_finite (x3 a) && float_finite (y3 a) && float_finite (z3 a).

Definition vec3_unbounded (a : vec3) : bool :=
  float_unbounded (x3 a) && float_unbounded (y3 a) && float_unbounded (z3 a).

(** Line 303 of [render]: the number of indices handed to
    [glDrawElements].  The product is taken in [Z]; an [int] overflow
    there is undefined behaviour in the source. *)
Definition render_numIndices (m : Model) (numTriangles : Z) : Z :=
  if numTriangles <? 0 then int_of_size (length (m_indices m))
  else numTriangles * 3.

Definition vec2_finite (a : vec2) : bool :=
  float_finite (s2 a) && float_finite (t2 a).

Definition nan3 : vec3 := Vec3 F32.nan F32.nan F32.nan.

(** Further sample data. *)
Module sample_more.

(** The quad of [sample] after the build alone. *)
Definition quad_built : Model :=
  match buildVertexIndex (H3:=sample.h3) (H2:=sample.h2) 3
          sample.quad_attrib sample.quad_shapes sample.blank with
  | Ok m => m
  | Throw _ => sample.blank
  end.

(** The quad with one shape per triangle. *)
Definition quad_two_shapes : list shape_t :=
  [mkShape (mkMesh [mkIndex 0 (-1) 0; mkIndex 1 (-1) 1; mkIndex 2 (-1) 2]);
   mkShape (mkMesh [mkIndex 2 (-1) 2; mkIndex 1 (-1) 1; mkIndex 3 (-1) 3])].

(** The triangle of [sample] with its vertex normals computed. *)
Definition triangle_normals : Model :=
  match computeNormals sample.triangle with
  | Ok m => m
  | Throw _ => sample.blank
  end.

(** Two vertices at one point. *)
Definition point : Model :=
  with_vertices [sample.vertex_at 1 2 3; sample.vertex_at 1 2 3]
    sample.blank.

(** A world whose parser fails with a message. *)
Definition failing_world : World :=
  mkWorld (λ _, "assets")
          (λ _ _, mkReader false "no such file" "" sample.quad_attrib [] [])
          (λ _, Ok false)
          (λ _, Throw (Runtime "no decoder")).

(** A world with the quad in which the status of no path can be
    determined. *)
Definition unreadable_world (materials : list material_t) : World :=
  mkWorld (λ _, "assets")
          (λ _ _, mkReader true "" "" sample.quad_attrib
                    sample.quad_shapes materials)
          (λ _, Throw (filesystem_error "File name too long"))
          (λ _, Throw (Runtime "no decoder")).

End sample_more.
(** * Proofs *)

(** ** The result monad *)

Lemma bind_Ok {A B} (f : A → result B) (a : A) : (Ok a ≫= f) = f a.
Proof. reflexivity. Qed.

Lemma bind_Ok_inv {A B} (f : A → result B) (r : result A) (b : B) :
  (r ≫= f) = Ok b → ∃ a, r = Ok a ∧ f a = Ok b.
Proof. destruct r as [a|e]; [eauto | discriminate]. Qed.

Lemma foldM_app {A B} (f : B → A → result B) (l1 l2 : list A) (b : B) :
  foldM f (l1 ++ l2) b = (foldM f l1 b ≫= foldM f l2).
Proof.
  revert b. induction l1 as [|a l1 IH]; intros b; simpl; [done|].
  destruct (f b a) as [b'|e]; simpl; [apply IH | done].
Qed.

Lemma foldM_concat {A B C} (f : B → A → result B) (g : C → list A)
    (ls : list C) (b : B) :
  foldM (λ b c, foldM f (g c) b) ls b = foldM f (concat (map g ls)) b.
Proof.
  revert b. induction ls as [|c ls IH]; intros b; simpl; [done|].
  rewrite foldM_app. destruct (foldM f (g c) b); simpl; [apply IH | done].
Qed.

Lemma at_Ok {A} (v : list A) (i : Z) (a : A) :
  at_ v i = Ok a ↔ 0 ≤ i ∧ v !! Z.to_nat i = Some a.
Proof.
  unfold at_. destruct (Z.ltb_spec i 0).
  - split; [discriminate | lia].
  - destruct (v !! Z.to_nat i) eqn:E; split.
    + intros [= ->]. done.
    + intros [_ [= ->]]. done.
    + discriminate.
    + intros [_ ?]. discriminate.
Qed.

Lemma at_of_nat {A} (v : list A) (k : nat) (a : A) :
  v !! k = Some a → at_ v (Z.of_nat k) = Ok a.
Proof. intros Hk. apply at_Ok. rewrite Nat2Z.id. split; [lia | done]. Qed.

(** ** Bit identity is equality of the modelled floats *)

Lemma bits_eqb_eq (a b : float) : F32.bits_eqb a b = true ↔ a = b.
Proof.
  destruct a as [s1|s1| |s1 m1 e1], b as [s2|s2| |s2 m2 e2]; simpl;
    try (split; [discriminate | congruence]); try done.
  - rewrite Bool.eqb_true_iff. split; congruence.
  - rewrite Bool.eqb_true_iff. split; congruence.
  - rewrite !andb_true_iff, Bool.eqb_true_iff, Pos.eqb_eq, Z.eqb_eq.
    split; [intros [[-> ->] ->]; done | intros [= -> -> ->]; done].
Qed.

Lemma vec3_eqb_eq (a b : vec3) : vec3_eqb a b = true ↔ a = b.
Proof.
  unfold vec3_eqb. rewrite !andb_true_iff, !bits_eqb_eq.
  destruct a, b; simpl. split; [intros [[-> ->] ->]; done | intros [= -> -> ->]; done].
Qed.

Lemma vec2_eqb_eq (a b : vec2) : vec2_eqb a b = true ↔ a = b.
Proof.
  unfold vec2_eqb. rewrite !andb_true_iff, !bits_eqb_eq.
  destruct a, b; simpl. split; [intros [-> ->]; done | intros [= -> ->]; done].
Qed.

Lemma Vertex_eqb_spec (a b : Vertex) :
  Vertex_eqb a b = true ↔
  position a = position b ∧ normal a = normal b ∧ texCoord a = texCoord b.
Proof.
  unfold Vertex_eqb.
  rewrite !andb_true_iff, !vec3_eqb_eq, vec2_eqb_eq. tauto.
Qed.

Lemma Vertex_eqb_refl (a : Vertex) : Vertex_eqb a a = true.
Proof. by apply Vertex_eqb_spec. Qed.

Lemma Vertex_eqb_sym (a b : Vertex) : Vertex_eqb a b = Vertex_eqb b a.
Proof.
  apply eq_true_iff_eq. rewrite !Vertex_eqb_spec. intuition congruence.
Qed.

Lemma Vertex_eqb_trans (a b c : Vertex) :
  Vertex_eqb a b = true → Vertex_eqb b c = true → Vertex_eqb a c = true.
Proof. rewrite !Vertex_eqb_spec. intuition congruence. Qed.

Lemma Vertex_eqb_congr (a b c : Vertex) :
  Vertex_eqb a b = true → Vertex_eqb a c = Vertex_eqb b c.
Proof.
  intros Hab. apply eq_true_iff_eq. split; intros Hc.
  - apply Vertex_eqb_trans with a; [by rewrite Vertex_eqb_sym | done].
  - by apply Vertex_eqb_trans with b.
Qed.

(** The hash of the source is compatible with the key equality, whatever
    the component hashes are. *)
Lemma hash_Vertex_compat `{H3 : Hash vec3} `{H2 : Hash vec2} (a b : Vertex) :
  Vertex_eqb a b = true → hash a = hash b.
Proof.
  rewrite Vertex_eqb_spec. intros (Hp & Hn & Ht).
  unfold hash, hash_Vertex. by rewrite Hp, Hn, Ht.
Qed.

(** ** The bucket table behaves as a finite map *)

Section table_facts.
Context {K V : Type} `{Hash K} (eqb : K → K → bool) (dflt : V).
Hypothesis eqb_sym : ∀ a b, eqb a b = eqb b a.
Hypothesis eqb_congr : ∀ a b c, eqb a b = true → eqb a c = eqb b c.
Hypothesis hash_compat : ∀ a b, eqb a b = true → hash a = hash b.

Import unordered_map.
Local Abbreviation t := (list (list (K * V))).

Lemma chain_find_put (k k' : K) (v : V) (c : list (K * V)) :
  chain_find eqb k' (chain_put eqb k v c)
  = if eqb k k' then Some v else chain_find eqb k' c.
Proof.
  induction c as [|[k1 v1] c IH]; simpl.
  - by destruct (eqb k k').
  - destruct (eqb k1 k) eqn:E1; simpl.
    + rewrite (eqb_congr _ _ k' E1). by destruct (eqb k k').
    + rewrite IH. destruct (eqb k1 k') eqn:E2; [|done].
      destruct (eqb k k') eqn:E3; [|done].
      rewrite eqb_sym in E3. rewrite (eqb_congr _ _ k E2), eqb_sym in E1.
      congruence.
Qed.

Lemma length_create (bc : positive) : (0 < length (create (K:=K) (V:=V) bc))%nat.
Proof. unfold create. rewrite length_replicate. lia. Qed.

Lemma length_assign (m : t) (k : K) (v : V) :
  length (assign eqb m k v) = length m.
Proof. unfold assign. apply length_alter. Qed.

Lemma bucket_lt (m : t) (k : K) :
  (0 < length m)%nat → (bucket m k < length m)%nat.
Proof.
  intros Hm. unfold bucket.
  pose proof (Z.mod_pos_bound (hash k) (Z.of_nat (length m))). lia.
Qed.

Lemma find_create (bc : positive) (k : K) :
  find eqb (create (K:=K) (V:=V) bc) k = None.
Proof.
  unfold find. generalize (bucket (create (K:=K) (V:=V) bc) k).
  intros b. unfold create.
  destruct (replicate (Pos.to_nat bc) ([] : list (K * V)) !! b)
    as [c|] eqn:E; [|done].
  apply lookup_replicate in E as [-> _]. done.
Qed.

Lemma find_assign (m : t) (k k' : K) (v : V) :
  (0 < length m)%nat →
  find eqb (assign eqb m k v) k'
  = if eqb k k' then Some v else find eqb m k'.
Proof.
  intros Hm. unfold find.
  assert (Hb : bucket (assign eqb m k v) k' = bucket m k').
  { unfold bucket. by rewrite length_assign. }
  rewrite Hb. unfold assign.
  destruct (decide (bucket m k = bucket m k')) as [Heq|Hne].
  - rewrite <- Heq, list_lookup_alter_eq.
    destruct (m !! bucket m k) as [c|] eqn:E; simpl.
    + apply chain_find_put.
    + apply lookup_ge_None in E. pose proof (bucket_lt m k Hm). lia.
  - rewrite list_lookup_alter_ne by done.
    destruct (eqb k k') eqn:E; [|done].
    apply hash_compat in E. unfold bucket in Hne. congruence.
Qed.

Lemma count_find (m : t) (k : K) :
  (count eqb m k =? 0) = bool_decide (find eqb m k = None).
Proof. unfold count. by destruct (find eqb m k). Qed.
End table_facts.

(** ** First occurrences *)

Lemma first_index_congr (a b : Vertex) (vs : list Vertex) :
  Vertex_eqb a b = true → first_index a vs = first_index b vs.
Proof.
  intros Hab. induction vs as [|u vs IH]; simpl; [done|].
  rewrite (Vertex_eqb_sym u a), (Vertex_eqb_sym u b).
  rewrite (Vertex_eqb_congr a b u Hab). by rewrite IH.
Qed.

Lemma first_index_app (v : Vertex) (l1 l2 : list Vertex) :
  first_index v (l1 ++ l2)
  = match first_index v l1 with
    | Some i => Some i
    | None => (λ i, length l1 + i)%nat <$> first_index v l2
    end.
Proof.
  induction l1 as [|u l1 IH]; simpl.
  - by destruct (first_index v l2).
  - destruct (Vertex_eqb u v); [done|]. rewrite IH.
    destruct (first_index v l1); simpl; [done|].
    by destruct (first_index v l2).
Qed.

Lemma first_index_Some (v : Vertex) (vs : list Vertex) (i : nat) :
  first_index v vs = Some i →
  ∃ u, vs !! i = Some u ∧ Vertex_eqb u v = true
       ∧ first_index v (take i vs) = None.
Proof.
  revert i. induction vs as [|u vs IH]; intros i; simpl; [done|].
  destruct (Vertex_eqb u v) eqn:E.
  - intros [= <-]. exists u. done.
  - destruct (first_index v vs) as [j|] eqn:Ej; simpl; [|done].
    intros [= <-]. destruct (IH j eq_refl) as (u' & ? & ? & ?).
    exists u'. simpl. rewrite E. by rewrite H1.
Qed.

Lemma first_index_lt (v : Vertex) (vs : list Vertex) (i : nat) :
  first_index v vs = Some i → (i < length vs)%nat.
Proof.
  intros Hi. apply first_index_Some in Hi as (u & Hu & _).
  by apply lookup_lt_Some in Hu.
Qed.

Lemma first_index_None (v : Vertex) (vs : list Vertex) :
  first_index v vs = None ↔ Forall (λ u, Vertex_eqb u v = false) vs.
Proof.
  induction vs as [|u vs IH]; simpl.
  - split; [constructor | done].
  - destruct (Vertex_eqb u v) eqn:E.
    + split; [done | intros Hf; inversion Hf; congruence].
    + destruct (first_index v vs); simpl.
      * split; [done|]. intros Hf. inversion Hf; subst.
        by apply IH in H2.
      * split; [|done]. intros _. constructor; [done | by apply IH].
Qed.

(** ** The build against its table-free description *)

Section build_facts.
Context `{H3 : Hash vec3} `{H2 : Hash vec2}.

Lemma table_find_assign (h : table) (k k' : Vertex) (i : GLuint) :
  (0 < length h)%nat →
  unordered_map.find Vertex_eqb (unordered_map.assign Vertex_eqb h k i) k'
  = if Vertex_eqb k k' then Some i else unordered_map.find Vertex_eqb h k'.
Proof.
  apply find_assign.
  - apply Vertex_eqb_sym.
  - apply Vertex_eqb_congr.
  - intros a b. apply hash_Vertex_compat.
Qed.

Lemma table_inv_create (bc : positive) :
  table_inv (unordered_map.create bc) [].
Proof.
  split; [apply length_create|]. intros v. apply find_create.
Qed.

Lemma push_corner_dedup (m : Model) (h : table) (v : Vertex) :
  table_inv h (m_vertices m) →
  ∃ h', push_corner (m, h) v
        = (rebuild (fst (dedup_push (m_vertices m, m_indices m) v))
                   (snd (dedup_push (m_vertices m, m_indices m) v))
                   (m_hasNormals m) (m_hasTexCoords m) m, h')
        ∧ table_inv h' (fst (dedup_push (m_vertices m, m_indices m) v)).
Proof.
  intros [Hlen Hfind]. unfold push_corner, dedup_push; simpl.
  rewrite count_find, Hfind.
  destruct (first_index v (m_vertices m)) as [i|] eqn:Ei; simpl.
  - unfold unordered_map.index. rewrite Hfind, Ei; simpl.
    exists h. split; [destruct m; reflexivity | by split].
  - unfold unordered_map.index.
    rewrite table_find_assign, Vertex_eqb_refl by done.
    eexists. split; [destruct m; reflexivity|].
    split; [by rewrite length_assign|].
    intros v'. rewrite table_find_assign by done.
    rewrite first_index_app; simpl.
    destruct (Vertex_eqb v v') eqn:E.
    + rewrite <- (first_index_congr v v') by done. rewrite Ei; simpl.
      by rewrite Nat.add_0_r.
    + rewrite Hfind. by destruct (first_index v' (m_vertices m)).
Qed.

Lemma add_corner_unfold (attrib : attrib_t) (m : Model) (h : table)
    (c : index_t) :
  add_corner attrib (m, h) c
  = match assemble attrib c with
    | Ok v =>
        Ok (push_corner
              (rebuild (m_vertices m) (m_indices m)
                 (m_hasNormals m || supplies_normal c)
                 (m_hasTexCoords m || supplies_texcoord c) m, h) v)
    | Throw e => Throw e
    end.
Proof.
  unfold add_corner. destruct (assemble attrib c) as [v|e]; [|done].
  unfold supplies_normal, supplies_texcoord.
  destruct m as [? ? [] []];
    destruct (0 <=? normal_index c), (0 <=? texcoord_index c); reflexivity.
Qed.

Lemma add_corners_dedup (attrib : attrib_t) (cs : list index_t)
    (m : Model) (h : table) :
  table_inv h (m_vertices m) →
  match mapR (assemble attrib) cs with
  | Ok vs =>
      ∃ h', foldM (add_corner attrib) cs (m, h)
            = Ok (rebuild
                    (fst (fold_left dedup_push vs (m_vertices m, m_indices m)))
                    (snd (fold_left dedup_push vs (m_vertices m, m_indices m)))
                    (m_hasNormals m || existsb supplies_normal cs)
                    (m_hasTexCoords m || existsb supplies_texcoord cs) m, h')
  | Throw e => foldM (add_corner attrib) cs (m, h) = Throw e
  end.
Proof.
  revert m h. induction cs as [|c cs IH]; intros m h Hinv; simpl.
  - exists h. rewrite !orb_false_r. destruct m; reflexivity.
  - rewrite add_corner_unfold.
    destruct (assemble attrib c) as [v|e]; [|reflexivity].
    rewrite !bind_Ok.
    set (m2 := rebuild _ _ _ _ m).
    assert (Hm2 : m2 = rebuild (m_vertices m) (m_indices m)
                 (m_hasNormals m || supplies_normal c)
                 (m_hasTexCoords m || supplies_texcoord c) m) by done.
    destruct (push_corner_dedup m2 h v) as (h' & -> & Hinv').
    { by rewrite Hm2. }
    rewrite Hm2 in Hinv' |- *. simpl in Hinv' |- *.
    match goal with
    | |- context [foldM _ cs (?m', h')] => specialize (IH m' h' Hinv')
    end.
    destruct (mapR (assemble attrib) cs) as [vs|e]; simpl in *; [|done].
    destruct IH as (h'' & ->). exists h''.
    rewrite <- surjective_pairing, !orb_assoc. reflexivity.
Qed.

(** The build computes [build_model]: neither the hashes nor the number
    of buckets show in the result. *)
Lemma buildVertexIndex_model (bc : positive) (attrib : attrib_t)
    (shapes : list shape_t) (m : Model) :
  buildVertexIndex bc attrib shapes m = build_model attrib shapes m.
Proof.
  unfold buildVertexIndex, build_model, add_shape.
  rewrite (foldM_concat (add_corner attrib) (λ s, indices (mesh s))).
  fold (corners shapes).
  match goal with
  | |- context [foldM _ _ (?m', _)] =>
      pose proof (add_corners_dedup attrib (corners shapes) m'
                    (unordered_map.create bc) (table_inv_create bc)) as Hb
  end.
  destruct (mapR (assemble attrib) (corners shapes)) as [vs|e]; simpl in *.
  - destruct Hb as (h' & ->). simpl. destruct m; reflexivity.
  - by rewrite Hb.
Qed.
End build_facts.

(** ** The table-free build on lists *)

Lemma first_index_filter_None (u v : Vertex) (l : list Vertex) :
  Vertex_eqb u v = false →
  first_index v (filter (λ w, Vertex_eqb u w = false) l) = None
  ↔ first_index v l = None.
Proof.
  intros Huv. rewrite !first_index_None, !Forall_forall.
  split; intros Hall w Hw.
  - destruct (Vertex_eqb u w) eqn:E.
    + rewrite <- (Vertex_eqb_congr u w v E). done.
    + apply Hall. apply list_elem_of_filter. done.
  - apply list_elem_of_filter in Hw as [_ Hw]. by apply Hall.
Qed.

Lemma first_index_first_occurrences_None (v : Vertex) (vs : list Vertex) :
  first_index v (first_occurrences vs) = None ↔ first_index v vs = None.
Proof.
  induction vs as [|u vs IH]; simpl; [done|].
  destruct (Vertex_eqb u v) eqn:E; [done|].
  rewrite !fmap_None, first_index_filter_None by done. done.
Qed.

Lemma first_occurrences_snoc (vs : list Vertex) (v : Vertex) :
  first_occurrences (vs ++ [v])
  = match first_index v (first_occurrences vs) with
    | Some _ => first_occurrences vs
    | None => first_occurrences vs ++ [v]
    end.
Proof.
  induction vs as [|u vs IH]; simpl.
  - rewrite filter_nil. reflexivity.
  - rewrite IH. destruct (Vertex_eqb u v) eqn:E.
    + destruct (first_index v (first_occurrences vs)); [done|].
      rewrite filter_app, filter_cons_False, filter_nil, app_nil_r by congruence.
      done.
    + destruct (first_index v (first_occurrences vs)) eqn:Ev.
      * destruct (first_index v (filter _ (first_occurrences vs))) eqn:Ef;
          [done|].
        apply first_index_filter_None in Ef; congruence.
      * apply first_index_filter_None with (u := u) in Ev as ->; [|done].
        simpl. rewrite filter_app, filter_cons_True, filter_nil by done.
        done.
Qed.

Lemma first_occurrences_prefix (l1 l2 : list Vertex) :
  ∃ l, first_occurrences (l1 ++ l2) = first_occurrences l1 ++ l.
Proof.
  induction l2 as [|v l2 IH] using rev_ind.
  - exists []. by rewrite !app_nil_r.
  - destruct IH as [l IH]. rewrite app_assoc, first_occurrences_snoc, IH.
    destruct (first_index v _); [by exists l|].
    exists (l ++ [v]). by rewrite app_assoc.
Qed.

Lemma first_occurrences_length (vs : list Vertex) :
  (length (first_occurrences vs) ≤ length vs)%nat.
Proof.
  induction vs as [|u vs IH]; simpl; [done|].
  pose proof (length_filter (λ w, Vertex_eqb u w = false)
                (first_occurrences vs)). lia.
Qed.

Lemma dedup_snoc (vs : list Vertex) (v : Vertex) :
  dedup (vs ++ [v]) = dedup_push (dedup vs) v.
Proof. unfold dedup. by rewrite fold_left_app. Qed.

Lemma dedup_spec (vs : list Vertex) :
  fst (dedup vs) = first_occurrences vs
  ∧ unique (fst (dedup vs))
  ∧ Forall2 (λ v i, ∃ k, first_index v (fst (dedup vs)) = Some k
                         ∧ i = GLuint_of_size k)
            vs (snd (dedup vs)).
Proof.
  induction vs as [|v vs (HU & Huniq & HI)] using rev_ind.
  - split; [done|]. split; [by intros a u | constructor].
  - rewrite dedup_snoc, first_occurrences_snoc, <- HU. unfold dedup_push.
    destruct (first_index v (dedup vs).1) as [k|] eqn:Ek; simpl.
    + split; [done|]. split; [done|].
      apply Forall2_app; [done|]. constructor; [eauto | constructor].
    + split; [done|]. split.
      * intros a u Ha. rewrite first_index_app.
        apply lookup_app_Some in Ha as [Ha|[Hle Ha]].
        -- by rewrite (Huniq a u Ha).
        -- apply list_lookup_singleton_Some in Ha as [Ha <-].
           rewrite Ek. simpl. rewrite Vertex_eqb_refl. simpl.
           f_equal. lia.
      * apply Forall2_app.
        -- eapply Forall2_impl; [exact HI|]. intros v' i (k & Hk & ->).
           exists k. by rewrite first_index_app, Hk.
        -- constructor; [|constructor]. exists (length (dedup vs).1).
           rewrite first_index_app, Ek. simpl.
           rewrite Vertex_eqb_refl. simpl. by rewrite Nat.add_0_r.
Qed.

Lemma dedup_length (vs : list Vertex) : length (snd (dedup vs)) = length vs.
Proof.
  destruct (dedup_spec vs) as (_ & _ & HI). symmetry.
  by eapply Forall2_length.
Qed.

Lemma dedup_index (vs : list Vertex) (i : nat) (v : Vertex) :
  vs !! i = Some v →
  ∃ k u, first_index v (first_occurrences vs) = Some k
         ∧ first_occurrences vs !! k = Some u
         ∧ Vertex_eqb u v = true
         ∧ snd (dedup vs) !! i = Some (GLuint_of_size k).
Proof.
  intros Hi. destruct (dedup_spec vs) as (HU & _ & HI).
  destruct (Forall2_lookup_l _ _ _ _ _ HI Hi) as (ii & Hii & k & Hk & ->).
  rewrite HU in Hk. destruct (first_index_Some _ _ _ Hk) as (u & Hu & Hev & _).
  by exists k, u.
Qed.

Lemma GLuint_of_size_small (n : nat) :
  Z.of_nat n < 2 ^ 32 → GLuint_of_size n = Z.of_nat n.
Proof. intros Hn. unfold GLuint_of_size. apply Z.mod_small. lia. Qed.

Lemma GLuint_of_size_range (n : nat) :
  0 ≤ GLuint_of_size n ≤ Z.of_nat n.
Proof.
  unfold GLuint_of_size.
  pose proof (Z.mod_pos_bound (Z.of_nat n) (2 ^ 32)).
  pose proof (Z.mod_le (Z.of_nat n) (2 ^ 32)). lia.
Qed.

(** Every index is below the vertex count, wrapped or not. *)
Lemma dedup_in_range (vs : list Vertex) :
  Forall (λ i, 0 ≤ i < Z.of_nat (length (fst (dedup vs)))) (snd (dedup vs)).
Proof.
  destruct (dedup_spec vs) as (_ & _ & HI).
  apply Forall_lookup_2. intros j i Hj.
  destruct (Forall2_lookup_r _ _ _ _ _ HI Hj) as (v & _ & k & Hk & ->).
  apply first_index_lt in Hk. pose proof (GLuint_of_size_range k). lia.
Qed.

Lemma first_occurrences_elem (u : Vertex) (vs : list Vertex) :
  u ∈ first_occurrences vs → u ∈ vs.
Proof.
  induction vs as [|w vs IH]; simpl; [done|].
  rewrite !elem_of_cons, list_elem_of_filter. intuition.
Qed.

(** ** Facts about [mapR] and [assemble] *)

Lemma mapR_Ok_Forall2 {A B} (f : A → result B) (l : list A) (bs : list B) :
  mapR f l = Ok bs → Forall2 (λ a b, f a = Ok b) l bs.
Proof.
  revert bs. induction l as [|a l IH]; intros bs; simpl.
  - intros [= <-]. constructor.
  - intros Hb. apply bind_Ok_inv in Hb as (b & Hb & Hr).
    apply bind_Ok_inv in Hr as (bs' & Hbs & [= <-]).
    constructor; [done | by apply IH].
Qed.

Lemma mapR_length {A B} (f : A → result B) (l : list A) (bs : list B) :
  mapR f l = Ok bs → length bs = length l.
Proof.
  intros Hb. symmetry. eapply Forall2_length. by apply mapR_Ok_Forall2.
Qed.

Ltac invert_binds :=
  repeat match goal with
         | H : (?r ≫= _) = Ok _ |- _ =>
             let a := fresh "a" in
             let E := fresh "E" in
             apply bind_Ok_inv in H as (a & E & H)
         end.

Lemma assemble_tangent (attrib : attrib_t) (c : index_t) (v : Vertex) :
  assemble attrib c = Ok v → tangent v = glm.zero4.
Proof.
  unfold assemble. intros Hv. invert_binds. by injection Hv as <-.
Qed.

Lemma assemble_zero_fill (attrib : attrib_t) (c : index_t) (v : Vertex) :
  assemble attrib c = Ok v →
  (supplies_normal c = false → normal v = glm.zero3)
  ∧ (supplies_texcoord c = false → texCoord v = glm.zero2).
Proof.
  unfold assemble, supplies_normal, supplies_texcoord. intros Hv.
  invert_binds. injection Hv as <-. simpl.
  split; intros Hc; rewrite Hc in *; congruence.
Qed.

Lemma duplicate_assembled (attrib : attrib_t) (c c' : index_t)
    (u v : Vertex) :
  assemble attrib c = Ok u → assemble attrib c' = Ok v →
  Vertex_eqb u v = true → u = v.
Proof.
  intros Hu%assemble_tangent Hv%assemble_tangent.
  rewrite Vertex_eqb_spec. destruct u, v; simpl in *.
  intros (-> & -> & ->). congruence.
Qed.

(** ** Vertex deduplication *)

Section dedup_claims.
Context `{H3 : Hash vec3} `{H2 : Hash vec2}.

(** C1.  When every corner of the parse assembles (its attribute
    indices are in range) and the number of distinct vertices does not
    exceed the range of a [GLuint], the build returns, and: the unique vertices are the
    assembled vertices in first-occurrence order; there is one index per
    corner, and it locates the corner's own assembled vertex; absent
    normals and texture coordinates are zero-filled; two corners get the
    same index iff their position, normal and texture coordinate are
    bit-identical; and a corner whose vertex was not met before gets the
    current unique-vertex count as its index, the vertex being appended
    to the unique vertices. *)
Theorem vertex_deduplication (bc : positive) (attrib : attrib_t)
    (shapes : list shape_t) (m0 : Model) (vs : list Vertex) :
  mapR (assemble attrib) (corners shapes) = Ok vs →
  Z.of_nat (length (first_occurrences vs)) ≤ 2 ^ 32 →
  ∃ m, buildVertexIndex bc attrib shapes m0 = Ok m
    ∧ m_vertices m = first_occurrences vs
    ∧ length (m_indices m) = length vs
    ∧ (∀ i c v, corners shapes !! i = Some c → vs !! i = Some v →
         (supplies_normal c = false → normal v = glm.zero3)
         ∧ (supplies_texcoord c = false → texCoord v = glm.zero2))
    ∧ (∀ i v, vs !! i = Some v →
         ∃ k : nat, m_indices m !! i = Some (Z.of_nat k)
                    ∧ m_vertices m !! k = Some v)
    ∧ (∀ i j vi vj, vs !! i = Some vi → vs !! j = Some vj →
         (m_indices m !! i = m_indices m !! j
          ↔ position vi = position vj ∧ normal vi = normal vj
            ∧ texCoord vi = texCoord vj))
    ∧ (∀ i v, vs !! i = Some v → first_index v (take i vs) = None →
         m_indices m !! i
         = Some (Z.of_nat (length (first_occurrences (take i vs))))
         ∧ first_occurrences (take (S i) vs)
           = first_occurrences (take i vs) ++ [v]).
Proof.
  intros Hvs Hbound. rewrite buildVertexIndex_model.
  unfold build_model. rewrite Hvs, bind_Ok. eexists. split; [done|].
  destruct (dedup_spec vs) as (HU & _ & _). simpl. rewrite HU.
  pose proof (mapR_Ok_Forall2 _ _ _ Hvs) as Hasm.
  assert (Hsmall : ∀ v k, first_index v (first_occurrences vs) = Some k →
                          GLuint_of_size k = Z.of_nat k).
  { intros v k Hk%first_index_lt. apply GLuint_of_size_small. lia. }
  split; [done|]. split; [apply dedup_length|].
  split; [|split; [|split]].
  - intros i c v Hc Hv.
    destruct (Forall2_lookup_l _ _ _ _ _ Hasm Hc) as (v' & Hv' & Hcv).
    assert (v' = v) as -> by congruence.
    by apply assemble_zero_fill with attrib.
  - intros i v Hv.
    destruct (dedup_index vs i v Hv) as (k & u & Hk & Hu & Huv & Hi).
    exists k. rewrite Hi, (Hsmall v k Hk). split; [done|].
    rewrite Hu. f_equal.
    apply list_elem_of_lookup_2, first_occurrences_elem in Hu.
    apply list_elem_of_lookup in Hu as (j & Hj).
    destruct (Forall2_lookup_r _ _ _ _ _ Hasm Hj) as (cj & _ & Hcj).
    destruct (Forall2_lookup_r _ _ _ _ _ Hasm Hv) as (ci & _ & Hci).
    by eapply duplicate_assembled.
  - intros i j vi vj Hvi Hvj.
    destruct (dedup_index vs i vi Hvi) as (ki & ui & Hki & Hui & Hei & ->).
    destruct (dedup_index vs j vj Hvj) as (kj & uj & Hkj & Huj & Hej & ->).
    rewrite (Hsmall vi ki Hki), (Hsmall vj kj Hkj), <- Vertex_eqb_spec.
    split.
    + intros [= Heq%Nat2Z.inj]. subst kj.
      assert (uj = ui) as -> by congruence.
      apply Vertex_eqb_trans with ui; [|done].
      by rewrite Vertex_eqb_sym.
    + intros Heq. rewrite (first_index_congr vi vj) in Hki by done.
      congruence.
  - intros i v Hv Hnew.
    assert (Hsnoc : first_occurrences (take (S i) vs)
                    = first_occurrences (take i vs) ++ [v]).
    { erewrite take_S_r by done. rewrite first_occurrences_snoc.
      apply first_index_first_occurrences_None in Hnew. by rewrite Hnew. }
    split; [|done].
    destruct (dedup_index vs i v Hv) as (k & u & Hk & _ & _ & ->).
    rewrite (Hsmall v k Hk). do 2 f_equal.
    destruct (first_occurrences_prefix (take (S i) vs) (drop (S i) vs))
      as (l & Hl).
    rewrite take_drop, Hsnoc in Hl. rewrite Hl, !first_index_app in Hk.
    apply first_index_first_occurrences_None in Hnew.
    rewrite Hnew in Hk. simpl in Hk. rewrite Vertex_eqb_refl in Hk.
    simpl in Hk. injection Hk as <-. lia.
Qed.
End dedup_claims.

(** ** Loops over the faces *)

Lemma foldM_invariant {A B} (f : B → A → result B) (P : B → Prop)
    (l : list A) (b b' : B) :
  (∀ b a b', f b a = Ok b' → P b → P b') →
  P b → foldM f l b = Ok b' → P b'.
Proof.
  intros Hstep. revert b. induction l as [|a l IH]; intros b Hb; simpl.
  - by intros [= <-].
  - intros Hf. apply bind_Ok_inv in Hf as (b1 & Hb1 & Hf). eauto.
Qed.

(** Induction along the face loop: [P t s] speaks of the state after the
    first [t] faces. *)
Lemma face_loop {S} (f : S → Z → result S) (P : nat → S → Prop)
    (T : nat) (s0 : S) :
  P 0%nat s0 →
  (∀ t s, (t < T)%nat → P t s →
          ∃ s', f s (3 * Z.of_nat t) = Ok s' ∧ P (Datatypes.S t) s') →
  ∃ s', foldM f (offsets T) s0 = Ok s' ∧ P T s'.
Proof.
  intros H0 Hstep. induction T as [|T IH].
  - by exists s0.
  - destruct IH as (s & Hs & HP); [intros; apply Hstep; [lia|done]|].
    destruct (Hstep T s) as (s' & Hs' & HP'); [lia|done|].
    exists s'. split; [|done]. unfold offsets in *.
    rewrite seq_S, map_app, foldM_app, Hs. simpl. by rewrite Hs'.
Qed.

Lemma int_of_size_small (n : nat) :
  Z.of_nat n < 2 ^ 31 → int_of_size n = Z.of_nat n.
Proof.
  intros Hn. unfold int_of_size. rewrite Z.mod_small; lia.
Qed.

Lemma range3_offsets (n : nat) :
  (n mod 3 = 0)%nat → range3 (Z.of_nat n) = offsets (n / 3).
Proof.
  intros Hn. unfold range3, offsets. do 2 f_equal.
  apply Nat.Div0.div_exact in Hn.
  assert (Hq : (Z.of_nat n + 2) / 3 = Z.of_nat (n / 3)).
  { symmetry. apply Z.div_unique with 2; lia. }
  rewrite Hq. apply Nat2Z.id.
Qed.

Lemma face_offsets (m : Model) :
  mesh_inv m → fits_int m →
  range3 (int_of_size (length (m_indices m)))
  = offsets (length (m_indices m) / 3).
Proof.
  intros [_ Hmod] Hfit. rewrite int_of_size_small by done.
  by apply range3_offsets.
Qed.

(** ** Triplets *)

Lemma triangles_lookup (ixs : list GLuint) (t : nat) (a b c : GLuint) :
  triangles ixs !! t = Some (a, b, c)
  ↔ ixs !! (3 * t)%nat = Some a ∧ ixs !! (3 * t + 1)%nat = Some b
    ∧ ixs !! (3 * t + 2)%nat = Some c.
Proof.
  revert ixs. induction t as [|t IH]; intros ixs.
  - destruct ixs as [|a' [|b' [|c' r]]]; simpl;
      try (split; [done | intros (? & ? & ?); done]).
    split; [intros [= -> -> ->]; done | intros ([= ->] & [= ->] & [= ->]); done].
  - destruct ixs as [|a' [|b' [|c' r]]];
      try (split; [done | intros (? & ? & ?); done]).
    + split; [done|]. intros (_ & _ & Hc).
      replace (3 * S t + 2)%nat with (S (S (3 * t + 3))) in Hc by lia. done.
    + change (triangles (a' :: b' :: c' :: r)) with ((a', b', c') :: triangles r).
      replace (3 * S t)%nat with (S (S (S (3 * t)))) by lia.
      replace (S (S (S (3 * t))) + 1)%nat with (S (S (S (3 * t + 1)))) by lia.
      replace (S (S (S (3 * t))) + 2)%nat with (S (S (S (3 * t + 2)))) by lia.
      simpl. apply IH.
Qed.

Lemma triangles_length (ixs : list GLuint) :
  length (triangles ixs) = (length ixs / 3)%nat.
Proof.
  remember (length ixs) as n eqn:Hn. revert ixs Hn.
  induction n as [n IH] using lt_wf_ind. intros ixs ->.
  destruct ixs as [|a [|b [|c r]]]; try reflexivity.
  change (triangles (a :: b :: c :: r)) with ((a, b, c) :: triangles r).
  simpl length. rewrite (IH (length r)) by (simpl; lia || done).
  change (S (S (S (length r)))) with (3 + length r)%nat.
  replace (3 + length r)%nat with (length r + 1 * 3)%nat by lia.
  rewrite Nat.div_add by lia. lia.
Qed.

Lemma triangles_elem (ixs : list GLuint) (a b c : GLuint) :
  (a, b, c) ∈ triangles ixs → a ∈ ixs ∧ b ∈ ixs ∧ c ∈ ixs.
Proof.
  intros (t & Ht)%list_elem_of_lookup.
  apply triangles_lookup in Ht as (Ha & Hb & Hc).
  split; [|split]; by eapply list_elem_of_lookup_2.
Qed.

(** ** Scattering a contribution over the three corners *)

Lemma map_fmap {A B} (f : A → B) (l : list A) : map f l = f <$> l.
Proof. induction l as [|a l IH]; [done|]. simpl. by rewrite IH. Qed.

Lemma alter_bump {A} (f : A → A) (i : GLuint) (l : list A) (k : nat) :
  alter f (Z.to_nat i) l !! k = bump f i k <$> l !! k.
Proof.
  unfold bump. destruct (decide (Z.to_nat i = k)) as [<-|Hne].
  - apply list_lookup_alter_eq.
  - rewrite list_lookup_alter_ne by done. by destruct (l !! k).
Qed.

Lemma scatter_lookup {A} (f : A → A) (i1 i2 i3 : GLuint) (l : list A)
    (k : nat) :
  alter f (Z.to_nat i3) (alter f (Z.to_nat i2) (alter f (Z.to_nat i1) l)) !! k
  = (λ x, bump f i3 k (bump f i2 k (bump f i1 k x))) <$> l !! k.
Proof. rewrite !alter_bump. by destruct (l !! k). Qed.

Lemma accumulate_snoc {A} (vs : list Vertex)
    (contrib : Vertex → Vertex → Vertex → A → A)
    (tris : list (GLuint * GLuint * GLuint)) (i1 i2 i3 : GLuint)
    (v1 v2 v3 : Vertex) (k : nat) (x0 : A) :
  vs !! Z.to_nat i1 = Some v1 → vs !! Z.to_nat i2 = Some v2 →
  vs !! Z.to_nat i3 = Some v3 →
  accumulate vs contrib (tris ++ [(i1, i2, i3)]) k x0
  = bump (contrib v1 v2 v3) i3 k
      (bump (contrib v1 v2 v3) i2 k
         (bump (contrib v1 v2 v3) i1 k (accumulate vs contrib tris k x0))).
Proof.
  intros E1 E2 E3. unfold accumulate. rewrite fold_left_app. simpl.
  by rewrite E1, E2, E3.
Qed.

Lemma accumulate_untouched {A} (vs : list Vertex)
    (contrib : Vertex → Vertex → Vertex → A → A)
    (tris : list (GLuint * GLuint * GLuint)) (k : nat) (x0 : A) :
  (∀ a b c, (a, b, c) ∈ tris →
            Z.to_nat a ≠ k ∧ Z.to_nat b ≠ k ∧ Z.to_nat c ≠ k) →
  accumulate vs contrib tris k x0 = x0.
Proof.
  unfold accumulate. revert x0.
  induction tris as [|[[a b] c] tris IH]; intros x0 Hk; simpl; [done|].
  destruct (Hk a b c) as (Ha & Hb & Hc); [left|].
  assert (Hrest : ∀ a b c, (a, b, c) ∈ tris →
            Z.to_nat a ≠ k ∧ Z.to_nat b ≠ k ∧ Z.to_nat c ≠ k).
  { intros. apply Hk. by right. }
  destruct (vs !! Z.to_nat a), (vs !! Z.to_nat b), (vs !! Z.to_nat c);
    unfold bump; rewrite ?decide_False by done; by apply IH.
Qed.

(** The three corners of face [t] of a mesh that satisfies the invariant. *)
Lemma face_corners (vs : list Vertex) (ixs : list GLuint) (t : nat) :
  Forall (λ i, 0 ≤ i < Z.of_nat (length vs)) ixs →
  (length ixs mod 3 = 0)%nat → (t < length ixs / 3)%nat →
  ∃ i1 i2 i3 v1 v2 v3,
    triangles ixs !! t = Some (i1, i2, i3)
    ∧ at_ ixs (3 * Z.of_nat t + 0) = Ok i1
    ∧ at_ ixs (3 * Z.of_nat t + 1) = Ok i2
    ∧ at_ ixs (3 * Z.of_nat t + 2) = Ok i3
    ∧ 0 ≤ i1 ∧ 0 ≤ i2 ∧ 0 ≤ i3
    ∧ vs !! Z.to_nat i1 = Some v1 ∧ vs !! Z.to_nat i2 = Some v2
    ∧ vs !! Z.to_nat i3 = Some v3.
Proof.
  intros Hrange Hmod Ht.
  destruct (lookup_lt_is_Some_2 (triangles ixs) t) as ([[i1 i2] i3] & Htri).
  { by rewrite triangles_length. }
  pose proof Htri as (E1 & E2 & E3)%triangles_lookup.
  assert (Hin : ∀ j i, ixs !! j = Some i →
                       0 ≤ i ∧ ∃ v, vs !! Z.to_nat i = Some v).
  { intros j i Hj. pose proof (Forall_lookup_1 _ _ _ _ Hrange Hj) as Hi.
    simpl in Hi. split; [lia|]. apply lookup_lt_is_Some_2. lia. }
  destruct (Hin _ _ E1) as (? & v1 & ?), (Hin _ _ E2) as (? & v2 & ?),
    (Hin _ _ E3) as (? & v3 & ?).
  exists i1, i2, i3, v1, v2, v3.
  split; [done|]. repeat split; try done.
  - apply at_Ok. split; [lia|]. by replace (Z.to_nat _) with (3 * t)%nat by lia.
  - apply at_Ok. split; [lia|]. by replace (Z.to_nat _) with (3 * t + 1)%nat by lia.
  - apply at_Ok. split; [lia|]. by replace (Z.to_nat _) with (3 * t + 2)%nat by lia.
Qed.

(** ** [computeNormals] *)

Lemma bump_set_normal (n : vec3) (i : GLuint) (k : nat) (v : Vertex)
    (acc : vec3) :
  bump (λ u, set_normal u (glm.add3 (normal u) n)) i k (set_normal v acc)
  = set_normal v (bump (λ x, glm.add3 x n) i k acc).
Proof. unfold bump. by case_decide. Qed.

Lemma face_normal_set_normal (a b c : Vertex) (na nb nc : vec3) :
  face_normal (set_normal a na) (set_normal b nb) (set_normal c nc)
  = face_normal a b c.
Proof. reflexivity. Qed.

Lemma normals_loop (V : list Vertex) (ixs : list GLuint) :
  Forall (λ i, 0 ≤ i < Z.of_nat (length V)) ixs →
  (length ixs mod 3 = 0)%nat →
  ∃ vs, foldM (normals_face ixs) (offsets (length ixs / 3))
          ((λ vertex, set_normal vertex glm.zero3) <$> V) = Ok vs
        ∧ length vs = length V
        ∧ ∀ k v, V !! k = Some v →
                 vs !! k = Some (set_normal v (accumulated_normal V ixs k)).
Proof.
  intros Hrange Hmod.
  set (contrib := λ a b c acc, glm.add3 acc (face_normal a b c)).
  destruct (face_loop (normals_face ixs)
              (λ t vs, length vs = length V ∧ ∀ k v, V !! k = Some v →
                 vs !! k = Some (set_normal v
                   (accumulate V contrib (take t (triangles ixs)) k glm.zero3)))
              (length ixs / 3)
              ((λ vertex, set_normal vertex glm.zero3) <$> V))
    as (vs & Hvs & Hlen & HP).
  - split; [apply length_fmap|].
    intros k v Hk. by rewrite list_lookup_fmap, Hk.
  - intros t vs Ht [Hlen HP].
    destruct (face_corners V ixs t Hrange Hmod Ht)
      as (i1 & i2 & i3 & v1 & v2 & v3 & Htri & A1 & A2 & A3
          & ? & ? & ? & E1 & E2 & E3).
    unfold normals_face. rewrite A1, A2, A3. simpl.
    rewrite (proj2 (at_Ok vs i1 _) (conj H (HP _ _ E1))).
    rewrite (proj2 (at_Ok vs i2 _) (conj H0 (HP _ _ E2))).
    rewrite (proj2 (at_Ok vs i3 _) (conj H1 (HP _ _ E3))). simpl.
    eexists. split; [done|]. unfold add_normal.
    split; [by rewrite !length_alter|]. intros k v Hk.
    rewrite scatter_lookup, (HP k v Hk). simpl.
    rewrite !bump_set_normal. do 2 f_equal.
    rewrite face_normal_set_normal.
    erewrite take_S_r by done. by erewrite accumulate_snoc.
  - exists vs. split; [done|]. split; [done|].
    intros k v Hk. rewrite (HP k v Hk).
    unfold accumulated_normal. rewrite take_ge; [done|].
    rewrite triangles_length. lia.
Qed.

Lemma computeNormals_spec (m : Model) :
  mesh_inv m → fits_int m →
  ∃ vs, computeNormals m = Ok (with_hasNormals true (with_vertices vs m))
        ∧ length vs = length (m_vertices m)
        ∧ ∀ k v, m_vertices m !! k = Some v →
            vs !! k = Some (set_normal v (glm.normalize
                        (accumulated_normal (m_vertices m) (m_indices m) k))).
Proof.
  intros Hinv Hfit. unfold computeNormals.
  rewrite face_offsets, map_fmap by done. destruct Hinv as [Hrange Hmod].
  destruct (normals_loop _ _ Hrange Hmod) as (vs & -> & Hlen & Hvs). simpl.
  eexists. split; [done|]. rewrite map_fmap.
  split; [by rewrite length_fmap|].
  intros k v Hk. by rewrite list_lookup_fmap, (Hvs k v Hk).
Qed.

(** ** [computeTangents] *)

Arguments face_basis : simpl never.
Arguments orthogonalize : simpl never.

Lemma add_bitangent_alter (i : GLuint) (b : vec3) (bs : list vec3) :
  0 ≤ i → (Z.to_nat i < length bs)%nat →
  add_bitangent i b bs
  = Ok (alter (λ x, glm.add3 x b) (Z.to_nat i) bs).
Proof.
  intros Hi Hlt. unfold add_bitangent.
  destruct (lookup_lt_is_Some_2 bs (Z.to_nat i) Hlt) as (old & Hold).
  rewrite (proj2 (at_Ok bs i old) (conj Hi Hold)). simpl. f_equal.
  rewrite list_insert_alter. apply list_alter_ext; [|done].
  intros x Hx. congruence.
Qed.

Lemma bump_set_tangent (t : vec4) (i : GLuint) (k : nat) (v : Vertex)
    (acc : vec4) :
  bump (λ u, set_tangent u (glm.add4 (tangent u) t)) i k (set_tangent v acc)
  = set_tangent v (bump (λ x, glm.add4 x t) i k acc).
Proof. unfold bump. by case_decide. Qed.

Lemma face_basis_set_tangent (a b c : Vertex) (ta tb tc : vec4) :
  face_basis (set_tangent a ta) (set_tangent b tb) (set_tangent c tc)
  = face_basis a b c.
Proof. reflexivity. Qed.

Lemma tangents_loop (V : list Vertex) (ixs : list GLuint) :
  Forall (λ i, 0 ≤ i < Z.of_nat (length V)) ixs →
  (length ixs mod 3 = 0)%nat →
  ∃ vs bs, foldM (tangents_face ixs) (offsets (length ixs / 3))
             (V, replicate (length V) glm.zero3) = Ok (vs, bs)
        ∧ length vs = length V ∧ length bs = length V
        ∧ ∀ k v, V !! k = Some v →
            vs !! k = Some (set_tangent v
                              (accumulated_tangent V ixs k (tangent v)))
            ∧ bs !! k = Some (accumulated_bitangent V ixs k).
Proof.
  intros Hrange Hmod.
  set (cT := λ v1 v2 v3 acc, glm.add4 acc (fst (face_basis v1 v2 v3))).
  set (cB := λ v1 v2 v3 acc, glm.add3 acc (snd (face_basis v1 v2 v3))).
  destruct (face_loop (tangents_face ixs)
              (λ t st, length (fst st) = length V
                 ∧ length (snd st) = length V
                 ∧ ∀ k v, V !! k = Some v →
                     fst st !! k = Some (set_tangent v
                       (accumulate V cT (take t (triangles ixs)) k (tangent v)))
                     ∧ snd st !! k = Some
                       (accumulate V cB (take t (triangles ixs)) k glm.zero3))
              (length ixs / 3) (V, replicate (length V) glm.zero3))
    as ([vs bs] & Hvs & Hlv & Hlb & HP).
  - simpl. split; [done|]. split; [apply length_replicate|].
    intros k v Hk. split; [by destruct v|].
    apply lookup_replicate_2. by apply lookup_lt_Some in Hk.
  - intros t [vs bs] Ht (Hlv & Hlb & HP). simpl in Hlv, Hlb, HP.
    destruct (face_corners V ixs t Hrange Hmod Ht)
      as (i1 & i2 & i3 & v1 & v2 & v3 & Htri & A1 & A2 & A3
          & ? & ? & ? & E1 & E2 & E3).
    unfold tangents_face. rewrite A1, A2, A3. cbn [mbind result_bind].
    rewrite (proj2 (at_Ok vs i1 _) (conj H (proj1 (HP _ _ E1)))).
    rewrite (proj2 (at_Ok vs i2 _) (conj H0 (proj1 (HP _ _ E2)))).
    rewrite (proj2 (at_Ok vs i3 _) (conj H1 (proj1 (HP _ _ E3)))).
    cbn [mbind result_bind].
    rewrite face_basis_set_tangent.
    destruct (face_basis v1 v2 v3) as [tangent bitangent] eqn:Eb.
    apply lookup_lt_Some in E1 as L1, E2 as L2, E3 as L3.
    rewrite add_bitangent_alter by (done || lia). cbn [mbind result_bind].
    rewrite add_bitangent_alter by (rewrite ?length_alter; done || lia).
    cbn [mbind result_bind].
    rewrite add_bitangent_alter by (rewrite ?length_alter; done || lia).
    cbn [mbind result_bind].
    eexists. split; [done|]. unfold add_tangent. cbn [fst snd].
    split; [by rewrite !length_alter|]. split; [by rewrite !length_alter|].
    intros k v Hk. destruct (HP k v Hk) as [HT HB].
    rewrite !scatter_lookup, HT, HB. cbn [fmap option_fmap option_map].
    rewrite !bump_set_tangent.
    erewrite take_S_r by done.
    erewrite !accumulate_snoc by done. unfold cT, cB. by rewrite Eb.
  - exists vs, bs. split; [done|]. split; [done|]. split; [done|].
    intros k v Hk. destruct (HP k v Hk) as [HT HB]. cbn [fst snd] in HT, HB.
    rewrite HT, HB. unfold accumulated_tangent, accumulated_bitangent.
    rewrite take_ge; [done|]. rewrite triangles_length. lia.
Qed.

Lemma orthogonalize_from_spec (i : nat) (bs : list vec3) (vs : list Vertex) :
  (i + length vs ≤ length bs)%nat →
  ∃ out, orthogonalize_from i bs vs = Ok out
         ∧ length out = length vs
         ∧ ∀ k v b, vs !! k = Some v → bs !! (i + k)%nat = Some b →
                    out !! k = Some (orthogonalize v b).
Proof.
  revert i. induction vs as [|v vs IH]; intros i Hlen; simpl in *.
  - exists []. done.
  - destruct (lookup_lt_is_Some_2 bs i) as (b & Hb); [lia|].
    rewrite (at_of_nat bs i b Hb). simpl.
    destruct (IH (S i)) as (out & -> & Hlo & Hout); [lia|]. simpl.
    eexists. split; [done|]. split; [simpl; by rewrite Hlo|].
    intros [|k] v' b' Hv' Hb'; simpl in *.
    + rewrite Nat.add_0_r in Hb'. congruence.
    + apply (Hout k v' b' Hv'). by rewrite <- Nat.add_succ_r.
Qed.

Lemma computeTangents_spec (m : Model) :
  mesh_inv m → fits_int m →
  ∃ vs, computeTangents m = Ok (with_vertices vs m)
        ∧ length vs = length (m_vertices m)
        ∧ ∀ k v, m_vertices m !! k = Some v →
            vs !! k = Some (orthogonalize
              (set_tangent v (accumulated_tangent (m_vertices m)
                                (m_indices m) k (tangent v)))
              (accumulated_bitangent (m_vertices m) (m_indices m) k)).
Proof.
  intros Hinv Hfit. unfold computeTangents.
  rewrite face_offsets by done. destruct Hinv as [Hrange Hmod].
  destruct (tangents_loop _ _ Hrange Hmod)
    as (vs & bs & -> & Hlv & Hlb & HP). simpl.
  destruct (orthogonalize_from_spec 0 bs vs) as (out & -> & Hlo & Hout);
    [simpl; lia|]. simpl.
  exists out. split; [done|]. split; [congruence|].
  intros k v Hk. destruct (HP k v Hk) as [HT HB]. by apply Hout.
Qed.

(** ** What the three mesh operations leave alone *)

Lemma same_mesh_inv (m m' : Model) :
  same_mesh m m' → mesh_inv m → mesh_inv m'.
Proof.
  intros [Hi Hl] [Hr Hm]. unfold mesh_inv, indices_in_range.
  by rewrite Hi, Hl.
Qed.

Lemma same_mesh_fits (m m' : Model) :
  same_mesh m m' → fits_int m → fits_int m'.
Proof. intros [Hi _]. unfold fits_int. by rewrite Hi. Qed.

Lemma standardize_frame (m : Model) :
  ∃ vs, standardize m = with_vertices vs m
        ∧ length vs = length (m_vertices m).
Proof.
  unfold standardize. destruct (get_bounds (m_vertices m)) as [mx mn].
  eexists. split; [done|]. by rewrite map_fmap, length_fmap.
Qed.

Lemma normals_face_length (ixs : list GLuint) (vs vs' : list Vertex)
    (offset : Z) :
  normals_face ixs vs offset = Ok vs' → length vs' = length vs.
Proof.
  unfold normals_face. intros Hf. invert_binds. injection Hf as <-.
  unfold add_normal. by rewrite !length_alter.
Qed.

Lemma computeNormals_frame (m m' : Model) :
  computeNormals m = Ok m' →
  ∃ vs, m' = with_hasNormals true (with_vertices vs m)
        ∧ length vs = length (m_vertices m).
Proof.
  unfold computeNormals. intros Hc.
  apply bind_Ok_inv in Hc as (vs & Hvs & [= <-]).
  eexists. split; [done|]. rewrite !map_fmap, length_fmap.
  apply (foldM_invariant _ (λ l, length l = length (m_vertices m)) _ _ _
           (λ b a b' Hf Hb, eq_trans (normals_face_length _ _ _ _ Hf) Hb))
    in Hvs; [done|].
  by rewrite map_fmap, length_fmap.
Qed.

Lemma add_bitangent_length (i : GLuint) (b : vec3) (bs bs' : list vec3) :
  add_bitangent i b bs = Ok bs' → length bs' = length bs.
Proof.
  unfold add_bitangent. intros Hf. invert_binds. injection Hf as <-.
  apply length_insert.
Qed.

Lemma tangents_face_length (ixs : list GLuint)
    (st st' : list Vertex * list vec3) (offset : Z) :
  tangents_face ixs st offset = Ok st' → length (fst st') = length (fst st).
Proof.
  unfold tangents_face. destruct st as [vs bs]. intros Hf. invert_binds.
  destruct (face_basis _ _ _) as [tangent bitangent].
  invert_binds. injection Hf as <-.
  unfold add_tangent. simpl. by rewrite !length_alter.
Qed.

Lemma orthogonalize_from_length (i : nat) (bs : list vec3)
    (vs out : list Vertex) :
  orthogonalize_from i bs vs = Ok out → length out = length vs.
Proof.
  revert i out. induction vs as [|v vs IH]; intros i out; simpl.
  - by intros [= <-].
  - intros Hf. invert_binds. injection Hf as <-. simpl. f_equal. eauto.
Qed.

Lemma computeTangents_frame (m m' : Model) :
  computeTangents m = Ok m' →
  ∃ vs, m' = with_vertices vs m ∧ length vs = length (m_vertices m).
Proof.
  unfold computeTangents. intros Hc.
  apply bind_Ok_inv in Hc as (st & Hst & Hc).
  apply bind_Ok_inv in Hc as (vs & Hvs & [= <-]).
  eexists. split; [done|].
  apply orthogonalize_from_length in Hvs. rewrite Hvs.
  apply (foldM_invariant _ (λ s, length (fst s) = length (m_vertices m)) _ _ _
           (λ b a b' Hf Hb, eq_trans (tangents_face_length _ _ _ _ Hf) Hb))
    in Hst; done.
Qed.

Lemma with_vertices_same_mesh (vs : list Vertex) (m : Model) :
  length vs = length (m_vertices m) → same_mesh m (with_vertices vs m).
Proof. by split. Qed.

Lemma standardize_same_mesh (m : Model) : same_mesh m (standardize m).
Proof.
  destruct (standardize_frame m) as (vs & -> & Hl).
  by apply with_vertices_same_mesh.
Qed.

Lemma computeNormals_same_mesh (m m' : Model) :
  computeNormals m = Ok m' → same_mesh m m'.
Proof. intros (vs & -> & Hl)%computeNormals_frame. by split. Qed.

Lemma computeTangents_same_mesh (m m' : Model) :
  computeTangents m = Ok m' → same_mesh m m'.
Proof. intros (vs & -> & Hl)%computeTangents_frame. by split. Qed.

Lemma build_model_mesh (attrib : attrib_t) (shapes : list shape_t)
    (m0 m : Model) :
  build_model attrib shapes m0 = Ok m →
  indices_in_range m ∧ length (m_indices m) = length (corners shapes)
  ∧ m_hasNormals m = existsb supplies_normal (corners shapes)
  ∧ m_hasTexCoords m = existsb supplies_texcoord (corners shapes)
  ∧ same_surface m0 m.
Proof.
  unfold build_model. intros Hb.
  apply bind_Ok_inv in Hb as (vs & Hvs & [= <-]).
  split; [apply dedup_in_range|].
  split; [simpl; by rewrite dedup_length, (mapR_length _ _ _ Hvs)|].
  by repeat split.
Qed.

(** ** Claims on the mesh operations *)

(** C2.  On a mesh that satisfies the invariant (with an index count that
    fits an [int]) [computeNormals] returns; it leaves indices, vertex
    count and every vertex field but the normal alone; the normal of vertex
    [k] is the normalization of what is accumulated, starting from zero,
    by adding for every consecutive index triplet (a, b, c), once per
    corner that is [k], the unnormalized cross product of
    [b.position - a.position] and [c.position - b.position]; and a vertex
    no index refers to gets the normalization of the zero vector, which is
    NaN in every component. *)
Theorem normal_computation (m : Model) :
  mesh_inv m → fits_int m →
  ∃ m', computeNormals m = Ok m'
    ∧ same_mesh m m'
    ∧ (∀ k v, m_vertices m !! k = Some v →
         m_vertices m' !! k
         = Some (set_normal v
                   (glm.normalize
                      (accumulated_normal (m_vertices m) (m_indices m) k))))
    ∧ (∀ a b c, face_normal a b c
                = glm.cross (glm.sub3 (position b) (position a))
                            (glm.sub3 (position c) (position b)))
    ∧ (∀ k v', m_vertices m' !! k = Some v' → Z.of_nat k ∉ m_indices m →
         accumulated_normal (m_vertices m) (m_indices m) k = glm.zero3
         ∧ normal v' = Vec3 F32.nan F32.nan F32.nan).
Proof.
  intros Hinv Hfit.
  destruct (computeNormals_spec m Hinv Hfit) as (vs & Hc & Hlen & Hvs).
  eexists. split; [exact Hc|]. split; [by split|]. split; [exact Hvs|].
  split; [done|]. intros k v' Hk Hnot. simpl in Hk.
  assert (Hzero : accumulated_normal (m_vertices m) (m_indices m) k
                  = glm.zero3).
  { apply accumulate_untouched. intros a b c Htri.
    destruct Hinv as [Hrange _].
    apply triangles_elem in Htri as (Ha & Hb & Hc').
    unfold indices_in_range in Hrange. rewrite Forall_forall in Hrange.
    pose proof (Hrange a Ha). pose proof (Hrange b Hb).
    pose proof (Hrange c Hc').
    repeat split; intros <-; apply Hnot;
      rewrite Z2Nat.id by lia; done. }
  split; [done|].
  destruct (lookup_lt_is_Some_2 (m_vertices m) k) as (v & Hv).
  { apply lookup_lt_Some in Hk. lia. }
  rewrite (Hvs k v Hv), Hzero in Hk. by injection Hk as <-.
Qed.



(** ** Material resolution and the load as a whole *)

Lemma loadDiffuseTexture_inv (w : World) (p : string) (m m' : Model) :
  loadDiffuseTexture w p m = Ok m' →
  (fs_exists w p = Ok false ∧ m' = m)
  ∨ (fs_exists w p = Ok true
     ∧ ∃ t, loadTexture w p = Ok t ∧ m' = with_diffuseTexture t m).
Proof.
  unfold loadDiffuseTexture. destruct (fs_exists w p) as [[|]|e]; simpl.
  - intros Hl. apply bind_Ok_inv in Hl as (t & Ht & [= <-]). right. eauto.
  - intros [= <-]. by left.
  - discriminate.
Qed.

Lemma loadNormalTexture_inv (w : World) (p : string) (m m' : Model) :
  loadNormalTexture w p m = Ok m' →
  (fs_exists w p = Ok false ∧ m' = m)
  ∨ (fs_exists w p = Ok true
     ∧ ∃ t, loadTexture w p = Ok t ∧ m' = with_normalTexture t m).
Proof.
  unfold loadNormalTexture. destruct (fs_exists w p) as [[|]|e]; simpl.
  - intros Hl. apply bind_Ok_inv in Hl as (t & Ht & [= <-]). right. eauto.
  - intros [= <-]. by left.
  - discriminate.
Qed.

Lemma loadDiffuseTexture_ok (w : World) (p : string) (m : Model) :
  texture_loads w p →
  ∃ t, loadDiffuseTexture w p m = Ok (with_diffuseTexture t m).
Proof.
  unfold loadDiffuseTexture. intros [E|(E & t & Ht)]; rewrite E; simpl.
  - exists (m_diffuseTexture m). by destruct m.
  - rewrite Ht. by exists t.
Qed.

Lemma loadNormalTexture_ok (w : World) (p : string) (m : Model) :
  texture_loads w p →
  ∃ t, loadNormalTexture w p m = Ok (with_normalTexture t m).
Proof.
  unfold loadNormalTexture. intros [E|(E & t & Ht)]; rewrite E; simpl.
  - exists (m_normalTexture m). by destruct m.
  - rewrite Ht. by exists t.
Qed.

(** A texture loader returns only when the file loads. *)
Lemma loadDiffuseTexture_loads (w : World) (p : string) (m : Model) :
  is_Ok (loadDiffuseTexture w p m) → texture_loads w p.
Proof.
  intros (m' & [[E _]|(E & t & Ht & _)]%loadDiffuseTexture_inv);
    [by left | right; split; [done | by exists t]].
Qed.

Lemma loadNormalTexture_loads (w : World) (p : string) (m : Model) :
  is_Ok (loadNormalTexture w p m) → texture_loads w p.
Proof.
  intros (m' & [[E _]|(E & t & Ht & _)]%loadNormalTexture_inv);
    [by left | right; split; [done | by exists t]].
Qed.

(** The colours a material list resolves to. *)
Lemma resolveMaterial_inv (w : World) (basePath : string)
    (materials : list material_t) (m m' : Model) :
  resolveMaterial w basePath materials m = Ok m' →
  same_geometry m m'
  ∧ match materials with
    | [] =>
        m' = with_material (Vec4 lit.f0_1 lit.f0_1 lit.f0_1 F32.one)
               (Vec4 lit.f0_7 lit.f0_7 lit.f0_7 F32.one)
               (Vec4 F32.one F32.one F32.one F32.one) lit.f25 m
    | mat :: _ =>
        m_Ka m' = Vec4 (c0 (ambient mat)) (c1 (ambient mat))
                       (c2 (ambient mat)) F32.one
        ∧ m_Kd m' = Vec4 (c0 (diffuse mat)) (c1 (diffuse mat))
                         (c2 (diffuse mat)) F32.one
        ∧ m_Ks m' = Vec4 (c0 (specular mat)) (c1 (specular mat))
                         (c2 (specular mat)) F32.one
        ∧ m_shininess m' = shininess mat
        ∧ (fs_exists w (basePath +:+ diffuse_texname mat) = Ok false →
           m_diffuseTexture m' = m_diffuseTexture m)
    end.
Proof.
  unfold resolveMaterial. destruct materials as [|mat rest].
  - intros [= <-]. by repeat split.
  - intros Hr. apply bind_Ok_inv in Hr as (m1 & Hd & Hn).
    assert (Hm1 : ∃ t, m1 = with_diffuseTexture t
                     (with_material
                        (Vec4 (c0 (ambient mat)) (c1 (ambient mat))
                              (c2 (ambient mat)) F32.one)
                        (Vec4 (c0 (diffuse mat)) (c1 (diffuse mat))
                              (c2 (diffuse mat)) F32.one)
                        (Vec4 (c0 (specular mat)) (c1 (specular mat))
                              (c2 (specular mat)) F32.one)
                        (shininess mat) m)
                   ∧ (fs_exists w (basePath +:+ diffuse_texname mat)
                      = Ok false → t = m_diffuseTexture m)).
    { destruct (empty (diffuse_texname mat)); simpl in Hd.
      - injection Hd as <-. exists (m_diffuseTexture m).
        split; [destruct m; reflexivity | done].
      - apply loadDiffuseTexture_inv in Hd as [[E ->]|(E & t & _ & ->)].
        + exists (m_diffuseTexture m).
          split; [destruct m; reflexivity | done].
        + exists t. split; [done | congruence]. }
    destruct Hm1 as (t & -> & Ht).
    assert (Hm' : ∃ t', m' = with_normalTexture t' (with_diffuseTexture t
                     (with_material
                        (Vec4 (c0 (ambient mat)) (c1 (ambient mat))
                              (c2 (ambient mat)) F32.one)
                        (Vec4 (c0 (diffuse mat)) (c1 (diffuse mat))
                              (c2 (diffuse mat)) F32.one)
                        (Vec4 (c0 (specular mat)) (c1 (specular mat))
                              (c2 (specular mat)) F32.one)
                        (shininess mat) m))).
    { destruct (empty (normal_texname mat)); simpl in Hn;
        [destruct (empty (bump_texname mat)); simpl in Hn|].
      - injection Hn as <-. exists (m_normalTexture m). reflexivity.
      - apply loadNormalTexture_inv in Hn as [[E ->]|(E & t' & _ & ->)];
          [exists (m_normalTexture m) | exists t']; reflexivity.
      - apply loadNormalTexture_inv in Hn as [[E ->]|(E & t' & _ & ->)];
          [exists (m_normalTexture m) | exists t']; reflexivity. }
    destruct Hm' as (t' & ->). by repeat split.
Qed.

Lemma resolveMaterial_ok (w : World) (basePath : string)
    (materials : list material_t) (m : Model) :
  textures_load w basePath materials →
  is_Ok (resolveMaterial w basePath materials m).
Proof.
  unfold resolveMaterial, textures_load, normal_map_name, is_Ok.
  destruct materials as [|mat rest]; [eauto|]. intros [Hd Hn].
  set (m1 := with_material _ _ _ _ m).
  assert (∃ m2, (if negb (empty (diffuse_texname mat))
                 then loadDiffuseTexture w (basePath +:+ diffuse_texname mat) m1
                 else Ok m1) = Ok m2) as (m2 & ->).
  { destruct (empty (diffuse_texname mat)); simpl; [eauto|].
    destruct (loadDiffuseTexture_ok w (basePath +:+ diffuse_texname mat)
                m1 (Hd eq_refl)) as (t & ->). eauto. }
  simpl.
  destruct (empty (normal_texname mat)) eqn:En; simpl in *.
  - destruct (empty (bump_texname mat)) eqn:Eb; simpl; [eauto|].
    destruct (loadNormalTexture_ok w (basePath +:+ bump_texname mat)
                m2 (Hn eq_refl)) as (t & ->). eauto.
  - destruct (loadNormalTexture_ok w (basePath +:+ normal_texname mat)
                m2 (Hn En)) as (t & ->). eauto.
Qed.

Lemma resolveMaterial_loads (w : World) (basePath : string)
    (materials : list material_t) (m : Model) :
  is_Ok (resolveMaterial w basePath materials m) →
  textures_load w basePath materials.
Proof.
  unfold resolveMaterial, textures_load, normal_map_name.
  destruct materials as [|mat rest]; [done|].
  intros (m' & Hr). apply bind_Ok_inv in Hr as (m1 & Hd & Hn). split.
  - intros E. rewrite E in Hd. simpl in Hd.
    eapply loadDiffuseTexture_loads. by eexists.
  - destruct (empty (normal_texname mat)) eqn:En; simpl in *; intros E.
    + rewrite E in Hn. simpl in Hn.
      eapply loadNormalTexture_loads. by eexists.
    + eapply loadNormalTexture_loads. by eexists.
Qed.

Lemma run_inv (s : Step) (f : Model → result Model)
    (st st' : Model * list Step) :
  run s f st = Ok st' → ∃ m, f (fst st) = Ok m ∧ st' = (m, snd st ++ [s]).
Proof.
  unfold run. intros Hr. apply bind_Ok_inv in Hr as (m & Hm & [= <-]). eauto.
Qed.

Lemma with_vertices_id (m : Model) : with_vertices (m_vertices m) m = m.
Proof. by destruct m. Qed.

Lemma with_hasNormals_id (m : Model) (b : bool) :
  m_hasNormals m = b → with_hasNormals b m = m.
Proof. intros <-. by destruct m. Qed.

Section load_facts.
Context `{H3 : Hash vec3} `{H2 : Hash vec2}.

(** Anatomy of a load that returned. *)
Lemma loadFromFile_inv (bc : positive) (w : World) (path : string)
    (flag : bool) (m0 m : Model) (log : list Step) :
  loadFromFile bc w path flag m0 = Ok (m, log) →
  Valid (load_reader w path) = true
  ∧ ∃ m1 m2 vs,
      build_model (GetAttrib (load_reader w path))
        (GetShapes (load_reader w path)) m0 = Ok m1
      ∧ resolveMaterial w (load_basePath w path)
          (GetMaterials (load_reader w path)) m1 = Ok m2
      ∧ m = with_hasNormals true (with_vertices vs m2)
      ∧ length vs = length (m_vertices m2)
      ∧ log = expected_log flag (corners (GetShapes (load_reader w path))).
Proof.
  unfold loadFromFile. cbv zeta.
  destruct (Valid (load_reader w path)) eqn:EV; simpl;
    [|destruct (empty _); discriminate].
  intros Hl. split; [done|].
  apply bind_Ok_inv in Hl as (st1 & S1 & Hl).
  apply run_inv in S1 as (m1 & Hb & ->). simpl in Hb.
  rewrite buildVertexIndex_model in Hb.
  apply bind_Ok_inv in Hl as (st2 & S2 & Hl).
  apply run_inv in S2 as (m2 & Hr & ->). simpl in Hr.
  exists m1, m2.
  destruct (build_model_mesh _ _ _ _ Hb) as (_ & _ & HN & HT & _).
  destruct (resolveMaterial_inv _ _ _ _ _ Hr) as ((_ & _ & HN2 & HT2) & _).
  rewrite HN in HN2. rewrite HT in HT2. clear HN HT.
  unfold expected_log. simpl in Hl.
  apply bind_Ok_inv in Hl as (st3 & S3 & Hl).
  assert (∃ vs3, st3 = (with_vertices vs3 m2,
                        [BuildVertexIndex; ResolveMaterial]
                        ++ (if flag then [Standardize] else []))
                 ∧ length vs3 = length (m_vertices m2)) as (vs3 & -> & L3).
  { destruct flag.
    - apply run_inv in S3 as (m3 & [= <-] & ->). simpl.
      destruct (standardize_frame m2) as (vs3 & -> & L3). eauto.
    - injection S3 as <-. exists (m_vertices m2).
      by rewrite with_vertices_id. }
  apply bind_Ok_inv in Hl as (st4 & S4 & Hl).
  assert (∃ vs4, st4 = (with_hasNormals true (with_vertices vs4 m2),
                        [BuildVertexIndex; ResolveMaterial]
                        ++ (if flag then [Standardize] else [])
                        ++ (if existsb supplies_normal
                                 (corners (GetShapes (load_reader w path)))
                            then [] else [ComputeNormals]))
                 ∧ length vs4 = length (m_vertices m2)) as (vs4 & -> & L4).
  { simpl in S4. rewrite HN2 in S4.
    destruct (existsb supplies_normal _) eqn:EN; simpl in S4.
    - injection S4 as <-. exists vs3. split; [|done].
      rewrite app_nil_r. f_equal. symmetry. by apply with_hasNormals_id.
    - apply run_inv in S4 as (m4 & Hc & ->). simpl in Hc.
      apply computeNormals_frame in Hc as (vs4 & -> & L4).
      exists vs4. split; [|by rewrite L4]. simpl.
      rewrite <- ?app_assoc. reflexivity. }
  simpl in Hl. rewrite HT2 in Hl.
  apply bind_Ok_inv in Hl as (st5 & S5 & Hl).
  assert (∃ vs5, st5 = (with_hasNormals true (with_vertices vs5 m2),
                        [BuildVertexIndex; ResolveMaterial]
                        ++ (if flag then [Standardize] else [])
                        ++ (if existsb supplies_normal
                                 (corners (GetShapes (load_reader w path)))
                            then [] else [ComputeNormals])
                        ++ (if existsb supplies_texcoord
                                 (corners (GetShapes (load_reader w path)))
                            then [ComputeTangents] else []))
                 ∧ length vs5 = length (m_vertices m2)) as (vs5 & -> & L5).
  { destruct (existsb supplies_texcoord _) eqn:ET.
    - apply run_inv in S5 as (m5 & Hc & ->). simpl in Hc.
      apply computeTangents_frame in Hc as (vs5 & -> & L5).
      exists vs5. split; [|by rewrite L5]. simpl.
      rewrite <- ?app_assoc. reflexivity.
    - injection S5 as <-. exists vs4. split; [|done].
      by rewrite !app_nil_r. }
  apply run_inv in Hl as (m6 & [= <-] & [= -> ->]).
  exists vs5. simpl. split; [done|]. split; [done|]. split; [done|].
  split; [done|]. rewrite <- ?app_assoc. reflexivity.
Qed.

(** The same, as the composition of the steps: each conditional step
    is applied exactly when its condition holds. *)
Lemma loadFromFile_anatomy (bc : positive) (w : World) (path : string)
    (flag : bool) (m0 m : Model) (log : list Step) :
  loadFromFile bc w path flag m0 = Ok (m, log) →
  Valid (load_reader w path) = true
  ∧ ∃ m1 m2 m4,
      buildVertexIndex bc (GetAttrib (load_reader w path))
        (GetShapes (load_reader w path)) m0 = Ok m1
      ∧ resolveMaterial w (load_basePath w path)
          (GetMaterials (load_reader w path)) m1 = Ok m2
      ∧ (if m_hasNormals (if flag then standardize m2 else m2)
         then m4 = (if flag then standardize m2 else m2)
         else computeNormals (if flag then standardize m2 else m2) = Ok m4)
      ∧ (if m_hasTexCoords m4 then computeTangents m4 = Ok m else m = m4).
Proof.
  unfold loadFromFile. cbv zeta.
  destruct (Valid (load_reader w path)) eqn:EV; cbn [negb];
    [|destruct (negb (empty _)); discriminate].
  intros Hl. split; [done|].
  apply bind_Ok_inv in Hl as (st1 & S1 & Hl).
  apply run_inv in S1 as (m1 & Hb & ->). cbn [fst snd] in Hb.
  apply bind_Ok_inv in Hl as (st2 & S2 & Hl).
  apply run_inv in S2 as (m2 & Hr & ->). cbn [fst snd] in Hr.
  exists m1, m2.
  apply bind_Ok_inv in Hl as (st3 & S3 & Hl).
  assert (fst st3 = if flag then standardize m2 else m2) as E3.
  { destruct flag.
    - by apply run_inv in S3 as (m3 & [= <-] & ->).
    - by injection S3 as <-. }
  apply bind_Ok_inv in Hl as (st4 & S4 & Hl).
  exists (fst st4). rewrite <- E3. split; [done|]. split; [done|]. split.
  - destruct (m_hasNormals (fst st3)); cbn [negb] in S4.
    + by injection S4 as <-.
    + by apply run_inv in S4 as (m4 & Hc & ->).
  - apply bind_Ok_inv in Hl as (st5 & S5 & Hl).
    apply run_inv in Hl as (m6 & [= <-] & [= -> ->]).
    destruct (m_hasTexCoords (fst st4)).
    + by apply run_inv in S5 as (m5 & Hc & ->).
    + by injection S5 as <-.
Qed.
End load_facts.

Lemma run_stage (c : bool) (s : Step) (f : Model → result Model)
    (st : Model * list Step) :
  (∀ m, mesh_inv m → fits_int m → ∃ m', f m = Ok m' ∧ same_mesh m m') →
  mesh_inv (fst st) → fits_int (fst st) →
  ∃ st', (if c then run s f st else Ok st) = Ok st'
         ∧ mesh_inv (fst st') ∧ fits_int (fst st').
Proof.
  intros Hf Hinv Hfit. destruct c; [|by exists st].
  destruct (Hf _ Hinv Hfit) as (m' & Hm' & Hsame).
  exists (m', snd st ++ [s]). unfold run. rewrite Hm'. simpl.
  eauto using same_mesh_inv, same_mesh_fits.
Qed.

Lemma bind_is_Ok {A B} (r : result A) (k : A → result B) (a : A) :
  r = Ok a → is_Ok (k a) → is_Ok (r ≫= k).
Proof. by intros ->. Qed.

Section load_success.
Context `{H3 : Hash vec3} `{H2 : Hash vec2}.

(** A load of well-formed data returns. *)
Lemma loadFromFile_ok (bc : positive) (w : World) (path : string)
    (flag : bool) (m0 : Model) :
  Valid (load_reader w path) = true →
  is_Ok (mapR (assemble (GetAttrib (load_reader w path)))
           (corners (GetShapes (load_reader w path)))) →
  (length (corners (GetShapes (load_reader w path))) mod 3 = 0)%nat →
  Z.of_nat (length (corners (GetShapes (load_reader w path)))) < 2 ^ 31 →
  textures_load w (load_basePath w path)
    (GetMaterials (load_reader w path)) →
  is_Ok (loadFromFile bc w path flag m0).
Proof.
  intros EV (vs & Hvs) Hmod Hfit Hdec.
  unfold loadFromFile. cbv zeta. rewrite EV. cbn [negb].
  destruct (build_model (GetAttrib (load_reader w path))
              (GetShapes (load_reader w path)) m0) as [m1|e] eqn:Hb.
  2: { unfold build_model in Hb. rewrite Hvs in Hb. discriminate. }
  destruct (build_model_mesh _ _ _ _ Hb) as (Hrange & Hlen & _).
  destruct (resolveMaterial_ok w (load_basePath w path)
              (GetMaterials (load_reader w path)) m1 Hdec) as (m2 & Hr).
  destruct (resolveMaterial_inv _ _ _ _ _ Hr) as ((HV & HI & _) & _).
  assert (Hinv2 : mesh_inv m2).
  { unfold mesh_inv, indices_in_range. rewrite HV, HI, Hlen. done. }
  assert (Hfit2 : fits_int m2).
  { unfold fits_int. by rewrite HI, Hlen. }
  eapply bind_is_Ok.
  { unfold run. cbn [fst snd]. rewrite buildVertexIndex_model, Hb.
    reflexivity. }
  eapply bind_is_Ok.
  { unfold run. cbn [fst snd]. rewrite Hr. reflexivity. }
  destruct (run_stage flag Standardize (λ m, Ok (standardize m))
              (m2, [] ++ [BuildVertexIndex] ++ [ResolveMaterial]))
    as (st3 & S3 & Hinv3 & Hfit3); [|done|done|].
  { intros m _ _. eexists. split; [done|]. apply standardize_same_mesh. }
  eapply bind_is_Ok; [exact S3|].
  destruct (run_stage (negb (m_hasNormals (fst st3))) ComputeNormals
              computeNormals st3)
    as (st4 & S4 & Hinv4 & Hfit4); [|done|done|].
  { intros m Hi Hf. destruct (computeNormals_spec m Hi Hf) as (l & -> & ? & _).
    eexists. split; [done|]. by split. }
  eapply bind_is_Ok; [exact S4|].
  destruct (run_stage (m_hasTexCoords (fst st4)) ComputeTangents
              computeTangents st4)
    as (st5 & S5 & Hinv5 & Hfit5); [|done|done|].
  { intros m Hi Hf. destruct (computeTangents_spec m Hi Hf) as (l & -> & ? & _).
    eexists. split; [done|]. by split. }
  eapply bind_is_Ok; [exact S5|].
  unfold run, is_Ok. simpl. eauto.
Qed.
End load_success.

(** ** Claims on the build and on the load *)

(** C5.  Two runs of the build on the same parse give the same outcome:
    the same exception, or vertex sequences that are equal and index
    sequences that are equal, whatever the component hashes, the number of
    buckets of the table and the model's previous contents in each run. *)
Theorem build_deterministic (h3 h3' : Hash vec3) (h2 h2' : Hash vec2)
    (bc bc' : positive) (attrib : attrib_t) (shapes : list shape_t)
    (m0 m0' : Model) :
  match buildVertexIndex (H3:=h3) (H2:=h2) bc attrib shapes m0,
        buildVertexIndex (H3:=h3') (H2:=h2') bc' attrib shapes m0' with
  | Ok m, Ok m' =>
      m_vertices m = m_vertices m' ∧ m_indices m = m_indices m'
  | Throw e, Throw e' => e = e'
  | _, _ => False
  end.
Proof.
  rewrite !buildVertexIndex_model. unfold build_model.
  by destruct (mapR (assemble attrib) (corners shapes)).
Qed.

(** C6.  Whenever the build returns, every index is below the vertex count
    and there is one index per corner, so the mesh invariant holds when the
    corner count is a multiple of 3; [standardize], [computeNormals] and
    [computeTangents] leave the index sequence and the vertex count as they
    are, hence preserve the invariant; and on a mesh that satisfies it
    (with an index count that fits an [int]) the latter two return. *)
Theorem mesh_invariant :
  (∀ (h3 : Hash vec3) (h2 : Hash vec2) bc attrib shapes m0 m,
     buildVertexIndex (H3:=h3) (H2:=h2) bc attrib shapes m0 = Ok m →
     indices_in_range m
     ∧ length (m_indices m) = length (corners shapes)
     ∧ ((length (corners shapes) mod 3 = 0)%nat → mesh_inv m))
  ∧ (∀ m, same_mesh m (standardize m)
          ∧ (mesh_inv m → mesh_inv (standardize m)))
  ∧ (∀ m m', computeNormals m = Ok m' →
             same_mesh m m' ∧ (mesh_inv m → mesh_inv m'))
  ∧ (∀ m m', computeTangents m = Ok m' →
             same_mesh m m' ∧ (mesh_inv m → mesh_inv m'))
  ∧ (∀ m, mesh_inv m → fits_int m →
          is_Ok (computeNormals m) ∧ is_Ok (computeTangents m)).
Proof.
  split; [|split; [|split; [|split]]].
  - intros h3 h2 bc attrib shapes m0 m Hb.
    rewrite buildVertexIndex_model in Hb.
    destruct (build_model_mesh _ _ _ _ Hb) as (Hr & Hl & _).
    split; [done|]. split; [done|]. intros Hmod. split; [done|].
    by rewrite Hl.
  - intros m. pose proof (standardize_same_mesh m).
    eauto using same_mesh_inv.
  - intros m m' Hs%computeNormals_same_mesh. eauto using same_mesh_inv.
  - intros m m' Hs%computeTangents_same_mesh. eauto using same_mesh_inv.
  - intros m Hinv Hfit.
    destruct (computeNormals_spec m Hinv Hfit) as (vs & Hn & _).
    destruct (computeTangents_spec m Hinv Hfit) as (vs' & Ht & _).
    unfold is_Ok. eauto.
Qed.

Section load_claims.
Context `{H3 : Hash vec3} `{H2 : Hash vec2}.

(** What the model is after each step of a load that returned, with
    the has-normals and has-texture-coordinates conditions read off
    the corners. *)
Lemma loadFromFile_steps (bc : positive) (w : World) (path : string)
    (flag : bool) (m0 m : Model) (log : list Step) :
  loadFromFile bc w path flag m0 = Ok (m, log) →
  let cs := corners (GetShapes (load_reader w path)) in
  ∃ m1 m2 m3 m4,
    buildVertexIndex bc (GetAttrib (load_reader w path))
      (GetShapes (load_reader w path)) m0 = Ok m1
    ∧ resolveMaterial w (load_basePath w path)
        (GetMaterials (load_reader w path)) m1 = Ok m2
    ∧ m3 = (if flag then standardize m2 else m2)
    ∧ (if existsb supplies_normal cs then m4 = m3
       else computeNormals m3 = Ok m4)
    ∧ (if existsb supplies_texcoord cs then computeTangents m4 = Ok m
       else m = m4).
Proof.
  intros (_ & m1 & m2 & m4 & Hb & Hr & Hn & Ht)%loadFromFile_anatomy cs.
  exists m1, m2, (if flag then standardize m2 else m2), m4.
  split; [done|]. split; [done|]. split; [done|].
  pose proof Hb as Hb'. rewrite buildVertexIndex_model in Hb'.
  destruct (build_model_mesh _ _ _ _ Hb') as (_ & _ & HN & HT & _).
  destruct (resolveMaterial_inv _ _ _ _ _ Hr) as ((_ & _ & HN2 & HT2) & _).
  fold cs in HN, HT. rewrite HN in HN2. rewrite HT in HT2.
  set (m3 := if flag then standardize m2 else m2) in *.
  assert (Hm3 : m_hasNormals m3 = existsb supplies_normal cs
                ∧ m_hasTexCoords m3 = existsb supplies_texcoord cs).
  { unfold m3. destruct flag; [|done].
    by destruct (standardize_frame m2) as (vs & -> & _). }
  destruct Hm3 as [HN3 HT3]. rewrite HN3 in Hn. split; [done|].
  assert (HT4 : m_hasTexCoords m4 = existsb supplies_texcoord cs).
  { destruct (existsb supplies_normal cs); [by subst m4|].
    by apply computeNormals_frame in Hn as (vs & -> & _). }
  by rewrite HT4 in Ht.
Qed.

(** C7.  For a parse that is valid: the model a load returns is the
    result of build-vertex-index, resolve-material, standardize,
    compute-normals and compute-tangents applied in this order, each to
    the result of the one before, with standardize applied iff the
    caller's flag is set, compute-normals iff no corner supplied a
    normal, and compute-tangents iff some corner supplied a texture
    coordinate, whether the normals were loaded or computed; the log of
    the load lists exactly these steps in this order; and the load does
    return when every corner assembles, the corner count is a multiple
    of 3 that fits an [int], and the textures the first material names
    load. *)
Theorem load_orchestration (bc : positive) (w : World) (path : string)
    (flag : bool) (m0 : Model) :
  Valid (load_reader w path) = true →
  let cs := corners (GetShapes (load_reader w path)) in
  (∀ m log, loadFromFile bc w path flag m0 = Ok (m, log) →
     (∃ m1 m2 m3 m4,
        buildVertexIndex bc (GetAttrib (load_reader w path))
          (GetShapes (load_reader w path)) m0 = Ok m1
        ∧ resolveMaterial w (load_basePath w path)
            (GetMaterials (load_reader w path)) m1 = Ok m2
        ∧ m3 = (if flag then standardize m2 else m2)
        ∧ (if existsb supplies_normal cs then m4 = m3
           else computeNormals m3 = Ok m4)
        ∧ (if existsb supplies_texcoord cs then computeTangents m4 = Ok m
           else m = m4))
     ∧ log = [BuildVertexIndex; ResolveMaterial]
             ++ (if flag then [Standardize] else [])
             ++ (if existsb supplies_normal cs then [] else [ComputeNormals])
             ++ (if existsb supplies_texcoord cs
                 then [ComputeTangents] else [])
             ++ [CreateBuffers]
     ∧ (Standardize ∈ log ↔ flag = true)
     ∧ (ComputeNormals ∈ log ↔ existsb supplies_normal cs = false)
     ∧ (ComputeTangents ∈ log ↔ existsb supplies_texcoord cs = true))
  ∧ (is_Ok (mapR (assemble (GetAttrib (load_reader w path))) cs) →
     (length cs mod 3 = 0)%nat → Z.of_nat (length cs) < 2 ^ 31 →
     textures_load w (load_basePath w path)
       (GetMaterials (load_reader w path)) →
     ∃ m, loadFromFile bc w path flag m0 = Ok (m, expected_log flag cs)).
Proof.
  intros EV cs. split.
  - intros m log Hl. split; [by apply (loadFromFile_steps _ _ _ _ _ _ _ Hl)|].
    apply loadFromFile_inv in Hl
      as (_ & m1 & m2 & vs & _ & _ & _ & _ & ->).
    fold cs. split; [done|]. unfold expected_log.
    destruct flag, (existsb supplies_normal cs),
      (existsb supplies_texcoord cs); simpl;
      repeat split; intros Hx; try done;
      repeat (first [ left; done | right ]);
      repeat (apply elem_of_cons in Hx as [Hx|Hx]; try discriminate);
      by apply elem_of_nil in Hx.
  - intros Hasm Hmod Hfit Hdec.
    destruct (loadFromFile_ok bc w path flag m0 EV Hasm Hmod Hfit Hdec)
      as ([m log] & Hl).
    exists m. rewrite Hl.
    by apply loadFromFile_inv in Hl as (_ & _ & _ & _ & _ & _ & _ & _ & ->).
Qed.

(** C8.  After a load that returned: when the parsed material list is
    empty, ambient is (0.1f, 0.1f, 0.1f, 1), diffuse (0.7f, 0.7f, 0.7f,
    1), specular (1, 1, 1, 1) and shininess 25; when it is not, the
    colours are the first material's ambient, diffuse and specular with
    alpha 1 and the shininess is the first material's.  The literals are
    the binary32 numbers nearest to 1/10 and 7/10, and 25 and 1 exactly.
    Resolving an empty material list always returns. *)
Theorem material_resolution (bc : positive) (w : World) (path : string)
    (flag : bool) (m0 m : Model) (log : list Step) :
  loadFromFile bc w path flag m0 = Ok (m, log) →
  match GetMaterials (load_reader w path) with
  | [] =>
      m_Ka m = Vec4 lit.f0_1 lit.f0_1 lit.f0_1 F32.one
      ∧ m_Kd m = Vec4 lit.f0_7 lit.f0_7 lit.f0_7 F32.one
      ∧ m_Ks m = Vec4 F32.one F32.one F32.one F32.one
      ∧ m_shininess m = lit.f25
  | mat :: _ =>
      m_Ka m = Vec4 (c0 (ambient mat)) (c1 (ambient mat))
                    (c2 (ambient mat)) F32.one
      ∧ m_Kd m = Vec4 (c0 (diffuse mat)) (c1 (diffuse mat))
                      (c2 (diffuse mat)) F32.one
      ∧ m_Ks m = Vec4 (c0 (specular mat)) (c1 (specular mat))
                      (c2 (specular mat)) F32.one
      ∧ m_shininess m = shininess mat
  end
  ∧ (lit.f0_1 = F32.div (F32.of_Z 1) (F32.of_Z 10)
     ∧ lit.f0_7 = F32.div (F32.of_Z 7) (F32.of_Z 10)
     ∧ lit.f25 = F32.of_Z 25 ∧ F32.one = F32.of_Z 1)
  ∧ (∀ basePath m', is_Ok (resolveMaterial w basePath [] m')).
Proof.
  intros (_ & m1 & m2 & vs & _ & Hr & -> & _ & _)%loadFromFile_inv.
  split; [|split; [by vm_compute | by eexists]].
  apply resolveMaterial_inv in Hr as [_ Hr].
  destruct (GetMaterials (load_reader w path)) as [|mat rest].
  - by rewrite Hr.
  - by destruct Hr as (? & ? & ? & ? & _).
Qed.

(** C9 (amended).  When [std::filesystem::exists] reports the file of
    the first material's diffuse texture missing, the texture loader
    returns the model as it is, without an exception; a load that
    returns has the diffuse texture handle the model had before the
    load, so no texture is bound when none was; and the load does
    return when every corner assembles, the corner count is a multiple
    of 3 that fits an [int], and the normal map, when the material
    names one, loads. *)
Theorem missing_texture_file (bc : positive) (w : World) (path : string)
    (flag : bool) (m0 : Model) (mat : material_t)
    (rest : list material_t) :
  GetMaterials (load_reader w path) = mat :: rest →
  fs_exists w (load_basePath w path +:+ diffuse_texname mat) = Ok false →
  let cs := corners (GetShapes (load_reader w path)) in
  (∀ m', loadDiffuseTexture w
           (load_basePath w path +:+ diffuse_texname mat) m' = Ok m')
  ∧ (∀ m log, loadFromFile bc w path flag m0 = Ok (m, log) →
              m_diffuseTexture m = m_diffuseTexture m0
              ∧ (m_diffuseTexture m0 = 0 → m_diffuseTexture m = 0))
  ∧ (Valid (load_reader w path) = true →
     is_Ok (mapR (assemble (GetAttrib (load_reader w path))) cs) →
     (length cs mod 3 = 0)%nat → Z.of_nat (length cs) < 2 ^ 31 →
     (empty (normal_map_name mat) = false →
      texture_loads w (load_basePath w path +:+ normal_map_name mat)) →
     ∃ m log, loadFromFile bc w path flag m0 = Ok (m, log)
              ∧ m_diffuseTexture m = m_diffuseTexture m0).
Proof.
  intros Hmat Hmissing cs.
  assert (Hkeep : ∀ m log, loadFromFile bc w path flag m0 = Ok (m, log) →
                           m_diffuseTexture m = m_diffuseTexture m0).
  { intros m log (_ & m1 & m2 & vs & Hb & Hr & -> & _ & _)%loadFromFile_inv.
    apply resolveMaterial_inv in Hr as [_ Hr]. rewrite Hmat in Hr.
    destruct Hr as (_ & _ & _ & _ & Hd). simpl. rewrite (Hd Hmissing).
    by destruct (build_model_mesh _ _ _ _ Hb)
      as (_ & _ & _ & _ & _ & _ & _ & _ & ? & _). }
  split; [|split].
  - intros m'. unfold loadDiffuseTexture. by rewrite Hmissing.
  - intros m log Hl. rewrite (Hkeep m log Hl). by split.
  - intros EV Hasm Hmod Hfit Hnormal.
    assert (Hload : textures_load w (load_basePath w path)
                      (GetMaterials (load_reader w path))).
    { rewrite Hmat. split; [intros _; by left | done]. }
    destruct (loadFromFile_ok bc w path flag m0 EV Hasm Hmod Hfit Hload)
      as ([m log] & Hl).
    exists m, log. eauto.
Qed.

(** C10.  Whenever [computeNormals] returns, the has-normals flag of the
    result is true, whatever it was before; on a mesh that satisfies the
    invariant it does return; and after a load that returned the flag is
    true, also when no corner supplied a normal, in which case the load
    went through compute-normals. *)
Theorem computeNormals_sets_flag :
  (∀ m m', computeNormals m = Ok m' → m_hasNormals m' = true)
  ∧ (∀ m, mesh_inv m → fits_int m →
          ∃ m', computeNormals m = Ok m' ∧ m_hasNormals m' = true)
  ∧ (∀ bc w path flag m0 m log,
       loadFromFile bc w path flag m0 = Ok (m, log) →
       m_hasNormals m = true
       ∧ (existsb supplies_normal (corners (GetShapes (load_reader w path)))
          = false → ComputeNormals ∈ log)).
Proof.
  split; [|split].
  - by intros m m' (vs & -> & _)%computeNormals_frame.
  - intros m Hinv Hfit.
    destruct (computeNormals_spec m Hinv Hfit) as (vs & Hc & _).
    eexists. by split.
  - intros bc w path flag m0 m log
      (_ & m1 & m2 & vs & _ & _ & -> & _ & ->)%loadFromFile_inv.
    split; [done|]. intros EN. unfold expected_log. rewrite EN.
    destruct flag; simpl; repeat (first [ left; done | right ]).
Qed.
End load_claims.

(** C3 (what the code does at a sample input).  Standardizing two vertices
    whose bounding box is 3 by 4 by 0 leaves a box centred at the origin
    with half extents 0.6f, 0.8f and 0: the diagonal has been scaled to
    length 2, and the longest axis has half-length 0.8f, not 1. *)
Theorem standardize_scales_diagonal :
  let vs := m_vertices (standardize sample.segment) in
  position <$> vs
  = [Vec3 (S754_finite true 10066330 (-24))
          (S754_finite true 13421773 (-24)) (S754_zero false);
     Vec3 (S754_finite false 10066330 (-24))
          (S754_finite false 13421773 (-24)) (S754_zero false)]
  ∧ half_extents vs
    = Vec3 (S754_finite false 10066330 (-24))
           (S754_finite false 13421773 (-24)) (S754_zero false)
  ∧ S754_finite false 13421773 (-24) = F32.div (F32.of_Z 4) (F32.of_Z 5)
  ∧ F32.ltb (y3 (half_extents vs)) F32.one = true
  ∧ box_center vs = glm.zero3.
Proof. by vm_compute. Qed.

(** ** The claims at sample inputs *)

Example cube_dedup :
  ∃ m, buildVertexIndex (H3:=sample.h3) (H2:=sample.h2) 5
         sample.cube_attrib sample.cube_shapes sample.blank = Ok m
       ∧ length (m_vertices m) = 8%nat ∧ length (m_indices m) = 36%nat
       ∧ m_hasNormals m = false ∧ m_hasTexCoords m = false.
Proof. eexists. split; [by vm_compute|]. by vm_compute. Qed.

Example quad_load_log :
  snd (sample.loaded [sample.plain])
  = [BuildVertexIndex; ResolveMaterial; Standardize; ComputeNormals;
     ComputeTangents; CreateBuffers].
Proof. by vm_compute. Qed.

Example quad_tangent_handedness :
  (λ v, w4 (tangent v)) <$> m_vertices (fst (sample.loaded []))
  = [F32.one; F32.one; F32.one; F32.one].
Proof. by vm_compute. Qed.

Example quad_normals :
  normal <$> m_vertices (fst (sample.loaded []))
  = replicate 4 (Vec3 F32.zero F32.zero F32.one).
Proof. by vm_compute. Qed.

Lemma sample_triangle_inv : mesh_inv sample.triangle.
Proof.
  split; [|reflexivity].
  repeat (apply Forall_cons; split; [simpl; lia|]). apply Forall_nil.
  exact I.
Defined.

Lemma sample_triangle_fits : fits_int sample.triangle.
Proof. reflexivity. Defined.

Lemma sample_world_loads ms base : textures_load (sample.world ms) base ms.
Proof. destruct ms as [|mat rest]; [exact I|]. split; intros _; by left. Defined.

Lemma vertex_deduplication_witness :
  ∃ m, buildVertexIndex (H3:=sample.h3) (H2:=sample.h2) 3
         sample.quad_attrib sample.quad_shapes sample.blank = Ok m
       ∧ m_vertices m = first_occurrences sample.quad_corners
       ∧ length (m_indices m) = length sample.quad_corners.
Proof.
  destruct (vertex_deduplication (H3:=sample.h3) (H2:=sample.h2) 3
              sample.quad_attrib sample.quad_shapes sample.blank
              sample.quad_corners) as (m & Hm & HU & HL & _).
  - reflexivity.
  - vm_compute. discriminate.
  - exists m. auto.
Defined.

Lemma normal_computation_witness :
  ∃ m', computeNormals sample.triangle = Ok m'
        ∧ same_mesh sample.triangle m'.
Proof.
  destruct (normal_computation sample.triangle sample_triangle_inv
              sample_triangle_fits) as (m' & Hm' & Hs & _).
  exists m'. auto.
Defined.


Lemma mesh_invariant_witness :
  mesh_inv (standardize sample.triangle)
  ∧ is_Ok (computeNormals sample.triangle)
  ∧ is_Ok (computeTangents sample.triangle).
Proof.
  destruct mesh_invariant as (_ & Hs & _ & _ & Hok).
  split.
  - apply (Hs sample.triangle), sample_triangle_inv.
  - apply (Hok sample.triangle sample_triangle_inv sample_triangle_fits).
Defined.

Lemma load_orchestration_witness :
  ∃ m, loadFromFile (H3:=sample.h3) (H2:=sample.h2) 3
         (sample.world [sample.plain]) "assets/quad.obj" true sample.blank
       = Ok (m, [BuildVertexIndex; ResolveMaterial; Standardize;
                 ComputeNormals; ComputeTangents; CreateBuffers]).
Proof.
  destruct (load_orchestration (H3:=sample.h3) (H2:=sample.h2) 3
              (sample.world [sample.plain]) "assets/quad.obj" true
              sample.blank eq_refl) as [_ Hok].
  apply Hok.
  - eexists. reflexivity.
  - reflexivity.
  - reflexivity.
  - apply sample_world_loads.
Defined.

Lemma material_resolution_witness :
  m_Ka (fst (sample.loaded []))
  = Vec4 lit.f0_1 lit.f0_1 lit.f0_1 F32.one
  ∧ m_shininess (fst (sample.loaded [])) = lit.f25.
Proof.
  destruct (material_resolution (H3:=sample.h3) (H2:=sample.h2) 3
              (sample.world []) "assets/quad.obj" true sample.blank
              (fst (sample.loaded [])) (snd (sample.loaded [])))
    as ((Ha & _ & _ & Hs) & _).
  - vm_compute. reflexivity.
  - split; [exact Ha | exact Hs].
Defined.

Lemma missing_texture_file_witness :
  ∃ m log, loadFromFile (H3:=sample.h3) (H2:=sample.h2) 3
             (sample.world [sample.plain]) "assets/quad.obj" true
             sample.blank = Ok (m, log)
           ∧ m_diffuseTexture m = 0.
Proof.
  destruct (missing_texture_file (H3:=sample.h3) (H2:=sample.h2) 3
              (sample.world [sample.plain]) "assets/quad.obj" true
              sample.blank sample.plain [] eq_refl eq_refl)
    as (_ & _ & Hok).
  apply Hok.
  - reflexivity.
  - eexists. reflexivity.
  - reflexivity.
  - reflexivity.
  - discriminate.
Defined.

(** The claim as the spec words it, at a model that had a texture before
    the load: the file of the material's diffuse texture is reported
    missing and the load returns, yet a texture is bound afterwards, the
    one the model had. *)
Lemma missing_texture_file_counterexample :
  fs_exists (sample.world [sample.plain])
    (load_basePath (sample.world [sample.plain]) "assets/quad.obj"
     +:+ diffuse_texname sample.plain) = Ok false
  ∧ ¬ (∀ m log,
         loadFromFile (H3:=sample.h3) (H2:=sample.h2) 3
           (sample.world [sample.plain]) "assets/quad.obj" true
           (with_diffuseTexture 7 sample.blank) = Ok (m, log) →
         m_diffuseTexture m = 0).
Proof.
  split; [reflexivity|]. intros H.
  destruct (loadFromFile (H3:=sample.h3) (H2:=sample.h2) 3
              (sample.world [sample.plain]) "assets/quad.obj" true
              (with_diffuseTexture 7 sample.blank)) as [[m log]|e] eqn:E.
  - specialize (H m log eq_refl). vm_compute in E.
    injection E as <- _. discriminate H.
  - vm_compute in E. discriminate E.
Qed.

Lemma computeNormals_sets_flag_witness :
  ∃ m', computeNormals sample.triangle = Ok m' ∧ m_hasNormals m' = true.
Proof.
  destruct (computeNormals_sets_flag (H3:=sample.h3) (H2:=sample.h2))
    as (_ & Hok & _).
  apply (Hok sample.triangle sample_triangle_inv sample_triangle_fits).
Defined.

(** * Further properties of the code *)

(** ** The hash of a vertex *)


(** ** Which corners assemble *)

Lemma at_in {A} (v : list A) (i : Z) :
  0 ≤ i < Z.of_nat (length v) → ∃ a, at_ v i = Ok a.
Proof.
  intros Hi. destruct (lookup_lt_is_Some_2 v (Z.to_nat i)) as (a & Ha); [lia|].
  exists a. apply at_Ok. split; [lia | done].
Qed.

Lemma at_out {A} (v : list A) (i : Z) :
  ¬ (0 ≤ i < Z.of_nat (length v)) → at_ v i = Throw out_of_range.
Proof.
  intros Hi. unfold at_. destruct (Z.ltb_spec i 0); [done|].
  destruct (v !! Z.to_nat i) eqn:E; [|done].
  apply lookup_lt_Some in E. lia.
Qed.

Lemma at_Throw {A} (v : list A) (i : Z) (e : exception) :
  at_ v i = Throw e → e = out_of_range.
Proof.
  unfold at_. destruct (i <? 0); [congruence|].
  destruct (v !! Z.to_nat i); congruence.
Qed.

Lemma size_add_nonneg (s k : Z) : 0 ≤ size_add s k.
Proof. unfold size_add. apply Z.mod_pos_bound. lia. Qed.

Lemma at_cases {A} (v : list A) (i : Z) :
  0 ≤ i →
  if i <? Z.of_nat (length v) then is_Ok (at_ v i)
  else at_ v i = Throw out_of_range.
Proof.
  intros Hi. destruct (Z.ltb_spec i (Z.of_nat (length v))).
  - apply at_in. lia.
  - apply at_out. lia.
Qed.

Ltac step_at v i :=
  let H := fresh "H" in
  pose proof (at_cases v i (size_add_nonneg _ _)) as H; revert H;
  destruct (i <? Z.of_nat (length v)); intros H; cbv iota in H;
  [ unfold is_Ok in H; destruct H as [? H]; rewrite H; clear H
  | rewrite H; clear H ];
  cbn [mbind result_bind andb orb]; try done.

Lemma assemble_cases (attrib : attrib_t) (c : index_t) :
  if corner_in_range attrib c then is_Ok (assemble attrib c)
  else assemble attrib c = Throw out_of_range.
Proof.
  unfold corner_in_range, assemble, entries_exist. cbv zeta.
  cbn [seq forallb].
  change (Z.of_nat 0) with 0. change (Z.of_nat 1) with 1.
  change (Z.of_nat 2) with 2.
  set (sv := size_of_int (int_mul 3 (vertex_index c))).
  set (sn := size_of_int (int_mul 3 (normal_index c))).
  set (st := size_of_int (int_mul 2 (texcoord_index c))).
  step_at (vertices attrib) (size_add sv 0).
  step_at (vertices attrib) (size_add sv 1).
  step_at (vertices attrib) (size_add sv 2).
  destruct (Z.leb_spec 0 (normal_index c)) as [Hn|Hn];
    destruct (Z.ltb_spec (normal_index c) 0) as [Hn'|Hn']; try lia;
    cbn [orb andb].
  - step_at (normals attrib) (size_add sn 0).
    step_at (normals attrib) (size_add sn 1).
    step_at (normals attrib) (size_add sn 2).
    destruct (Z.leb_spec 0 (texcoord_index c)) as [Ht|Ht];
      destruct (Z.ltb_spec (texcoord_index c) 0) as [Ht'|Ht']; try lia;
      cbn [orb andb]; [|by eexists].
    step_at (texcoords attrib) (size_add st 0).
    step_at (texcoords attrib) (size_add st 1).
    by eexists.
  - destruct (Z.leb_spec 0 (texcoord_index c)) as [Ht|Ht];
      destruct (Z.ltb_spec (texcoord_index c) 0) as [Ht'|Ht']; try lia;
      cbn [orb andb]; [|by eexists].
    step_at (texcoords attrib) (size_add st 0).
    step_at (texcoords attrib) (size_add st 1).
    by eexists.
Qed.

(** Without overflow and with arrays a machine can hold, the wrap-around
    does not show. *)
Lemma int_wrap_small (z : Z) : - 2 ^ 31 ≤ z < 2 ^ 31 → int_wrap z = z.
Proof. intros Hz. unfold int_wrap. rewrite Z.mod_small; lia. Qed.

Lemma size_of_int_neg (z : Z) :
  - 2 ^ 31 ≤ z < 0 → size_of_int z = z + 2 ^ 64.
Proof.
  intros Hz. unfold size_of_int.
  rewrite <- (Z_mod_plus_full z 1 (2 ^ 64)). rewrite Z.mod_small; lia.
Qed.

Lemma entries_exist_plain (len : nat) (z : Z) (count : nat) :
  - 2 ^ 31 ≤ z < 2 ^ 31 → Z.of_nat len ≤ 2 ^ 63 →
  (0 < count ≤ 3)%nat →
  entries_exist len (size_of_int z) count
  = (0 <=? z) && (z + Z.of_nat count - 1 <? Z.of_nat len).
Proof.
  intros Hz Hlen Hc. unfold entries_exist.
  destruct (Z.leb_spec 0 z) as [Hpos|Hneg]; cbn [andb].
  - assert (Hs : size_of_int z = z).
    { unfold size_of_int. apply Z.mod_small. lia. }
    rewrite Hs.
    assert (Hk : ∀ k, 0 ≤ k ≤ 2 → size_add z k = z + k).
    { intros k Hk. unfold size_add. apply Z.mod_small. lia. }
    destruct count as [|[|[|[|n]]]]; try lia;
      cbn [seq forallb];
      change (Z.of_nat 0) with 0; change (Z.of_nat 1) with 1;
      change (Z.of_nat 2) with 2; change (Z.of_nat 3) with 3;
      rewrite ?Hk by lia;
      repeat match goal with
             | |- context [?a <? ?b] => destruct (Z.ltb_spec a b)
             end; cbn [andb]; try reflexivity; lia.
  - rewrite size_of_int_neg by lia.
    destruct count as [|n]; [lia|]. cbn [seq forallb].
    change (Z.of_nat 0) with 0.
    assert (Hs : size_add (z + 2 ^ 64) 0 = z + 2 ^ 64).
    { unfold size_add. rewrite Z.add_0_r. apply Z.mod_small. lia. }
    rewrite Hs. destruct (Z.ltb_spec (z + 2 ^ 64) (Z.of_nat len)); [lia|].
    reflexivity.
Qed.

Lemma corner_in_range_plain (attrib : attrib_t) (c : index_t) :
  attrib_fits attrib → products_fit c = true →
  corner_in_range attrib c = corner_addresses attrib c.
Proof.
  intros (Hv & Hn & Ht) Hp. unfold products_fit in Hp.
  repeat (apply andb_prop in Hp as [Hp ?]).
  repeat match goal with
         | H : (_ <=? _) = true |- _ => apply Z.leb_le in H
         | H : (_ <? _) = true |- _ => apply Z.ltb_lt in H
         end.
  unfold corner_in_range, corner_addresses, int_mul.
  rewrite !int_wrap_small by lia.
  rewrite !entries_exist_plain by (try done; lia).
  change (Z.of_nat 3) with 3. change (Z.of_nat 2) with 2.
  repeat match goal with
         | |- context [?a <? ?b] => destruct (Z.ltb_spec a b)
         | |- context [?a <=? ?b] => destruct (Z.leb_spec a b)
         end; cbn [andb orb]; try reflexivity; lia.
Qed.

Lemma forallb_agree {A} (p q : A → bool) (l : list A) :
  (∀ a, a ∈ l → p a = q a) → forallb p l = forallb q l.
Proof.
  induction l as [|a l IH]; intros H; [done|]. simpl.
  rewrite (H a) by (by left). rewrite IH; [done|].
  intros b Hb. apply H. by right.
Qed.

Lemma mapR_cases {A B} (f : A → result B) (p : A → bool) (l : list A) :
  (∀ a, if p a then is_Ok (f a) else f a = Throw out_of_range) →
  if forallb p l then is_Ok (mapR f l) else mapR f l = Throw out_of_range.
Proof.
  intros Hf. induction l as [|a l IH]; simpl; [by eexists|].
  specialize (Hf a). destruct (p a); simpl.
  - destruct Hf as (b & ->). simpl.
    destruct (forallb p l).
    + destruct IH as (bs & ->). by eexists.
    + by rewrite IH.
  - by rewrite Hf.
Qed.

Section build_more.
Context `{H3 : Hash vec3} `{H2 : Hash vec2}.

Lemma build_outcome (bc : positive) (attrib : attrib_t)
    (shapes : list shape_t) (m0 : Model) :
  if forallb (corner_in_range attrib) (corners shapes)
  then is_Ok (buildVertexIndex bc attrib shapes m0)
  else buildVertexIndex bc attrib shapes m0 = Throw out_of_range.
Proof.
  rewrite buildVertexIndex_model. unfold build_model.
  pose proof (mapR_cases (assemble attrib) (corner_in_range attrib)
                (corners shapes) (assemble_cases attrib)) as Hc.
  destruct (forallb _ _).
  - destruct Hc as (vs & ->). by eexists.
  - by rewrite Hc.
Qed.

Lemma build_Throw (bc : positive) (attrib : attrib_t)
    (shapes : list shape_t) (m0 : Model) (e : exception) :
  buildVertexIndex bc attrib shapes m0 = Throw e → e = out_of_range.
Proof.
  pose proof (build_outcome bc attrib shapes m0) as Hc.
  destruct (forallb _ _).
  - destruct Hc as (m & ->). done.
  - rewrite Hc. congruence.
Qed.

(** X2.  The build returns exactly when the attribute entries every
    corner reads exist: the three floats from the start index of its
    position, and from those of a normal or texture-coordinate index
    that is not negative, each start index being the [int] product the
    code computes converted to [size_t].  Otherwise the build throws
    [out_of_range], and never anything else.  When no product overflows
    an [int] and the attribute arrays have at most 2^63 entries, this is
    the condition on the indices as numbers: a position index that is
    not negative and whose three floats exist, and the same for a
    normal or texture-coordinate index that is not negative. *)
Theorem build_returns_iff (bc : positive) (attrib : attrib_t)
    (shapes : list shape_t) (m0 : Model) :
  (is_Ok (buildVertexIndex bc attrib shapes m0)
   ↔ forallb (corner_in_range attrib) (corners shapes) = true)
  ∧ (∀ e, buildVertexIndex bc attrib shapes m0 = Throw e →
          e = out_of_range)
  ∧ (attrib_fits attrib → forallb products_fit (corners shapes) = true →
     (is_Ok (buildVertexIndex bc attrib shapes m0)
      ↔ forallb (corner_addresses attrib) (corners shapes) = true)).
Proof.
  assert (Hiff : is_Ok (buildVertexIndex bc attrib shapes m0)
                 ↔ forallb (corner_in_range attrib) (corners shapes)
                   = true).
  { pose proof (build_outcome bc attrib shapes m0) as Hc.
    destruct (forallb _ _); [done|].
    rewrite Hc. split; [intros (? & ?); done | done]. }
  split; [done|]. split; [apply build_Throw|].
  intros Hfit Hp. rewrite Hiff.
  rewrite (forallb_agree (corner_in_range attrib)
             (corner_addresses attrib)); [done|].
  intros c Hc. apply corner_in_range_plain; [done|].
  rewrite forallb_forall in Hp. apply Hp. by apply list_elem_of_In.
Qed.

(** X3.  In the mesh the build returns, no two vertices are duplicates
    of each other, there are at most as many vertices as indices, and,
    when the vertex count is within the range of a [GLuint], every
    vertex is referred to by some index. *)
Theorem build_compact (bc : positive) (attrib : attrib_t)
    (shapes : list shape_t) (m0 m : Model) :
  buildVertexIndex bc attrib shapes m0 = Ok m →
  (∀ a b u w, m_vertices m !! a = Some u → m_vertices m !! b = Some w →
              Vertex_eqb u w = true → a = b)
  ∧ (length (m_vertices m) ≤ length (m_indices m))%nat
  ∧ (Z.of_nat (length (m_vertices m)) ≤ 2 ^ 32 →
     ∀ k, (k < length (m_vertices m))%nat → Z.of_nat k ∈ m_indices m).
Proof.
  rewrite buildVertexIndex_model. unfold build_model. intros Hb.
  apply bind_Ok_inv in Hb as (vs & Hvs & [= <-]). simpl.
  destruct (dedup_spec vs) as (HU & Huniq & _).
  split; [|split].
  - intros a b u w Ha Hb Huw.
    apply Huniq in Ha, Hb. rewrite (first_index_congr u w) in Ha by done.
    congruence.
  - rewrite dedup_length, HU. apply first_occurrences_length.
  - intros Hbound k Hk.
    destruct (lookup_lt_is_Some_2 _ _ Hk) as (u & Hu).
    pose proof Hu as Hin. rewrite HU in Hin.
    apply list_elem_of_lookup_2, first_occurrences_elem,
      list_elem_of_lookup in Hin as (i & Hi).
    destruct (dedup_index vs i u Hi) as (k' & _ & Hk' & _ & _ & Hix).
    rewrite <- HU in Hk'. rewrite (Huniq k u Hu) in Hk'.
    injection Hk' as <-.
    rewrite GLuint_of_size_small in Hix by lia.
    by eapply list_elem_of_lookup_2.
Qed.

(** X4.  The build overwrites the mesh and the two flags and nothing
    else: the colours, the shininess and the texture handles of the
    result are those the model had; the previous vertices, indices and
    flags do not show in the result; and building again from the result
    gives the result. *)
Theorem build_replaces_mesh (bc : positive) (attrib : attrib_t)
    (shapes : list shape_t) (m0 m : Model) :
  buildVertexIndex bc attrib shapes m0 = Ok m →
  same_surface m0 m
  ∧ (∀ bc' vs ixs n t,
       buildVertexIndex bc' attrib shapes (rebuild vs ixs n t m0) = Ok m)
  ∧ (∀ bc', buildVertexIndex bc' attrib shapes m = Ok m).
Proof.
  rewrite buildVertexIndex_model. intros Hb.
  split; [by destruct (build_model_mesh _ _ _ _ Hb) as (_ & _ & _ & _ & ?)|].
  unfold build_model in Hb.
  apply bind_Ok_inv in Hb as (vs & Hvs & [= <-]).
  split; intros; rewrite buildVertexIndex_model; unfold build_model;
    rewrite Hvs; reflexivity.
Qed.
End build_more.

(** ** When the face loops return *)

Lemma foldM_Throw {A B} (f : B → A → result B) (l : list A) (b : B)
    (e : exception) :
  (∀ b a e, f b a = Throw e → e = out_of_range) →
  foldM f l b = Throw e → e = out_of_range.
Proof.
  intros Hf. revert b. induction l as [|a l IH]; intros b; simpl; [done|].
  destruct (f b a) as [b'|e'] eqn:E; simpl; [apply IH|].
  intros [= <-]. by eapply Hf.
Qed.

Lemma foldM_elem {A B} (f : B → A → result B) (P : B → Prop)
    (l : list A) (b b' : B) (a : A) :
  (∀ b a b', f b a = Ok b' → P b → P b') →
  P b → foldM f l b = Ok b' → a ∈ l →
  ∃ b1 b2, P b1 ∧ f b1 a = Ok b2.
Proof.
  intros Hstep. revert b. induction l as [|x l IH]; intros b Hb; simpl.
  - intros _ Ha. by apply elem_of_nil in Ha.
  - intros Hf Ha. apply bind_Ok_inv in Hf as (b1 & Hb1 & Hf).
    apply elem_of_cons in Ha as [->|Ha]; [eauto|].
    eapply IH; [|done|done]. eauto.
Qed.

Ltac throw_at :=
  repeat match goal with
         | |- context [at_ ?v ?i ≫= _] =>
             let E := fresh "E" in
             destruct (at_ v i) eqn:E; cbn [mbind result_bind];
             [| intros [= <-]; by eapply at_Throw]
         end.

Lemma normals_face_Throw (ixs : list GLuint) (vs : list Vertex) (o : Z)
    (e : exception) :
  normals_face ixs vs o = Throw e → e = out_of_range.
Proof. unfold normals_face. throw_at. done. Qed.

Lemma add_bitangent_Throw (i : GLuint) (b : vec3) (bs : list vec3)
    (e : exception) :
  add_bitangent i b bs = Throw e → e = out_of_range.
Proof. unfold add_bitangent. throw_at. done. Qed.

Lemma tangents_face_Throw (ixs : list GLuint)
    (st : list Vertex * list vec3) (o : Z) (e : exception) :
  tangents_face ixs st o = Throw e → e = out_of_range.
Proof.
  unfold tangents_face. destruct st as [vs bs]. throw_at.
  destruct (face_basis _ _ _) as [tangent bitangent].
  repeat match goal with
         | |- context [add_bitangent ?i ?b ?l ≫= _] =>
             let E := fresh "E" in
             destruct (add_bitangent i b l) eqn:E; cbn [mbind result_bind];
             [| intros [= <-]; by eapply add_bitangent_Throw]
         end.
  done.
Qed.

Lemma orthogonalize_from_Throw (i : nat) (bs : list vec3)
    (vs : list Vertex) (e : exception) :
  orthogonalize_from i bs vs = Throw e → e = out_of_range.
Proof.
  revert i. induction vs as [|v vs IH]; intros i; simpl; [done|].
  throw_at.
  destruct (orthogonalize_from (S i) bs vs) eqn:Er; cbn [mbind result_bind];
    [done|]. intros [= <-]. by eapply IH.
Qed.

Lemma computeNormals_Throw (m : Model) (e : exception) :
  computeNormals m = Throw e → e = out_of_range.
Proof.
  unfold computeNormals.
  destruct (foldM _ _ _) eqn:E; cbn [mbind result_bind]; [done|].
  intros [= <-]. eapply foldM_Throw; [|exact E].
  intros b a e'. apply normals_face_Throw.
Qed.

Lemma computeTangents_Throw (m : Model) (e : exception) :
  computeTangents m = Throw e → e = out_of_range.
Proof.
  unfold computeTangents.
  destruct (foldM _ _ _) as [st|e0] eqn:E; cbn [mbind result_bind].
  - destruct (orthogonalize_from _ _ _) eqn:E'; cbn [mbind result_bind];
      [done|]. intros [= <-]. by eapply orthogonalize_from_Throw.
  - intros [= <-]. eapply foldM_Throw; [|exact E].
    intros b a e'. apply tangents_face_Throw.
Qed.

(** A face loop that returned has read three in-range indices at every
    offset it visited: the index count is then a multiple of 3 and every
    index is in range. *)
Lemma face_loop_inv {S} (f : S → Z → result S) (P : S → Prop)
    (ixs : list GLuint) (nv : nat) (s0 s' : S) :
  (∀ s o s', f s o = Ok s' → P s →
     P s' ∧ ∀ r, 0 ≤ r < 3 →
                 ∃ i, at_ ixs (o + r) = Ok i ∧ 0 ≤ i < Z.of_nat nv) →
  P s0 →
  foldM f (range3 (Z.of_nat (length ixs))) s0 = Ok s' →
  Forall (λ i, 0 ≤ i < Z.of_nat nv) ixs ∧ (length ixs mod 3 = 0)%nat.
Proof.
  intros Hstep H0 Hf.
  set (n := Z.of_nat (length ixs)) in *.
  set (q := (n + 2) / 3).
  assert (Hq : n + 2 = 3 * q + (n + 2) mod 3 ∧ 0 ≤ (n + 2) mod 3 < 3).
  { split; [apply Z.div_mod; lia | apply Z.mod_pos_bound; lia]. }
  assert (Hvisit : ∀ k r, 0 ≤ k < q → 0 ≤ r < 3 →
            ∃ i, at_ ixs (3 * k + r) = Ok i ∧ 0 ≤ i < Z.of_nat nv).
  { intros k r Hk Hr.
    destruct (foldM_elem f P _ s0 s' (3 * k)
                (λ b a b' Hb HP, proj1 (Hstep b a b' Hb HP)) H0 Hf)
      as (b1 & b2 & HP1 & Hb2).
    { unfold range3. fold n. fold q. apply list_elem_of_fmap.
      exists (Z.to_nat k). split; [lia|]. apply elem_of_seq. lia. }
    by apply (Hstep _ _ _ Hb2 HP1). }
  assert (Hmod : n = 3 * q).
  { destruct (decide (q ≤ 0)) as [Hle|Hgt]; [lia|].
    destruct (Hvisit (q - 1) 2) as (i & Hi & _); [lia|lia|].
    apply at_Ok in Hi as [_ Hi]. apply lookup_lt_Some in Hi. lia. }
  split.
  - apply Forall_lookup_2. intros j i Hj.
    pose proof (lookup_lt_Some _ _ _ Hj) as Hlt.
    destruct (Hvisit (Z.of_nat j / 3) (Z.of_nat j mod 3)) as (i' & Hi' & Hr).
    { split; [apply Z.div_pos; lia|].
      apply Z.div_lt_upper_bound; lia. }
    { apply Z.mod_pos_bound. lia. }
    rewrite <- Z.div_mod in Hi' by lia.
    apply at_Ok in Hi' as [_ Hi']. rewrite Nat2Z.id in Hi'. congruence.
  - replace (length ixs) with (Z.to_nat q * 3)%nat by lia.
    apply Nat.Div0.mod_mul.
Qed.

Lemma normals_face_reads (ixs : list GLuint) (vs vs' : list Vertex)
    (o : Z) :
  normals_face ixs vs o = Ok vs' →
  ∀ r, 0 ≤ r < 3 →
       ∃ i, at_ ixs (o + r) = Ok i ∧ 0 ≤ i < Z.of_nat (length vs).
Proof.
  unfold normals_face. intros Hf r Hr. invert_binds.
  assert (Hat : ∀ (i : GLuint) (v : Vertex),
            at_ vs i = Ok v → 0 ≤ i < Z.of_nat (length vs)).
  { intros i v [Hi Hv%lookup_lt_Some]%at_Ok. lia. }
  assert (r = 0 ∨ r = 1 ∨ r = 2) as [->|[->| ->]] by lia; eauto.
Qed.

Lemma tangents_face_reads (ixs : list GLuint)
    (st st' : list Vertex * list vec3) (o : Z) :
  tangents_face ixs st o = Ok st' →
  ∀ r, 0 ≤ r < 3 →
       ∃ i, at_ ixs (o + r) = Ok i ∧ 0 ≤ i < Z.of_nat (length (fst st)).
Proof.
  unfold tangents_face. destruct st as [vs bs]. intros Hf r Hr.
  invert_binds.
  assert (Hat : ∀ (i : GLuint) (v : Vertex),
            at_ vs i = Ok v → 0 ≤ i < Z.of_nat (length vs)).
  { intros i v [Hi Hv%lookup_lt_Some]%at_Ok. lia. }
  assert (r = 0 ∨ r = 1 ∨ r = 2) as [->|[->| ->]] by lia; simpl; eauto.
Qed.

Lemma computeNormals_Ok_inv (m m' : Model) :
  fits_int m → computeNormals m = Ok m' → mesh_inv m.
Proof.
  intros Hfit Hc. unfold computeNormals in Hc.
  apply bind_Ok_inv in Hc as (vs & Hvs & _).
  rewrite int_of_size_small in Hvs by done.
  eapply (face_loop_inv (normals_face (m_indices m))
            (λ l, length l = length (m_vertices m)));
    [| |exact Hvs].
  - intros s o s' Hs HP. split.
    + by rewrite (normals_face_length _ _ _ _ Hs).
    + rewrite <- HP. by eapply normals_face_reads.
  - by rewrite map_fmap, length_fmap.
Qed.

Lemma computeTangents_Ok_inv (m m' : Model) :
  fits_int m → computeTangents m = Ok m' → mesh_inv m.
Proof.
  intros Hfit Hc. unfold computeTangents in Hc.
  apply bind_Ok_inv in Hc as (st & Hst & _).
  rewrite int_of_size_small in Hst by done.
  eapply (face_loop_inv (tangents_face (m_indices m))
            (λ s, length (fst s) = length (m_vertices m)));
    [| |exact Hst].
  - intros s o s' Hs HP. split.
    + by rewrite (tangents_face_length _ _ _ _ Hs).
    + rewrite <- HP. by eapply tangents_face_reads.
  - done.
Qed.

(** X5.  With an index count that fits an [int], [computeNormals] returns
    exactly on the meshes that satisfy the invariant (every index below
    the vertex count, index count a multiple of 3); on every other mesh it
    throws [out_of_range], and it never throws anything else. *)
Theorem computeNormals_returns_iff (m : Model) :
  fits_int m →
  (is_Ok (computeNormals m) ↔ mesh_inv m)
  ∧ (∀ e, computeNormals m = Throw e → e = out_of_range).
Proof.
  intros Hfit. split; [|apply computeNormals_Throw].
  split.
  - intros (m' & Hc). by eapply computeNormals_Ok_inv.
  - intros Hinv. destruct (computeNormals_spec m Hinv Hfit) as (vs & -> & _).
    by eexists.
Qed.

(** X6.  The same for [computeTangents]: with an index count that fits an
    [int] it returns exactly on the meshes that satisfy the invariant, and
    throws [out_of_range] and nothing else on the others. *)
Theorem computeTangents_returns_iff (m : Model) :
  fits_int m →
  (is_Ok (computeTangents m) ↔ mesh_inv m)
  ∧ (∀ e, computeTangents m = Throw e → e = out_of_range).
Proof.
  intros Hfit. split; [|apply computeTangents_Throw].
  split.
  - intros (m' & Hc). by eapply computeTangents_Ok_inv.
  - intros Hinv. destruct (computeTangents_spec m Hinv Hfit) as (vs & -> & _).
    by eexists.
Qed.

(** ** What each mesh operation writes *)

Lemma same_but_normal_refl (v : Vertex) (n : vec3) :
  same_but_normal v (set_normal v n).
Proof. done. Qed.

Lemma normals_face_frame (V : list Vertex) (ixs : list GLuint)
    (vs vs' : list Vertex) (o : Z) :
  normals_face ixs vs o = Ok vs' →
  Forall2 same_but_normal V vs → Forall2 same_but_normal V vs'.
Proof.
  unfold normals_face. intros Hf HV. invert_binds. injection Hf as <-.
  unfold add_normal.
  repeat (apply Forall2_alter_r; [|intros x y _ _ Hxy; exact Hxy]). done.
Qed.

Lemma computeNormals_writes (m m' : Model) :
  computeNormals m = Ok m' →
  m_indices m' = m_indices m ∧ m_hasTexCoords m' = m_hasTexCoords m
  ∧ same_surface m m' ∧ m_hasNormals m' = true
  ∧ Forall2 same_but_normal (m_vertices m) (m_vertices m').
Proof.
  unfold computeNormals. intros Hc.
  apply bind_Ok_inv in Hc as (vs & Hvs & [= <-]). simpl.
  repeat split.
  rewrite map_fmap. apply Forall2_fmap_r.
  apply (foldM_invariant _ (Forall2 same_but_normal (m_vertices m)) _ _ _
           (λ b a b' Hf Hb, normals_face_frame _ _ _ _ _ Hf Hb)) in Hvs.
  - eapply Forall2_impl; [exact Hvs|]. by intros x y Hxy.
  - rewrite map_fmap. apply Forall2_fmap_r, Forall_Forall2_diag.
    by apply Forall_forall.
Qed.

Lemma tangents_face_frame (V : list Vertex) (ixs : list GLuint)
    (st st' : list Vertex * list vec3) (o : Z) :
  tangents_face ixs st o = Ok st' →
  Forall2 same_but_tangent V (fst st) → Forall2 same_but_tangent V (fst st').
Proof.
  unfold tangents_face. destruct st as [vs bs]. intros Hf HV. invert_binds.
  destruct (face_basis _ _ _) as [tangent bitangent].
  invert_binds. injection Hf as <-. unfold add_tangent. simpl.
  repeat (apply Forall2_alter_r; [|intros x y _ _ Hxy; exact Hxy]). done.
Qed.

Lemma orthogonalize_from_frame (i : nat) (bs : list vec3)
    (vs out : list Vertex) :
  orthogonalize_from i bs vs = Ok out → Forall2 same_but_tangent vs out.
Proof.
  revert i out. induction vs as [|v vs IH]; intros i out; simpl.
  - intros [= <-]. constructor.
  - intros Hf. invert_binds. injection Hf as <-.
    constructor; [done | eauto].
Qed.

Lemma same_but_tangent_trans (a b c : Vertex) :
  same_but_tangent a b → same_but_tangent b c → same_but_tangent a c.
Proof. unfold same_but_tangent. intuition congruence. Qed.

Lemma computeTangents_writes (m m' : Model) :
  computeTangents m = Ok m' →
  same_but_vertices m m'
  ∧ Forall2 same_but_tangent (m_vertices m) (m_vertices m').
Proof.
  unfold computeTangents. intros Hc.
  apply bind_Ok_inv in Hc as (st & Hst & Hc).
  apply bind_Ok_inv in Hc as (vs & Hvs & [= <-]). simpl.
  split; [by repeat split|].
  apply (foldM_invariant _
           (λ s, Forall2 same_but_tangent (m_vertices m) (fst s)) _ _ _
           (λ b a b' Hf Hb, tangents_face_frame _ _ _ _ _ Hf Hb)) in Hst.
  - apply orthogonalize_from_frame in Hvs.
    eapply Forall2_trans; [|exact Hst|exact Hvs].
    intros a b c. apply same_but_tangent_trans.
  - simpl. apply Forall_Forall2_diag. by apply Forall_forall.
Qed.

Lemma standardize_writes (m : Model) :
  same_but_vertices m (standardize m)
  ∧ Forall2 same_but_position (m_vertices m) (m_vertices (standardize m)).
Proof.
  unfold standardize. destruct (get_bounds _) as [mx mn]. simpl.
  split; [by repeat split|].
  rewrite map_fmap. apply Forall2_fmap_r, Forall_Forall2_diag.
  by apply Forall_forall.
Qed.

(** X7.  Each of the three mesh operations writes one vertex field and
    leaves the rest of the model alone, whatever the mesh: whenever
    [computeNormals] returns, positions, texture coordinates and tangents
    are as before (and so are indices, has-texture-coordinates flag,
    colours and texture handles); whenever [computeTangents] returns,
    positions, normals and texture coordinates are as before, as are both
    flags; [standardize] changes positions only. *)
Theorem mesh_operations_write_one_field (m : Model) :
  (∀ m', computeNormals m = Ok m' →
     m_indices m' = m_indices m ∧ m_hasTexCoords m' = m_hasTexCoords m
     ∧ same_surface m m'
     ∧ Forall2 same_but_normal (m_vertices m) (m_vertices m'))
  ∧ (∀ m', computeTangents m = Ok m' →
       same_but_vertices m m'
       ∧ Forall2 same_but_tangent (m_vertices m) (m_vertices m'))
  ∧ same_but_vertices m (standardize m)
  ∧ Forall2 same_but_position (m_vertices m) (m_vertices (standardize m)).
Proof.
  split; [|split; [|apply standardize_writes]].
  - intros m' Hc. apply computeNormals_writes in Hc. tauto.
  - apply computeTangents_writes.
Qed.

(** ** Recomputing normals *)

Lemma face_normal_ext (a b c a' b' c' : Vertex) :
  position a' = position a → position b' = position b →
  position c' = position c → face_normal a' b' c' = face_normal a b c.
Proof. unfold face_normal. by intros -> -> ->. Qed.

Lemma accumulated_normal_ext (V V' : list Vertex) (ixs : list GLuint)
    (k : nat) :
  Forall2 same_but_normal V V' →
  accumulated_normal V' ixs k = accumulated_normal V ixs k.
Proof.
  intros HV. unfold accumulated_normal, accumulate.
  generalize glm.zero3. induction (triangles ixs) as [|[[i1 i2] i3] tris IH];
    intros acc; simpl; [done|].
  rewrite Forall2_lookup in HV.
  pose proof (HV (Z.to_nat i1)) as R1. pose proof (HV (Z.to_nat i2)) as R2.
  pose proof (HV (Z.to_nat i3)) as R3.
  destruct R1 as [a a' (Ha & _)|]; [|apply IH].
  destruct R2 as [b b' (Hb & _)|]; [|apply IH].
  destruct R3 as [c c' (Hc & _)|]; [|apply IH].
  rewrite (face_normal_ext a b c a' b' c') by done. apply IH.
Qed.

(** X8.  With an index count that fits an [int]: the result of
    [computeNormals] does not depend on the normals and on the has-normals
    flag the model had, and computing the normals of the result again
    returns the result unchanged. *)
Theorem computeNormals_idempotent (m m' : Model) :
  fits_int m → computeNormals m = Ok m' →
  (∀ vs b, Forall2 same_but_normal (m_vertices m) vs →
           computeNormals (with_hasNormals b (with_vertices vs m)) = Ok m')
  ∧ computeNormals m' = Ok m'.
Proof.
  intros Hfit Hc.
  assert (Hinv : mesh_inv m).
  { by eapply computeNormals_Ok_inv. }
  assert (Hgen : ∀ vs b, Forall2 same_but_normal (m_vertices m) vs →
            computeNormals (with_hasNormals b (with_vertices vs m)) = Ok m').
  { intros vs b HV. pose proof (Forall2_length _ _ _ HV) as Hlen.
    destruct (computeNormals_spec m Hinv Hfit) as (vsA & HA & LA & HkA).
    rewrite HA in Hc. injection Hc as <-.
    destruct (computeNormals_spec (with_hasNormals b (with_vertices vs m)))
      as (vsB & HB & LB & HkB).
    { destruct Hinv as [Hr Hm]. split; [|done].
      unfold indices_in_range in *. simpl. by rewrite <- Hlen. }
    { done. }
    rewrite HB. simpl in *. f_equal.
    assert (vsB = vsA) as ->; [|done].
    apply list_eq. intros k.
    destruct (m_vertices m !! k) as [v|] eqn:Ek.
    - destruct (Forall2_lookup_l _ _ _ _ _ HV Ek) as (v' & Ek' & Hvv').
      rewrite (HkA k v Ek), (HkB k v' Ek').
      rewrite (accumulated_normal_ext _ _ _ _ HV).
      destruct Hvv' as (Hp & Ht & Hg). destruct v, v'; simpl in *.
      by rewrite Hp, Ht, Hg.
    - apply lookup_ge_None in Ek.
      rewrite !(proj2 (lookup_ge_None _ _)) by lia. done. }
  split; [exact Hgen|].
  pose proof (computeNormals_writes m m' Hc) as (Hi & Ht & Hs & Hn & HV).
  specialize (Hgen (m_vertices m') true HV).
  replace (with_hasNormals true (with_vertices (m_vertices m') m)) with m'
    in Hgen; [done|].
  destruct Hs as (? & ? & ? & ? & ? & ?).
  destruct m, m'; unfold with_hasNormals, with_vertices; simpl in *.
  congruence.
Qed.

(** ** [standardize] on a mesh without extent *)

Lemma digits2_pos_bound (m : positive) :
  Z.pos m < 2 ^ Z.pos (digits2_pos m).
Proof.
  induction m as [m IH|m IH|]; simpl digits2_pos;
    rewrite ?Pos2Z.inj_succ, ?Z.pow_succ_r by lia; lia.
Qed.

Lemma finite_top_mantissa (s : bool) (m : positive) :
  float_finite (S754_finite s m 104) = true → (m <= 16777215)%positive.
Proof.
  unfold float_finite, valid_binary, bounded, canonical_mantissa, fexp, emin.
  intros [Hc _]%andb_true_iff. apply Z.eqb_eq in Hc.
  assert (Hd : Z.pos (digits2_pos m) = 24).
  { unfold F32.prec, F32.emax in Hc. lia. }
  pose proof (digits2_pos_bound m) as Hb. rewrite Hd in Hb. lia.
Qed.

Lemma finite_exponent (s : bool) (m : positive) (e : Z) :
  float_finite (S754_finite s m e) = true → e ≤ 104.
Proof.
  unfold float_finite, valid_binary, bounded.
  intros [_ He]%andb_true_iff. apply Z.leb_le in He.
  unfold F32.prec, F32.emax in He. lia.
Qed.

Lemma max_lowest (x : float) :
  float_finite x = true → F32.max F32.lowest x = x.
Proof.
  intros Hx. unfold F32.max, F32.ltb, SFltb, F32.lowest.
  destruct x as [s|s| |[] m e]; try done.
  unfold SFcompare. lazy beta iota.
  pose proof (finite_exponent _ _ _ Hx) as He.
  destruct (Z.compare_spec 104 e) as [<-|Hlt|Hgt]; [|lia|done].
  pose proof (finite_top_mantissa _ _ Hx) as Hm.
  rewrite Pos.compare_cont_spec. unfold Pos.switch_Eq.
  destruct (Pos.compare_spec 16777215 m) as [<-|Hlt|Hgt]; simpl;
    [done | lia | done].
Qed.

Lemma min_max_float (x : float) :
  float_finite x = true → F32.min F32.max_float x = x.
Proof.
  intros Hx. unfold F32.min, F32.ltb, SFltb, F32.max_float.
  destruct x as [s|s| |[] m e]; try done.
  unfold SFcompare. lazy beta iota.
  pose proof (finite_exponent _ _ _ Hx) as He.
  destruct (Z.compare_spec e 104) as [->|Hlt|Hgt]; [|done|lia].
  pose proof (finite_top_mantissa _ _ Hx) as Hm.
  rewrite Pos.compare_cont_spec. unfold Pos.switch_Eq.
  destruct (Pos.compare_spec m 16777215) as [->|Hlt|Hgt]; simpl;
    [done | done | lia].
Qed.

Lemma ltb_irrefl (x : float) : F32.ltb x x = false.
Proof.
  unfold F32.ltb, SFltb.
  destruct x as [s|[]| |[] m e]; try done;
    unfold SFcompare; lazy beta iota;
    rewrite Z.compare_refl, Pos.compare_cont_spec, Pos.compare_refl; done.
Qed.

Lemma max_self (x : float) : F32.max x x = x.
Proof. unfold F32.max. by rewrite ltb_irrefl. Qed.

Lemma min_self (x : float) : F32.min x x = x.
Proof. unfold F32.min. by rewrite ltb_irrefl. Qed.

Lemma sub_self (x : float) :
  float_finite x = true → F32.sub x x = F32.zero.
Proof.
  intros Hx. unfold F32.sub, SFsub.
  destruct x as [[]|s| |s m e]; try done.
  rewrite Z.sub_diag. reflexivity.
Qed.

Lemma mul_infinity_unbounded (x : float) :
  float_unbounded (F32.mul x (S754_infinity false)) = true.
Proof. by destruct x. Qed.

Lemma get_bounds_point (vs : list Vertex) (p : vec3) :
  vs ≠ [] → Forall (λ v, position v = p) vs → vec3_finite p = true →
  get_bounds vs = (p, p).
Proof.
  intros Hne Hall Hp. unfold get_bounds.
  destruct vs as [|v vs]; [done|]. clear Hne.
  apply Forall_cons in Hall as [Hv Hall]. simpl. rewrite Hv.
  apply andb_true_iff in Hp as [[Hx Hy]%andb_true_iff Hz].
  rewrite !max_lowest, !min_max_float by done.
  replace (Vec3 (x3 p) (y3 p) (z3 p)) with p by (by destruct p).
  induction Hall as [|u vs Hu _ IH]; [done|]. simpl. rewrite Hu.
  rewrite !max_self, !min_self.
  replace (Vec3 (x3 p) (y3 p) (z3 p)) with p by (by destruct p). exact IH.
Qed.

(** X9.  When the mesh is not empty and all its vertices sit at one point
    with finite coordinates, the bounding box has no extent, the scale
    factor of [standardize] is 2 / 0, and every coordinate of every
    standardized position is a NaN or an infinity. *)
Theorem standardize_without_extent (m : Model) (p : vec3) :
  m_vertices m ≠ [] →
  Forall (λ v, position v = p) (m_vertices m) →
  vec3_finite p = true →
  Forall (λ v, vec3_unbounded (position v) = true)
         (m_vertices (standardize m)).
Proof.
  intros Hne Hall Hp. unfold standardize.
  rewrite (get_bounds_point _ p Hne Hall Hp). lazy beta iota zeta.
  assert (Hs : (F32.two / glm.length (glm.sub3 p p))%f32
               = S754_infinity false).
  { apply andb_true_iff in Hp as [[Hx Hy]%andb_true_iff Hz].
    unfold glm.sub3. by rewrite !sub_self. }
  rewrite Hs, map_fmap. apply Forall_fmap, Forall_forall. intros v _.
  simpl. unfold vec3_unbounded. simpl.
  by rewrite !mul_infinity_unbounded.
Qed.

(** ** Faces without extent in texture space *)

Lemma mul_nan_l (y : float) : F32.mul F32.nan y = F32.nan.
Proof. by destruct y. Qed.
Lemma mul_nan_r (x : float) : F32.mul x F32.nan = F32.nan.
Proof. by destruct x. Qed.
Lemma add_nan_l (y : float) : F32.add F32.nan y = F32.nan.
Proof. by destruct y. Qed.
Lemma add_nan_r (x : float) : F32.add x F32.nan = F32.nan.
Proof. by destruct x. Qed.
Lemma sub_nan_l (y : float) : F32.sub F32.nan y = F32.nan.
Proof. by destruct y. Qed.
Lemma sub_nan_r (x : float) : F32.sub x F32.nan = F32.nan.
Proof. by destruct x. Qed.

Ltac nan_simpl :=
  repeat progress
    rewrite ?mul_nan_l, ?mul_nan_r, ?add_nan_l, ?add_nan_r,
      ?sub_nan_l, ?sub_nan_r.

Lemma face_basis_degenerate (v1 v2 v3 : Vertex) :
  texCoord v2 = texCoord v1 → texCoord v3 = texCoord v1 →
  vec2_finite (texCoord v1) = true →
  face_basis v1 v2 v3 = (Vec4 F32.nan F32.nan F32.nan F32.zero, nan3).
Proof.
  intros E2 E3 [Hs Ht]%andb_true_iff. unfold face_basis, glm.sub2.
  rewrite E2, E3, !sub_self by done. cbv zeta.
  change (F32.one / (F32.zero * F32.zero - F32.zero * F32.zero))%f32
    with (S754_infinity false).
  change (F32.zero * S754_infinity false)%f32 with F32.nan.
  change (- F32.zero * S754_infinity false)%f32 with F32.nan.
  nan_simpl. reflexivity.
Qed.

Lemma add4_nan_absorbs (acc t : vec4) :
  glm.xyz acc = nan3 → glm.xyz (glm.add4 acc t) = nan3.
Proof.
  destruct acc as [x y z w]. unfold glm.xyz, glm.add4, nan3. simpl.
  intros [= -> -> ->]. by nan_simpl.
Qed.

Lemma add4_nan (acc : vec4) (w : float) :
  glm.xyz (glm.add4 acc (Vec4 F32.nan F32.nan F32.nan w)) = nan3.
Proof. unfold glm.xyz, glm.add4, nan3. simpl. by nan_simpl. Qed.

Lemma bump_nan_absorbs (t : vec4) (i : GLuint) (k : nat) (acc : vec4) :
  glm.xyz acc = nan3 → glm.xyz (bump (λ x, glm.add4 x t) i k acc) = nan3.
Proof.
  intros Hacc. unfold bump. case_decide; [|done].
  by apply add4_nan_absorbs.
Qed.

Lemma bump_nan_hit (w : float) (i : GLuint) (k : nat) (acc : vec4) :
  Z.to_nat i = k →
  glm.xyz (bump (λ x, glm.add4 x (Vec4 F32.nan F32.nan F32.nan w)) i k acc)
  = nan3.
Proof. intros Hk. unfold bump. rewrite decide_True by done. apply add4_nan. Qed.

Lemma accumulated_tangent_nan_absorbs (V : list Vertex)
    (tris : list (GLuint * GLuint * GLuint)) (k : nat) (acc : vec4) :
  glm.xyz acc = nan3 →
  glm.xyz (accumulate V
             (λ v1 v2 v3 x, glm.add4 x (fst (face_basis v1 v2 v3)))
             tris k acc) = nan3.
Proof.
  unfold accumulate. revert acc.
  induction tris as [|[[i1 i2] i3] tris IH]; intros acc Hacc; simpl; [done|].
  apply IH.
  destruct (V !! Z.to_nat i1), (V !! Z.to_nat i2), (V !! Z.to_nat i3);
    try done.
  by do 3 apply bump_nan_absorbs.
Qed.

Lemma accumulated_tangent_degenerate (V : list Vertex)
    (tris : list (GLuint * GLuint * GLuint)) (k : nat) (acc : vec4)
    (i1 i2 i3 : GLuint) (v1 v2 v3 : Vertex) :
  (i1, i2, i3) ∈ tris →
  V !! Z.to_nat i1 = Some v1 → V !! Z.to_nat i2 = Some v2 →
  V !! Z.to_nat i3 = Some v3 →
  texCoord v2 = texCoord v1 → texCoord v3 = texCoord v1 →
  vec2_finite (texCoord v1) = true →
  k ∈ [Z.to_nat i1; Z.to_nat i2; Z.to_nat i3] →
  glm.xyz (accumulate V
             (λ v1 v2 v3 x, glm.add4 x (fst (face_basis v1 v2 v3)))
             tris k acc) = nan3.
Proof.
  intros Hin E1 E2 E3 T2 T3 Hf Hk. revert acc.
  induction tris as [|tri tris IH]; intros acc;
    [by apply elem_of_nil in Hin|].
  apply elem_of_cons in Hin as [<-|Hin]; [|by apply IH].
  unfold accumulate. cbn [fold_left]. rewrite E1, E2, E3.
  apply accumulated_tangent_nan_absorbs.
  rewrite (face_basis_degenerate v1 v2 v3 T2 T3 Hf). cbn [fst].
  apply elem_of_cons in Hk as [->|Hk].
  { do 2 apply bump_nan_absorbs. by apply bump_nan_hit. }
  apply elem_of_cons in Hk as [->|Hk].
  { apply bump_nan_absorbs. by apply bump_nan_hit. }
  apply elem_of_cons in Hk as [->|Hk]; [|by apply elem_of_nil in Hk].
  by apply bump_nan_hit.
Qed.

Lemma orthogonalize_nan (v : Vertex) (t : vec4) (b : vec3) :
  glm.xyz t = nan3 →
  tangent (orthogonalize (set_tangent v t) b)
  = Vec4 F32.nan F32.nan F32.nan F32.one.
Proof.
  intros Ht. unfold orthogonalize. simpl. rewrite Ht.
  unfold glm.vec4_of, glm.normalize, glm.scale3, glm.sub3, glm.dot,
    glm.cross, nan3. simpl.
  nan_simpl. reflexivity.
Qed.

(** X10.  The determinant of a face is divided by without a guard: on a
    mesh that satisfies the invariant, every vertex that is a corner of a
    face whose three corners carry the same finite texture coordinate ends
    up with the tangent (NaN, NaN, NaN, 1), whatever the other faces
    contribute. *)
Theorem computeTangents_degenerate_face (m : Model) :
  mesh_inv m → fits_int m →
  ∃ m', computeTangents m = Ok m'
    ∧ ∀ f i1 i2 i3 v1 v2 v3 k v',
        triangles (m_indices m) !! f = Some (i1, i2, i3) →
        m_vertices m !! Z.to_nat i1 = Some v1 →
        m_vertices m !! Z.to_nat i2 = Some v2 →
        m_vertices m !! Z.to_nat i3 = Some v3 →
        texCoord v2 = texCoord v1 → texCoord v3 = texCoord v1 →
        vec2_finite (texCoord v1) = true →
        k ∈ [Z.to_nat i1; Z.to_nat i2; Z.to_nat i3] →
        m_vertices m' !! k = Some v' →
        tangent v' = Vec4 F32.nan F32.nan F32.nan F32.one.
Proof.
  intros Hinv Hfit.
  destruct (computeTangents_spec m Hinv Hfit) as (vs & Hc & Hlen & Hvs).
  eexists. split; [exact Hc|].
  intros f i1 i2 i3 v1 v2 v3 k v' Hf E1 E2 E3 T2 T3 Hfin Hk Hv'.
  simpl in Hv'.
  destruct (lookup_lt_is_Some_2 (m_vertices m) k) as (v & Hv).
  { apply lookup_lt_Some in Hv'. lia. }
  rewrite (Hvs k v Hv) in Hv'. injection Hv' as <-.
  apply orthogonalize_nan. unfold accumulated_tangent.
  apply (accumulated_tangent_degenerate _ _ k _ i1 i2 i3 v1 v2 v3);
    try done.
  by eapply list_elem_of_lookup_2.
Qed.

(** ** The load, step by step *)

Section load_more.
Context `{H3 : Hash vec3} `{H2 : Hash vec2}.

(** X11.  What a load that returned keeps from the file, vertex by
    vertex against the mesh the build produced: the indices and the
    texture coordinates always; the normals when some corner supplied a
    normal (so a vertex assembled without one keeps the zero normal);
    the positions when the caller did not ask to standardize; and the
    zero tangents when no corner supplied a texture coordinate. *)
Theorem load_keeps_file_attributes (bc : positive) (w : World)
    (path : string) (flag : bool) (m0 m : Model) (log : list Step) :
  loadFromFile bc w path flag m0 = Ok (m, log) →
  let cs := corners (GetShapes (load_reader w path)) in
  ∃ m1, buildVertexIndex bc (GetAttrib (load_reader w path))
          (GetShapes (load_reader w path)) m0 = Ok m1
    ∧ m_indices m = m_indices m1
    ∧ Forall2 (λ v v',
         texCoord v' = texCoord v
         ∧ (existsb supplies_normal cs = true → normal v' = normal v)
         ∧ (flag = false → position v' = position v)
         ∧ (existsb supplies_texcoord cs = false →
            tangent v' = tangent v ∧ tangent v' = glm.zero4))
        (m_vertices m1) (m_vertices m).
Proof.
  intros (_ & m1 & m2 & m4 & Hb & Hr & Hn & Ht)%loadFromFile_anatomy cs.
  exists m1. split; [done|].
  pose proof Hb as Hb'. rewrite buildVertexIndex_model in Hb'.
  destruct (build_model_mesh _ _ _ _ Hb') as (_ & _ & HN & HT & _).
  apply resolveMaterial_inv in Hr as ((HV2 & HI2 & HN2 & HT2) & _).
  fold cs in HN, HT. rewrite HN in HN2. rewrite HT in HT2.
  set (R := λ v v' : Vertex,
         texCoord v' = texCoord v
         ∧ (existsb supplies_normal cs = true → normal v' = normal v)
         ∧ (flag = false → position v' = position v)
         ∧ (existsb supplies_texcoord cs = false → tangent v' = tangent v)).
  assert (Hgoal : m_indices m = m_indices m1
                  ∧ Forall2 R (m_vertices m1) (m_vertices m)).
  { set (m3 := if flag then standardize m2 else m2) in *.
    assert (H3' : m_indices m3 = m_indices m1
                  ∧ m_hasNormals m3 = existsb supplies_normal cs
                  ∧ m_hasTexCoords m3 = existsb supplies_texcoord cs
                  ∧ Forall2 R (m_vertices m1) (m_vertices m3)).
    { unfold m3. destruct flag.
      - destruct (standardize_writes m2) as ((Hi & Hn' & Ht' & _) & HV).
        rewrite Hi, Hn', Ht', HI2, HN2, HT2. repeat split.
        rewrite <- HV2. eapply Forall2_impl; [exact HV|].
        intros v v' (? & ? & ?). by repeat split.
      - rewrite HI2, HN2, HT2, HV2. repeat split.
        apply Forall_Forall2_diag. apply Forall_forall.
        intros v Hv. subst R. cbv beta. repeat split; done. }
    destruct H3' as (Hi3 & Hn3 & Ht3 & HR3).
    assert (H4' : m_indices m4 = m_indices m1
                  ∧ m_hasTexCoords m4 = existsb supplies_texcoord cs
                  ∧ Forall2 R (m_vertices m1) (m_vertices m4)).
    { rewrite Hn3 in Hn. destruct (existsb supplies_normal cs) eqn:EN.
      - subst m4. by rewrite Hi3, Ht3.
      - apply computeNormals_writes in Hn as (Hi & Ht' & _ & _ & HV).
        rewrite Hi, Ht', Hi3, Ht3. repeat split.
        eapply Forall2_trans; [|exact HR3|exact HV].
        intros a b c (? & ? & ? & ?) (? & ? & ?).
        repeat split; intros; try done; etrans; eauto. }
    destruct H4' as (Hi4 & Ht4 & HR4). rewrite Ht4 in Ht.
    destruct (existsb supplies_texcoord cs) eqn:ET.
    - apply computeTangents_writes in Ht as ((Hi & _) & HV).
      rewrite Hi, Hi4. split; [done|].
      eapply Forall2_trans; [|exact HR4|exact HV].
      intros a b c (? & ? & ? & ?) (? & ? & ?).
      repeat split; intros; try done; etrans; eauto.
    - by subst m. }
  destruct Hgoal as [Hi HR]. split; [done|].
  unfold build_model in Hb'.
  apply bind_Ok_inv in Hb' as (vs & Hvs & [= <-]).
  apply Forall2_same_length_lookup. split; [by eapply Forall2_length|].
  intros k v v' Hv Hv'.
  pose proof (Forall2_lookup_lr _ _ _ _ _ _ HR Hv Hv')
    as (Htc & Hnn & Hpp & Htt).
  cbv beta. split; [exact Htc|]. split; [exact Hnn|]. split; [exact Hpp|].
  intros E. rewrite (Htt E). split; [done|].
  simpl in Hv. destruct (dedup_spec vs) as (HU & _ & _).
  rewrite HU in Hv.
  apply list_elem_of_lookup_2, first_occurrences_elem,
    list_elem_of_lookup in Hv as (i & Hi').
  apply mapR_Ok_Forall2 in Hvs.
  destruct (Forall2_lookup_r _ _ _ _ _ Hvs Hi') as (c & _ & Hc).
  by apply assemble_tangent in Hc.
Qed.
End load_more.

(** ** Textures and exceptions of a load *)

Lemma bind_Throw_inv {A B} (f : A → result B) (r : result A)
    (e : exception) :
  (r ≫= f) = Throw e → r = Throw e ∨ ∃ a, r = Ok a ∧ f a = Throw e.
Proof. destruct r as [a|e']; simpl; [eauto | intros [= <-]; by left]. Qed.

Lemma run_Throw (s : Step) (f : Model → result Model)
    (st : Model * list Step) (e : exception) :
  run s f st = Throw e → f (fst st) = Throw e.
Proof. unfold run. destruct (f (fst st)); simpl; congruence. Qed.

Lemma loadDiffuseTexture_Throw (w : World) (p : string) (m : Model)
    (e : exception) :
  loadDiffuseTexture w p m = Throw e →
  fs_exists w p = Throw e
  ∨ (fs_exists w p = Ok true ∧ loadTexture w p = Throw e).
Proof.
  unfold loadDiffuseTexture.
  destruct (fs_exists w p) as [[|]|e']; simpl; [|done|intros [= ->]; by left].
  destruct (loadTexture w p); simpl; [done|]. intros [= ->]. by right.
Qed.

Lemma loadNormalTexture_Throw (w : World) (p : string) (m : Model)
    (e : exception) :
  loadNormalTexture w p m = Throw e →
  fs_exists w p = Throw e
  ∨ (fs_exists w p = Ok true ∧ loadTexture w p = Throw e).
Proof.
  unfold loadNormalTexture.
  destruct (fs_exists w p) as [[|]|e']; simpl; [|done|intros [= ->]; by left].
  destruct (loadTexture w p); simpl; [done|]. intros [= ->]. by right.
Qed.

Lemma resolveMaterial_Throw (w : World) (basePath : string)
    (materials : list material_t) (m : Model) (e : exception) :
  resolveMaterial w basePath materials m = Throw e →
  ∃ mat p,
    head materials = Some mat
    ∧ ((empty (diffuse_texname mat) = false
        ∧ p = basePath +:+ diffuse_texname mat)
       ∨ (empty (normal_map_name mat) = false
          ∧ p = basePath +:+ normal_map_name mat))
    ∧ (fs_exists w p = Throw e
       ∨ (fs_exists w p = Ok true ∧ loadTexture w p = Throw e)).
Proof.
  unfold resolveMaterial, normal_map_name.
  destruct materials as [|mat rest]; [done|].
  intros [Hd|(m1 & _ & Hn)]%bind_Throw_inv.
  - destruct (empty (diffuse_texname mat)) eqn:Ed; [done|].
    apply loadDiffuseTexture_Throw in Hd.
    exists mat, (basePath +:+ diffuse_texname mat).
    split; [done|]. split; [left; by split | done].
  - destruct (empty (normal_texname mat)) eqn:En; cbn [negb] in *.
    + destruct (empty (bump_texname mat)) eqn:Eb; [done|]. cbn [negb] in Hn.
      apply loadNormalTexture_Throw in Hn.
      exists mat, (basePath +:+ bump_texname mat). rewrite En. cbn [negb].
      split; [done|]. split; [right; by split | done].
    + apply loadNormalTexture_Throw in Hn.
      exists mat, (basePath +:+ normal_texname mat). rewrite En. cbn [negb].
      split; [done|]. split; [right; by split | done].
Qed.

Lemma resolveMaterial_textures (w : World) (basePath : string)
    (mat : material_t) (rest : list material_t) (m m' : Model) :
  resolveMaterial w basePath (mat :: rest) m = Ok m' →
  (if negb (empty (diffuse_texname mat))
      && file_found w (basePath +:+ diffuse_texname mat)
   then loadTexture w (basePath +:+ diffuse_texname mat)
        = Ok (m_diffuseTexture m')
   else m_diffuseTexture m' = m_diffuseTexture m)
  ∧ (if negb (empty (normal_map_name mat))
        && file_found w (basePath +:+ normal_map_name mat)
     then loadTexture w (basePath +:+ normal_map_name mat)
          = Ok (m_normalTexture m')
     else m_normalTexture m' = m_normalTexture m).
Proof.
  unfold resolveMaterial, normal_map_name. intros Hr.
  apply bind_Ok_inv in Hr as (m1 & Hd & Hn).
  set (ma := with_material _ _ _ _ m) in *.
  assert (Hdiff : (if negb (empty (diffuse_texname mat))
             && file_found w (basePath +:+ diffuse_texname mat)
          then loadTexture w (basePath +:+ diffuse_texname mat)
               = Ok (m_diffuseTexture m1)
          else m_diffuseTexture m1 = m_diffuseTexture m)
          ∧ m_normalTexture m1 = m_normalTexture m).
  { unfold file_found.
    destruct (negb (empty (diffuse_texname mat))); cbn [andb].
    - apply loadDiffuseTexture_inv in Hd as [[-> ->]|(-> & t & Ht & ->)];
        by split.
    - by injection Hd as <-. }
  destruct Hdiff as [Hdiff Hnorm].
  assert (Hnm : m_diffuseTexture m' = m_diffuseTexture m1
          ∧ (if negb (empty (if negb (empty (normal_texname mat))
                             then normal_texname mat else bump_texname mat))
                && file_found w (basePath +:+
                     (if negb (empty (normal_texname mat))
                      then normal_texname mat else bump_texname mat))
             then loadTexture w (basePath +:+
                    (if negb (empty (normal_texname mat))
                     then normal_texname mat else bump_texname mat))
                  = Ok (m_normalTexture m')
             else m_normalTexture m' = m_normalTexture m1)).
  { unfold file_found.
    destruct (negb (empty (normal_texname mat))) eqn:En; cbn [andb].
    - rewrite En. cbn [andb].
      apply loadNormalTexture_inv in Hn as [[-> ->]|(-> & t & Ht & ->)];
        by split.
    - destruct (negb (empty (bump_texname mat))) eqn:Eb; cbn [andb].
      + apply loadNormalTexture_inv in Hn as [[-> ->]|(-> & t & Ht & ->)];
          by split.
      + by injection Hn as <-. }
  destruct Hnm as [Hd' Hn']. rewrite Hd'. split; [done|].
  match goal with |- if ?c then _ else _ => destruct c end;
    [done | congruence].
Qed.

Section load_textures.
Context `{H3 : Hash vec3} `{H2 : Hash vec2}.

(** X12.  The texture handles after a load that returned.  The diffuse
    handle is what the decoder gave for the first material's diffuse
    texture when that material names one and the file exists; the
    normal-map handle is what the decoder gave for the first material's
    normal map, or for its bump map when it names no normal map, when
    that file exists.  In every other case (no material, no name, file
    missing) the handle is the one the model had before the load: a load
    never clears a handle, and a normal map that is named but missing
    does not fall back to the bump map. *)
Theorem load_texture_handles (bc : positive) (w : World) (path : string)
    (flag : bool) (m0 m : Model) (log : list Step) :
  loadFromFile bc w path flag m0 = Ok (m, log) →
  match GetMaterials (load_reader w path) with
  | [] =>
      m_diffuseTexture m = m_diffuseTexture m0
      ∧ m_normalTexture m = m_normalTexture m0
  | mat :: _ =>
      (if negb (empty (diffuse_texname mat))
          && file_found w (load_basePath w path +:+ diffuse_texname mat)
       then loadTexture w (load_basePath w path +:+ diffuse_texname mat)
            = Ok (m_diffuseTexture m)
       else m_diffuseTexture m = m_diffuseTexture m0)
      ∧ (if negb (empty (normal_map_name mat))
            && file_found w (load_basePath w path +:+ normal_map_name mat)
         then loadTexture w (load_basePath w path +:+ normal_map_name mat)
              = Ok (m_normalTexture m)
         else m_normalTexture m = m_normalTexture m0)
  end.
Proof.
  intros (_ & m1 & m2 & vs & Hb & Hr & -> & _ & _)%loadFromFile_inv.
  destruct (build_model_mesh _ _ _ _ Hb)
    as (_ & _ & _ & _ & _ & _ & _ & _ & Hd0 & Hn0).
  simpl. rewrite <- Hd0, <- Hn0.
  destruct (GetMaterials (load_reader w path)) as [|mat rest].
  - apply resolveMaterial_inv in Hr as [_ ->]. done.
  - by apply resolveMaterial_textures in Hr.
Qed.

(** X13.  The exceptions of a load.  When the parse is not valid the
    load throws a runtime error whose message is [Failed to load model]
    followed by the path and, when the parser gave an error text, that
    text in parentheses.  When the parse is valid, a load that throws
    throws [out_of_range], or what [std::filesystem::exists] threw for
    a texture file the first material names, or what the decoder threw
    for such a file that exists; it throws nothing else. *)
Theorem load_exceptions (bc : positive) (w : World) (path : string)
    (flag : bool) (m0 : Model) :
  (Valid (load_reader w path) = false →
   loadFromFile bc w path flag m0
   = Throw (Runtime
       (if empty (Error (load_reader w path))
        then "Failed to load model " +:+ path
        else "Failed to load model " +:+ path +:+ " ("
             +:+ Error (load_reader w path) +:+ ")")))
  ∧ (Valid (load_reader w path) = true →
     ∀ e, loadFromFile bc w path flag m0 = Throw e →
          e = out_of_range
          ∨ ∃ mat p,
              head (GetMaterials (load_reader w path)) = Some mat
              ∧ ((empty (diffuse_texname mat) = false
                  ∧ p = load_basePath w path +:+ diffuse_texname mat)
                 ∨ (empty (normal_map_name mat) = false
                    ∧ p = load_basePath w path +:+ normal_map_name mat))
              ∧ (fs_exists w p = Throw e
                 ∨ (fs_exists w p = Ok true
                    ∧ loadTexture w p = Throw e))).
Proof.
  unfold loadFromFile. cbv zeta. split; intros EV; rewrite EV; cbn [negb].
  - by destruct (empty (Error (load_reader w path))).
  - intros e He.
    apply bind_Throw_inv in He as [He|(st1 & _ & He)].
    { apply run_Throw in He. cbn [fst] in He.
      left. by eapply build_Throw. }
    apply bind_Throw_inv in He as [He|(st2 & _ & He)].
    { apply run_Throw, resolveMaterial_Throw in He. by right. }
    apply bind_Throw_inv in He as [He|(st3 & _ & He)].
    { destruct flag; [|done]. by apply run_Throw in He. }
    apply bind_Throw_inv in He as [He|(st4 & _ & He)].
    { destruct (negb (m_hasNormals (fst st3))); [|done].
      apply run_Throw, computeNormals_Throw in He. by left. }
    apply bind_Throw_inv in He as [He|(st5 & _ & He)].
    { destruct (m_hasTexCoords (fst st4)); [|done].
      apply run_Throw, computeTangents_Throw in He. by left. }
    by apply run_Throw in He.
Qed.
End load_textures.

Section load_returns.
Context `{H3 : Hash vec3} `{H2 : Hash vec2}.

(** A load of data in which some corner has a normal and none has a
    texture coordinate runs no face loop. *)
Lemma loadFromFile_no_faces (bc : positive) (w : World) (path : string)
    (flag : bool) (m0 : Model) :
  Valid (load_reader w path) = true →
  textures_load w (load_basePath w path)
    (GetMaterials (load_reader w path)) →
  forallb (corner_in_range (GetAttrib (load_reader w path)))
    (corners (GetShapes (load_reader w path))) = true →
  existsb supplies_normal (corners (GetShapes (load_reader w path)))
  = true →
  existsb supplies_texcoord (corners (GetShapes (load_reader w path)))
  = false →
  is_Ok (loadFromFile bc w path flag m0).
Proof.
  intros EV Hdec Hall EN ET.
  unfold loadFromFile. cbv zeta. rewrite EV. cbn [negb].
  pose proof (build_outcome bc (GetAttrib (load_reader w path))
                (GetShapes (load_reader w path)) m0) as Hb.
  rewrite Hall in Hb. destruct Hb as (m1 & Hb).
  pose proof Hb as Hb'. rewrite buildVertexIndex_model in Hb'.
  destruct (build_model_mesh _ _ _ _ Hb') as (_ & _ & HN & HT & _).
  destruct (resolveMaterial_ok w (load_basePath w path)
              (GetMaterials (load_reader w path)) m1 Hdec) as (m2 & Hr).
  destruct (resolveMaterial_inv _ _ _ _ _ Hr) as ((_ & _ & HN2 & HT2) & _).
  rewrite HN, EN in HN2. rewrite HT, ET in HT2.
  eapply bind_is_Ok. { unfold run. cbn [fst snd]. by rewrite Hb. }
  eapply bind_is_Ok. { unfold run. cbn [fst snd]. by rewrite Hr. }
  destruct (standardize_writes m2) as ((_ & HN3 & HT3 & _) & _).
  rewrite HN2 in HN3. rewrite HT2 in HT3.
  set (st3 := if flag
              then (standardize m2,
                    ([] ++ [BuildVertexIndex]) ++ [ResolveMaterial]
                    ++ [Standardize])
              else (m2, ([] ++ [BuildVertexIndex]) ++ [ResolveMaterial])).
  assert (Hflag : m_hasNormals (fst st3) = true
                  ∧ m_hasTexCoords (fst st3) = false).
  { unfold st3. by destruct flag. }
  destruct Hflag as [HN4 HT4].
  eapply (bind_is_Ok _ _ st3).
  { unfold st3. destruct flag; [|done]. unfold run. cbn [fst snd].
    cbn [mbind result_bind]. by rewrite <- app_assoc. }
  eapply (bind_is_Ok _ _ st3). { by rewrite HN4. }
  eapply (bind_is_Ok _ _ st3). { by rewrite HT4. }
  unfold run, is_Ok. simpl. eauto.
Qed.

(** X14.  For a valid parse whose corner count fits an [int], the load
    returns exactly when the attribute entries every corner reads
    exist, the textures the first material names load (each file is
    reported missing, or reported present and decoded), and, if a face
    loop will run (no corner has a normal, or some corner has a texture
    coordinate), the corner count is a multiple of 3. *)
Theorem load_returns_iff (bc : positive) (w : World) (path : string)
    (flag : bool) (m0 : Model) :
  Valid (load_reader w path) = true →
  let attrib := GetAttrib (load_reader w path) in
  let cs := corners (GetShapes (load_reader w path)) in
  Z.of_nat (length cs) < 2 ^ 31 →
  (is_Ok (loadFromFile bc w path flag m0)
   ↔ forallb (corner_in_range attrib) cs = true
     ∧ textures_load w (load_basePath w path)
         (GetMaterials (load_reader w path))
     ∧ (negb (existsb supplies_normal cs) || existsb supplies_texcoord cs
        = true → (length cs mod 3 = 0)%nat)).
Proof.
  intros EV attrib cs Hfit. split.
  - intros ([m log] & Hl).
    apply loadFromFile_anatomy in Hl
      as (_ & m1 & m2 & m4 & Hb & Hr & Hn & Ht).
    pose proof (build_outcome bc attrib (GetShapes (load_reader w path)) m0)
      as Hall.
    fold cs in Hall. destruct (forallb (corner_in_range attrib) cs);
      [|unfold attrib in Hall; congruence].
    split; [done|].
    split; [eapply resolveMaterial_loads; by eexists|].
    pose proof Hb as Hb'. rewrite buildVertexIndex_model in Hb'.
    destruct (build_model_mesh _ _ _ _ Hb') as (_ & HL & HN & HT & _).
    fold cs in HL, HN, HT.
    apply resolveMaterial_inv in Hr as ((_ & HI2 & HN2 & HT2) & _).
    set (m3 := if flag then standardize m2 else m2) in *.
    assert (Hm3 : m_indices m3 = m_indices m1
                  ∧ m_hasNormals m3 = existsb supplies_normal cs
                  ∧ m_hasTexCoords m3 = existsb supplies_texcoord cs).
    { unfold m3. destruct flag; [|by rewrite HI2, HN2, HT2, HN, HT].
      destruct (standardize_writes m2) as ((-> & -> & -> & _) & _).
      by rewrite HI2, HN2, HT2, HN, HT. }
    destruct Hm3 as (HI3 & HN3 & HT3). rewrite HN3 in Hn.
    assert (Hmesh : ∀ m', m_indices m' = m_indices m1 → mesh_inv m' →
                          (length cs mod 3 = 0)%nat).
    { intros m' Hi [_ Hm]. by rewrite Hi, HL in Hm. }
    assert (Hfits : ∀ m', m_indices m' = m_indices m1 → fits_int m').
    { intros m' Hi. unfold fits_int. by rewrite Hi, HL. }
    destruct (existsb supplies_normal cs) eqn:EN; cbn [negb orb].
    + subst m4. rewrite HT3 in Ht. intros ET. rewrite ET in Ht.
      apply (Hmesh m3 HI3). eapply computeTangents_Ok_inv; [|exact Ht].
      by apply Hfits.
    + intros _. apply (Hmesh m3 HI3).
      eapply computeNormals_Ok_inv; [|exact Hn]. by apply Hfits.
  - intros (Hall & Hdec & Hmod).
    destruct (existsb supplies_normal cs) eqn:EN;
      [destruct (existsb supplies_texcoord cs) eqn:ET|];
      cbn [negb orb] in Hmod.
    + apply loadFromFile_ok; try done; [|by apply Hmod].
      pose proof (mapR_cases (assemble attrib) (corner_in_range attrib)
                    cs (assemble_cases attrib)) as Hc.
      by rewrite Hall in Hc.
    + by apply loadFromFile_no_faces.
    + apply loadFromFile_ok; try done; [|by apply Hmod].
      pose proof (mapR_cases (assemble attrib) (corner_in_range attrib)
                    cs (assemble_cases attrib)) as Hc.
      by rewrite Hall in Hc.
Qed.

(** X15.  The build sees the shapes only through the concatenation of
    their index lists: two parses with the same attributes whose shapes
    concatenate to the same corner sequence build the same mesh. *)
Theorem build_ignores_shape_boundaries (bc bc' : positive)
    (attrib : attrib_t) (shapes shapes' : list shape_t) (m0 : Model) :
  corners shapes = corners shapes' →
  buildVertexIndex bc attrib shapes m0
  = buildVertexIndex bc' attrib shapes' m0.
Proof.
  intros Hc. rewrite !buildVertexIndex_model. unfold build_model.
  by rewrite Hc.
Qed.
End load_returns.

(** ** The draw count of [render] *)

(** X16.  On a mesh that satisfies the invariant with an index count that
    fits an [int]: a negative triangle count draws every index; a count
    from 0 whose triple fits an [int] draws three indices per triangle,
    which stay within the index sequence exactly when the count is at
    most the number of triangles of the mesh, since the count is not
    clamped. *)
Theorem render_draw_count (m : Model) (numTriangles : Z) :
  mesh_inv m → fits_int m →
  let T := Z.of_nat (length (triangles (m_indices m))) in
  let n := Z.of_nat (length (m_indices m)) in
  (numTriangles < 0 → render_numIndices m numTriangles = n)
  ∧ (0 ≤ numTriangles → 3 * numTriangles < 2 ^ 31 →
     render_numIndices m numTriangles = 3 * numTriangles
     ∧ (render_numIndices m numTriangles ≤ n ↔ numTriangles ≤ T))
  ∧ n = 3 * T.
Proof.
  intros [_ Hmod] Hfit T n. unfold render_numIndices.
  assert (Hn : n = 3 * T).
  { unfold n, T. rewrite triangles_length.
    apply Nat.Div0.div_exact in Hmod. lia. }
  split; [|split; [|done]].
  - intros Hneg. destruct (Z.ltb_spec numTriangles 0); [|lia].
    by apply int_of_size_small.
  - intros Hpos _. destruct (Z.ltb_spec numTriangles 0); lia.
Qed.

(** ** The further properties at sample inputs *)

(** A position index whose triple overflows an [int]: the product wraps
    to 2, the corner reads the floats 2, 3 and 4, and the build returns,
    although the index taken as a number is far outside the array. *)
Example assemble_wraps :
  assemble (mkAttrib (F32.of_Z <$> [0; 1; 2; 3; 4]) [] [])
    (mkIndex 1431655766 (-1) (-1))
  = Ok (mkVertex (Vec3 (F32.of_Z 2) (F32.of_Z 3) (F32.of_Z 4))
          glm.zero3 glm.zero2 glm.zero4)
  ∧ corner_addresses (mkAttrib (F32.of_Z <$> [0; 1; 2; 3; 4]) [] [])
      (mkIndex 1431655766 (-1) (-1)) = false.
Proof. by vm_compute. Qed.

(** When the status of the texture file cannot be determined, the load
    throws what [std::filesystem::exists] threw. *)
Example load_status_error :
  loadFromFile (H3:=sample.h3) (H2:=sample.h2) 3
    (sample_more.unreadable_world [sample.plain]) "assets/quad.obj" true
    sample.blank
  = Throw (filesystem_error "File name too long").
Proof. by vm_compute. Qed.

Lemma build_returns_iff_witness :
  is_Ok (buildVertexIndex (H3:=sample.h3) (H2:=sample.h2) 3
           sample.quad_attrib sample.quad_shapes sample.blank).
Proof.
  apply (proj1 (build_returns_iff (H3:=sample.h3) (H2:=sample.h2) 3
                  sample.quad_attrib sample.quad_shapes sample.blank)).
  reflexivity.
Defined.

Lemma build_compact_witness :
  (length (m_vertices sample_more.quad_built)
   ≤ length (m_indices sample_more.quad_built))%nat.
Proof.
  destruct (build_compact (H3:=sample.h3) (H2:=sample.h2) 3
              sample.quad_attrib sample.quad_shapes sample.blank
              sample_more.quad_built) as (_ & Hle & _).
  - vm_compute. reflexivity.
  - exact Hle.
Defined.

Lemma build_replaces_mesh_witness :
  buildVertexIndex (H3:=sample.h3) (H2:=sample.h2) 5
    sample.quad_attrib sample.quad_shapes sample_more.quad_built
  = Ok sample_more.quad_built.
Proof.
  destruct (build_replaces_mesh (H3:=sample.h3) (H2:=sample.h2) 3
              sample.quad_attrib sample.quad_shapes sample.blank
              sample_more.quad_built) as (_ & _ & Hfix).
  - vm_compute. reflexivity.
  - apply Hfix.
Defined.

Lemma computeNormals_returns_iff_witness :
  is_Ok (computeNormals sample.triangle).
Proof.
  apply (proj1 (computeNormals_returns_iff sample.triangle
                  sample_triangle_fits)).
  apply sample_triangle_inv.
Defined.

Lemma computeTangents_returns_iff_witness :
  is_Ok (computeTangents sample.triangle).
Proof.
  apply (proj1 (computeTangents_returns_iff sample.triangle
                  sample_triangle_fits)).
  apply sample_triangle_inv.
Defined.

Lemma mesh_operations_write_one_field_witness :
  m_indices sample_more.triangle_normals = m_indices sample.triangle.
Proof.
  destruct (mesh_operations_write_one_field sample.triangle) as (Hn & _).
  destruct (Hn sample_more.triangle_normals) as (Hi & _).
  - vm_compute. reflexivity.
  - exact Hi.
Defined.

Lemma computeNormals_idempotent_witness :
  computeNormals sample_more.triangle_normals
  = Ok sample_more.triangle_normals.
Proof.
  destruct (computeNormals_idempotent sample.triangle
              sample_more.triangle_normals sample_triangle_fits)
    as (_ & Hfix).
  - vm_compute. reflexivity.
  - exact Hfix.
Defined.

Lemma standardize_without_extent_witness :
  Forall (λ v, vec3_unbounded (position v) = true)
    (m_vertices (standardize sample_more.point)).
Proof.
  apply (standardize_without_extent sample_more.point
           (Vec3 (F32.of_Z 1) (F32.of_Z 2) (F32.of_Z 3))).
  - discriminate.
  - repeat constructor.
  - reflexivity.
Defined.

Lemma computeTangents_degenerate_face_witness :
  ∃ m', computeTangents sample.triangle = Ok m'
        ∧ ∀ v', m_vertices m' !! 1%nat = Some v'
                → tangent v' = Vec4 F32.nan F32.nan F32.nan F32.one.
Proof.
  destruct (computeTangents_degenerate_face sample.triangle
              sample_triangle_inv sample_triangle_fits) as (m' & Hm' & Hd).
  exists m'. split; [exact Hm'|]. intros v' Hv'.
  apply (Hd 0%nat 0 1 2 (sample.vertex_at 0 0 0) (sample.vertex_at 1 0 0)
            (sample.vertex_at 0 1 0) 1%nat v');
    try reflexivity; [|exact Hv'].
  right. left.
Defined.

Lemma load_keeps_file_attributes_witness :
  ∃ m1, buildVertexIndex (H3:=sample.h3) (H2:=sample.h2) 3
          sample.quad_attrib sample.quad_shapes sample.blank = Ok m1
        ∧ m_indices (fst (sample.loaded [])) = m_indices m1.
Proof.
  destruct (load_keeps_file_attributes (H3:=sample.h3) (H2:=sample.h2) 3
              (sample.world []) "assets/quad.obj" true sample.blank
              (fst (sample.loaded [])) (snd (sample.loaded [])))
    as (m1 & Hb & Hi & _).
  - vm_compute. reflexivity.
  - exists m1. split; [exact Hb | exact Hi].
Defined.

Lemma load_texture_handles_witness :
  m_diffuseTexture (fst (sample.loaded [sample.plain])) = 0
  ∧ m_normalTexture (fst (sample.loaded [sample.plain])) = 0.
Proof.
  apply (load_texture_handles (H3:=sample.h3) (H2:=sample.h2) 3
           (sample.world [sample.plain]) "assets/quad.obj" true sample.blank
           (fst (sample.loaded [sample.plain]))
           (snd (sample.loaded [sample.plain]))).
  vm_compute. reflexivity.
Defined.

Lemma load_exceptions_witness :
  ∃ msg, loadFromFile (H3:=sample.h3) (H2:=sample.h2) 3
           sample_more.failing_world "assets/none.obj" true sample.blank
         = Throw (Runtime msg).
Proof.
  eexists.
  apply (proj1 (load_exceptions (H3:=sample.h3) (H2:=sample.h2) 3
                  sample_more.failing_world "assets/none.obj" true
                  sample.blank)).
  reflexivity.
Defined.

Lemma load_returns_iff_witness :
  is_Ok (loadFromFile (H3:=sample.h3) (H2:=sample.h2) 3
           (sample.world []) "assets/quad.obj" true sample.blank).
Proof.
  apply (proj2 (load_returns_iff (H3:=sample.h3) (H2:=sample.h2) 3
                  (sample.world []) "assets/quad.obj" true sample.blank
                  eq_refl eq_refl)).
  split; [|split].
  - reflexivity.
  - exact I.
  - intros _. reflexivity.
Defined.

Lemma build_ignores_shape_boundaries_witness :
  buildVertexIndex (H3:=sample.h3) (H2:=sample.h2) 3
    sample.quad_attrib sample.quad_shapes sample.blank
  = buildVertexIndex (H3:=sample.h3) (H2:=sample.h2) 7
      sample.quad_attrib sample_more.quad_two_shapes sample.blank.
Proof.
  apply (build_ignores_shape_boundaries (H3:=sample.h3) (H2:=sample.h2)).
  reflexivity.
Defined.

Lemma render_draw_count_witness :
  render_numIndices sample.triangle (-1) = 3
  ∧ render_numIndices sample.triangle 1 = 3.
Proof.
  destruct (render_draw_count sample.triangle (-1) sample_triangle_inv
              sample_triangle_fits) as (Hneg & _).
  destruct (render_draw_count sample.triangle 1 sample_triangle_inv
              sample_triangle_fits) as (_ & Hpos & _).
  split.
  - apply Hneg. lia.
  - apply Hpos; [lia | reflexivity].
Defined.
